(** * QBDI: the instrumentation registry of [VM] and its memory gates

    A shallow embedding of [src/Engine/VM.cpp] (callback registration and
    deletion, the memory-access gates [memReadGate] / [memWriteGate],
    [VM::run], the memory-access queries, the copy of a VM), of
    [src/Patch/X86_64/InstrRules_X86_64.cpp] ([getBreakToHost]) and of the
    memory-map readers [src/Utility/Memory_linux.cpp] and
    [src/Utility/Memory_windows.cpp].

    Unsigned machine integers ([uint32_t] event ids, [uint16_t] instruction
    ids, [rword] addresses) are values of [N]; wrap-around is written out
    where the code can overflow. *)

From Stdlib Require Import PeanoNat NArith List Bool Lia Ascii String Permutation Sorted DecimalString.
Import ListNotations.
Open Scope N_scope.

(** ** Machine words *)

Definition wrap32 (x : N) : N := x mod 2 ^ 32.
Definition wrap16 (x : N) : N := x mod 2 ^ 16.

(** [#define EVENTID_VIRTCB_MASK (1UL << 31)] *)
Definition EVENTID_VIRTCB_MASK : N := N.shiftl 1 31.

(** ** Enumerations of the public headers *)

(** Modelled from the spec: the [MemoryAccessType] bit flags of
    [QBDI/Callback.h] (the header is not among the sources);
    [MEMORY_READ_WRITE] is the union of the two directions. *)
Definition MEMORY_READ : N := 1.
Definition MEMORY_WRITE : N := 2.
Definition MEMORY_READ_WRITE : N := 3.

(** Modelled from the spec: the [VMAction] enumeration, [CONTINUE] (0),
    [BREAK_TO_VM] (1), [STOP] (2); the numeric order is the severity. *)
Inductive VMAction := CONTINUE | BREAK_TO_VM | STOP.

Definition VMAction_val (a : VMAction) : N :=
  match a with CONTINUE => 0 | BREAK_TO_VM => 1 | STOP => 2 end.

(** [ret > action] on two [VMAction] values. *)
Definition VMAction_gt (ret action : VMAction) : bool :=
  VMAction_val action <? VMAction_val ret.

Inductive InstPosition := PREINST | POSTINST.

(** ** Ranges *)

(** Modelled from the spec: [Range] and [RangeSet] of [QBDI/Range.h] (not
    among the sources), the half-open interval algebra: a range denotes
    [[start, end)], a range set is a sorted list of disjoint ranges, [add]
    merges and ignores an empty range, [overlaps] asks whether some member
    meets the given range. *)
Module Range.

Record t := mk { start : N; end_ : N }.

Definition contains (r : t) (x : N) : Prop := start r <= x /\ x < end_ r.

Definition is_empty (r : t) : bool := end_ r <=? start r.

(** Modelled from the spec: [Range::overlaps], on half-open intervals. *)
Definition overlaps (r o : t) : bool :=
  (start r <? end_ o) && (start o <? end_ r).

(** Two half-open intervals meet when they share an address. *)
Definition meets (r o : t) : Prop := exists x, contains r x /\ contains o x.

End Range.

Module RangeSet.

Definition t := list Range.t.

Definition empty : t := [].

(** Modelled from the spec: the merge of [RangeSet::add]: the range goes
    to its place in the sorted list, absorbing the members it overlaps or
    touches. *)
Fixpoint insert (r : Range.t) (rs : t) : t :=
  match rs with
  | [] => [r]
  | x :: xs =>
      if Range.end_ r <? Range.start x then r :: x :: xs
      else if Range.end_ x <? Range.start r then x :: insert r xs
      else insert (Range.mk (N.min (Range.start r) (Range.start x))
                            (N.max (Range.end_ r) (Range.end_ x))) xs
  end.

(** Modelled from the spec: [RangeSet::add]; an empty range adds nothing. *)
Definition add (r : Range.t) (rs : t) : t :=
  if Range.is_empty r then rs else insert r rs.

(** Modelled from the spec: [RangeSet::overlaps]. *)
Definition overlaps (rs : t) (o : Range.t) : bool :=
  existsb (fun r => Range.overlaps r o) rs.

End RangeSet.

(** ** Callbacks and rules *)

(** A non-null [InstCallback] function pointer: a user function (by
    address) or one of the static functions of [VM.cpp].  A nullable
    pointer is an [option]. *)
Inductive InstCallbackFn :=
| UserInstCB (f : N)
| memReadGateFn
| memWriteGateFn
| stopCallbackFn.

Definition InstCallback := option InstCallbackFn.

(** [InstrRuleCallback]: a user function or the static [InstrCBGateC]. *)
Inductive InstrRuleCallback :=
| UserInstrRuleCB (f : N)
| InstrCBGateCFn.

Record InstrCBInfo := mkInstrCBInfo {
  ic_range : Range.t;
  ic_cbk : N;
  ic_type : N;
  ic_data : N
}.

(** The [void *data] argument of a callback: a user pointer, the VM's own
    [memCBInfos] vector (the gates read the live registry through it), or
    a heap [InstrCBInfo]. *)
Inductive DataPtr :=
| UserData (p : N)
| MemCBInfosPtr
| InstrCBInfoPtr (i : InstrCBInfo).

Record MemCBInfo := mkMemCBInfo {
  mc_type : N;
  mc_range : Range.t;
  mc_cbk : InstCallbackFn;
  mc_data : DataPtr
}.

#[local] Set Warnings "-register-all,-notation-for-abbreviation".

Inductive PatchCondition :=
| True_
| MnemonicIs (mnemonic : string)
| AddressIs (address : N)
| InstructionInRange (start end_ : N)
| DoesReadAccess
| DoesWriteAccess
| Or (children : list PatchCondition).

(** [getCallbackGenerator(cbk, data)]. *)
Record CallbackGenerator := mkGen { gen_cbk : InstCallbackFn; gen_data : DataPtr }.

(** A rule is a condition with a callback generator ([InstrRuleBasic]), a
    user rule callback over a range set ([InstrRuleUser]), or one of the
    engine's own shadow generators that record memory accesses
    ([InstrRuleShadow]; their sources are not among the files). *)
Inductive InstrRule :=
| InstrRuleBasic (cond : PatchCondition) (gen : CallbackGenerator)
                 (pos : InstPosition) (breakToHost : bool)
| InstrRuleUser (cbk : InstrRuleCallback) (type : N) (data : DataPtr)
                (range : RangeSet.t)
| InstrRuleShadow (cond : PatchCondition) (pos : InstPosition).

Record VMCBInfo := mkVMCBInfo { vm_mask : N; vm_cbk : N; vm_data : N }.

(** What [VM.cpp] takes from headers and files that are not among the
    sources: the sentinel [VMError::INVALID_EVENTID] (QBDI/Errors.h), the
    width of [rword] in bits (64 on X86_64, 32 on X86 and ARM), whether
    memory accesses can be recorded ([is_x86_64 or is_x86]), and the fixed
    rules [getInstrRuleMemAccessRead()] and [getInstrRuleMemAccessWrite()]
    that record the accesses of an instruction.  The development holds for
    every platform. *)
Class Platform := mkPlatform {
  INVALID_EVENTID : N;
  rword_bits : N;
  memAccessSupported : bool;
  InstrRuleMemAccessRead : list InstrRule;
  InstrRuleMemAccessWrite : list InstrRule
}.

(** ** ExecBlock and memory accesses *)

Record MemoryAccess := mkMemoryAccess {
  instAddress : N;
  accessAddress : N;
  value : N;
  size : N;
  type : N
}.

(** Modelled from the spec: the part of [ExecBlock] (ExecBlock.h is not
    among the sources) that [VM.cpp] consumes: the current sequence and
    instruction ids, the first and last instruction id of a sequence, the
    recorded accesses of an instruction (what [analyseMemoryAccess] appends
    for that instruction, before or after it executed), and the cached
    analysis of an instruction. *)
Record ExecBlock := mkExecBlock {
  getCurrentSeqID : N;
  getCurrentInstID : N;
  getSeqStart : N -> N;
  getSeqEnd : N -> N;
  instMemoryAccess : N -> bool -> list MemoryAccess;
  blockInstAnalysis : N -> N -> option N
}.

(** Modelled from the spec: [analyseMemoryAccess(block, instID, afterInst,
    dest)] (Patch/MemoryAccess.cpp is not among the sources) appends the
    recorded accesses of the instruction to [dest]. *)
Definition analyseMemoryAccess (b : ExecBlock) (instID : N) (afterInst : bool)
    (dest : list MemoryAccess) : list MemoryAccess :=
  dest ++ instMemoryAccess b instID afterInst.

(** ** Association lists keyed by event id *)

Section IdList.
Context {A : Type}.

Definition ids (l : list (N * A)) : list N := map fst l.

(** The scan-and-erase loop of [deleteInstrumentation]: erase the first
    entry whose id matches, or report that there is none. *)
Fixpoint erase_first (id : N) (l : list (N * A)) : option (list (N * A)) :=
  match l with
  | [] => None
  | x :: xs =>
      if fst x =? id then Some xs
      else match erase_first id xs with
           | Some xs' => Some (x :: xs')
           | None => None
           end
  end.

(** [erase(remove_if(..., x.first == id), end)]. *)
Definition remove_id (id : N) (l : list (N * A)) : list (N * A) :=
  filter (fun x => negb (fst x =? id)) l.

End IdList.

(** ** The engine *)

(** Modelled from the spec: the instrumentation registry of [Engine]
    (Engine.cpp is not among the sources).  Event ids are 32-bit and an
    engine id has its most significant bit clear; rules are kept in
    registration order; a registration that cannot be given an id returns
    the sentinel [INVALID_EVENTID]; [deleteInstrumentation] of an unknown
    id returns false; a rule lives from its registration to its deletion.
    Ids are drawn from one counter and are never handed out twice. *)
Record Engine := mkEngine {
  instrRules : list (N * InstrRule);
  vmCallbacks : list (N * VMCBInfo);
  eventIdCounter : N;
  getCurExecBlock : option ExecBlock;
  isPreInst : bool
}.

(** Modelled from the spec: a new engine has no instrumentation and
    executes no block. *)
Definition Engine_init : Engine := mkEngine [] [] 0 None true.

Definition Engine_with_rules (rs : list (N * InstrRule)) (e : Engine) : Engine :=
  mkEngine rs (vmCallbacks e) (eventIdCounter e) (getCurExecBlock e) (isPreInst e).

Definition Engine_with_vmCallbacks (cs : list (N * VMCBInfo)) (e : Engine) : Engine :=
  mkEngine (instrRules e) cs (eventIdCounter e) (getCurExecBlock e) (isPreInst e).

Definition Engine_with_counter (c : N) (e : Engine) : Engine :=
  mkEngine (instrRules e) (vmCallbacks e) c (getCurExecBlock e) (isPreInst e).

(** ** The VM *)

Record VM := mkVM {
  engine : Engine;
  memoryLoggingLevel : N;
  memCBInfos : list (N * MemCBInfo);
  memCBID : N;
  memReadGateCBID : N;
  memWriteGateCBID : N;
  instrCBInfos : list (N * InstrCBInfo)
}.

Definition with_engine (e : Engine) (s : VM) : VM :=
  mkVM e (memoryLoggingLevel s) (memCBInfos s) (memCBID s)
       (memReadGateCBID s) (memWriteGateCBID s) (instrCBInfos s).

Definition with_memoryLoggingLevel (l : N) (s : VM) : VM :=
  mkVM (engine s) l (memCBInfos s) (memCBID s)
       (memReadGateCBID s) (memWriteGateCBID s) (instrCBInfos s).

Definition with_memCBInfos (l : list (N * MemCBInfo)) (s : VM) : VM :=
  mkVM (engine s) (memoryLoggingLevel s) l (memCBID s)
       (memReadGateCBID s) (memWriteGateCBID s) (instrCBInfos s).

Definition with_memCBID (n : N) (s : VM) : VM :=
  mkVM (engine s) (memoryLoggingLevel s) (memCBInfos s) n
       (memReadGateCBID s) (memWriteGateCBID s) (instrCBInfos s).

Definition with_memReadGateCBID (n : N) (s : VM) : VM :=
  mkVM (engine s) (memoryLoggingLevel s) (memCBInfos s) (memCBID s)
       n (memWriteGateCBID s) (instrCBInfos s).

Definition with_memWriteGateCBID (n : N) (s : VM) : VM :=
  mkVM (engine s) (memoryLoggingLevel s) (memCBInfos s) (memCBID s)
       (memReadGateCBID s) n (instrCBInfos s).

Definition with_instrCBInfos (l : list (N * InstrCBInfo)) (s : VM) : VM :=
  mkVM (engine s) (memoryLoggingLevel s) (memCBInfos s) (memCBID s)
       (memReadGateCBID s) (memWriteGateCBID s) l.

Section Registry.

Context {P : Platform}.

Definition wrap_rword (x : N) : N := x mod 2 ^ rword_bits.

(** *** Engine operations *)

(** Modelled from the spec: [Engine::addInstrRule] (Engine.cpp is not among
    the sources): the rule gets the next id, whose most significant bit is
    clear, and goes last in registration order; when no such id is left
    the sentinel is returned and nothing is registered. *)
Definition Engine_addInstrRule (rule : InstrRule) (e : Engine) : N * Engine :=
  let id := eventIdCounter e in
  if id <? EVENTID_VIRTCB_MASK then
    (id, Engine_with_counter (id + 1)
           (Engine_with_rules (instrRules e ++ [(id, rule)]) e))
  else (INVALID_EVENTID, e).

(** Modelled from the spec: [Engine::addVMEventCB] (not among the
    sources), the registration of a VM-event callback, with an id from the
    same counter. *)
Definition Engine_addVMEventCB (mask cbk data : N) (e : Engine) : N * Engine :=
  let id := eventIdCounter e in
  if id <? EVENTID_VIRTCB_MASK then
    (id, Engine_with_counter (id + 1)
           (Engine_with_vmCallbacks
              (vmCallbacks e ++ [(id, mkVMCBInfo mask cbk data)]) e))
  else (INVALID_EVENTID, e).

(** Modelled from the spec: [Engine::deleteInstrumentation] (not among the
    sources): the rule or VM-event callback with this id is destroyed;
    an unknown id returns false. *)
Definition Engine_deleteInstrumentation (id : N) (e : Engine) : bool * Engine :=
  match erase_first id (instrRules e) with
  | Some rs => (true, Engine_with_rules rs e)
  | None =>
      match erase_first id (vmCallbacks e) with
      | Some cs => (true, Engine_with_vmCallbacks cs e)
      | None => (false, e)
      end
  end.

(** Modelled from the spec: [Engine::deleteAllInstrumentations] (not among
    the sources): every rule and VM-event callback is destroyed. *)
Definition Engine_deleteAllInstrumentations (e : Engine) : Engine :=
  Engine_with_vmCallbacks [] (Engine_with_rules [] e).

(** *** Construction *)

(** [VM::VM(cpu, mattrs, opts)]. *)
Definition VM_new : VM :=
  mkVM Engine_init 0 [] 0 INVALID_EVENTID INVALID_EVENTID [].

(** [engine->addInstrRule(rule)] from inside the VM. *)
Definition engine_addInstrRule (rule : InstrRule) (s : VM) : N * VM :=
  let (id, e) := Engine_addInstrRule rule (engine s) in (id, with_engine e s).

(** *** Rule registration *)

Definition addInstrRule (cbk : InstrRuleCallback) (type : N) (data : DataPtr)
    (s : VM) : N * VM :=
  let r := RangeSet.add (Range.mk 0 (wrap_rword (2 ^ rword_bits - 1))) RangeSet.empty in
  engine_addInstrRule (InstrRuleUser cbk type data r) s.

Definition addInstrRuleC (cbk type data : N) (s : VM) : N * VM :=
  let _data := mkInstrCBInfo (Range.mk 0 (wrap_rword (2 ^ rword_bits - 1))) cbk type data in
  let (id, s1) := addInstrRule InstrCBGateCFn type (InstrCBInfoPtr _data) s in
  (id, with_instrCBInfos (instrCBInfos s1 ++ [(id, _data)]) s1).

Definition addInstrRuleRange (start end_ : N) (cbk : InstrRuleCallback)
    (type : N) (data : DataPtr) (s : VM) : N * VM :=
  let r := RangeSet.add (Range.mk start end_) RangeSet.empty in
  engine_addInstrRule (InstrRuleUser cbk type data r) s.

Definition addInstrRuleRangeC (start end_ cbk type data : N) (s : VM) : N * VM :=
  let _data := mkInstrCBInfo (Range.mk start end_) cbk type data in
  let (id, s1) :=
    addInstrRuleRange start end_ InstrCBGateCFn type (InstrCBInfoPtr _data) s in
  (id, with_instrCBInfos (instrCBInfos s1 ++ [(id, _data)]) s1).

Definition addInstrRuleRangeSet (range : RangeSet.t) (cbk : InstrRuleCallback)
    (type : N) (data : DataPtr) (s : VM) : N * VM :=
  engine_addInstrRule (InstrRuleUser cbk type data range) s.

Definition addMnemonicCB (mnemonic : option string) (pos : InstPosition)
    (cbk : InstCallback) (data : DataPtr) (s : VM) : N * VM :=
  match mnemonic with
  | None => (INVALID_EVENTID, s)
  | Some m =>
      match cbk with
      | None => (INVALID_EVENTID, s)
      | Some f =>
          engine_addInstrRule
            (InstrRuleBasic (MnemonicIs m) (mkGen f data) pos true) s
      end
  end.

Definition addCodeCB (pos : InstPosition) (cbk : InstCallback) (data : DataPtr)
    (s : VM) : N * VM :=
  match cbk with
  | None => (INVALID_EVENTID, s)
  | Some f => engine_addInstrRule (InstrRuleBasic True_ (mkGen f data) pos true) s
  end.

Definition addCodeAddrCB (address : N) (pos : InstPosition) (cbk : InstCallback)
    (data : DataPtr) (s : VM) : N * VM :=
  match cbk with
  | None => (INVALID_EVENTID, s)
  | Some f =>
      engine_addInstrRule
        (InstrRuleBasic (AddressIs address) (mkGen f data) pos true) s
  end.

Definition addCodeRangeCB (start end_ : N) (pos : InstPosition)
    (cbk : InstCallback) (data : DataPtr) (s : VM) : N * VM :=
  if negb (start <? end_) then (INVALID_EVENTID, s)
  else match cbk with
       | None => (INVALID_EVENTID, s)
       | Some f =>
           engine_addInstrRule
             (InstrRuleBasic (InstructionInRange start end_) (mkGen f data) pos true) s
       end.

(** *** Memory-access recording *)

(** The loop [for (auto &r : rules) engine->addInstrRule(std::move(r))]. *)
Definition addInstrRules (rules : list InstrRule) (s : VM) : VM :=
  fold_left (fun st r => snd (engine_addInstrRule r st)) rules s.

Definition recordMemoryAccess (type : N) (s : VM) : bool * VM :=
  if negb memAccessSupported then (false, s)
  else
    let s1 :=
      if negb (N.land type MEMORY_READ =? 0)
         && (N.land (memoryLoggingLevel s) MEMORY_READ =? 0)
      then addInstrRules InstrRuleMemAccessRead
             (with_memoryLoggingLevel (N.lor (memoryLoggingLevel s) MEMORY_READ) s)
      else s in
    let s2 :=
      if negb (N.land type MEMORY_WRITE =? 0)
         && (N.land (memoryLoggingLevel s1) MEMORY_WRITE =? 0)
      then addInstrRules InstrRuleMemAccessWrite
             (with_memoryLoggingLevel (N.lor (memoryLoggingLevel s1) MEMORY_WRITE) s1)
      else s1 in
    (true, s2).

Definition addMemAccessCB (type : N) (cbk : InstCallback) (data : DataPtr)
    (s : VM) : N * VM :=
  match cbk with
  | None => (INVALID_EVENTID, s)
  | Some f =>
      let s1 := snd (recordMemoryAccess type s) in
      if type =? MEMORY_READ then
        engine_addInstrRule
          (InstrRuleBasic DoesReadAccess (mkGen f data) PREINST true) s1
      else if type =? MEMORY_WRITE then
        engine_addInstrRule
          (InstrRuleBasic DoesWriteAccess (mkGen f data) POSTINST true) s1
      else if type =? MEMORY_READ_WRITE then
        engine_addInstrRule
          (InstrRuleBasic (Or [DoesReadAccess; DoesWriteAccess])
                          (mkGen f data) POSTINST true) s1
      else (INVALID_EVENTID, s1)
  end.

(** *** Memory range callbacks *)

Definition addMemRangeCB (start end_ type : N) (cbk : InstCallback)
    (data : DataPtr) (s : VM) : N * VM :=
  if negb (start <? end_) then (INVALID_EVENTID, s)
  else if N.land type MEMORY_READ_WRITE =? 0 then (INVALID_EVENTID, s)
  else match cbk with
  | None => (INVALID_EVENTID, s)
  | Some f =>
      let s1 :=
        if (type =? MEMORY_READ) && (memReadGateCBID s =? INVALID_EVENTID) then
          let (g, s') := addMemAccessCB MEMORY_READ (Some memReadGateFn) MemCBInfosPtr s in
          with_memReadGateCBID g s'
        else s in
      let s2 :=
        if negb (N.land type MEMORY_WRITE =? 0)
           && (memWriteGateCBID s1 =? INVALID_EVENTID) then
          let (g, s') :=
            addMemAccessCB MEMORY_READ_WRITE (Some memWriteGateFn) MemCBInfosPtr s1 in
          with_memWriteGateCBID g s'
        else s1 in
      let id := memCBID s2 in
      let s3 := with_memCBID (wrap32 (id + 1)) s2 in
      if negb (id <? EVENTID_VIRTCB_MASK) then (INVALID_EVENTID, s3)
      else
        (N.lor id EVENTID_VIRTCB_MASK,
         with_memCBInfos
           (memCBInfos s3 ++ [(id, mkMemCBInfo type (Range.mk start end_) f data)]) s3)
  end.

(** The two gate-creating [if] statements of [addMemRangeCB], by name. *)
Definition createReadGate (type : N) (s : VM) : VM :=
  if (type =? MEMORY_READ) && (memReadGateCBID s =? INVALID_EVENTID) then
    let (g, s') := addMemAccessCB MEMORY_READ (Some memReadGateFn) MemCBInfosPtr s in
    with_memReadGateCBID g s'
  else s.

Definition createWriteGate (type : N) (s : VM) : VM :=
  if negb (N.land type MEMORY_WRITE =? 0)
     && (memWriteGateCBID s =? INVALID_EVENTID) then
    let (g, s') :=
      addMemAccessCB MEMORY_READ_WRITE (Some memWriteGateFn) MemCBInfosPtr s in
    with_memWriteGateCBID g s'
  else s.

Definition addMemAddrCB (address type : N) (cbk : InstCallback) (data : DataPtr)
    (s : VM) : N * VM :=
  match cbk with
  | None => (INVALID_EVENTID, s)
  | Some _ => addMemRangeCB address (wrap_rword (address + 1)) type cbk data s
  end.

Definition addVMEventCB (mask : N) (cbk : option N) (data : N) (s : VM) : N * VM :=
  if mask =? 0 then (INVALID_EVENTID, s)
  else match cbk with
       | None => (INVALID_EVENTID, s)
       | Some f =>
           let (id, e) := Engine_addVMEventCB mask f data (engine s) in
           (id, with_engine e s)
       end.

(** *** Deletion *)

Definition deleteInstrumentation (id : N) (s : VM) : bool * VM :=
  if negb (N.land id EVENTID_VIRTCB_MASK =? 0) then
    let id' := N.ldiff id EVENTID_VIRTCB_MASK in
    match erase_first id' (memCBInfos s) with
    | Some l => (true, with_memCBInfos l s)
    | None => (false, s)
    end
  else
    let s1 := with_instrCBInfos (remove_id id (instrCBInfos s)) s in
    let (b, e) := Engine_deleteInstrumentation id (engine s1) in
    (b, with_engine e s1).

Definition deleteAllInstrumentations (s : VM) : VM :=
  let s1 := with_engine (Engine_deleteAllInstrumentations (engine s)) s in
  let s2 := with_memReadGateCBID INVALID_EVENTID s1 in
  let s3 := with_memWriteGateCBID INVALID_EVENTID s2 in
  let s4 := with_memCBInfos [] s3 in
  let s5 := with_instrCBInfos [] s4 in
  with_memoryLoggingLevel 0 s5.

End Registry.

(** ** Memory-access queries *)

(** [VM::getInstAnalysis]; [None] is the null pointer.  The three queries
    are [const] member functions: they read the VM and return a value. *)
Definition getInstAnalysis (type : N) (s : VM) : option N :=
  match getCurExecBlock (engine s) with
  | None => None
  | Some curExecBlock =>
      blockInstAnalysis curExecBlock (getCurrentInstID curExecBlock) type
  end.

Definition getInstMemoryAccess (s : VM) : list MemoryAccess :=
  match getCurExecBlock (engine s) with
  | None => []
  | Some curExecBlock =>
      analyseMemoryAccess curExecBlock (getCurrentInstID curExecBlock)
        (negb (isPreInst (engine s))) []
  end.

(** The [for] loop of [getBBMemoryAccess] over the [uint16_t] iterator
    [itInstID]; [None] when the fuel runs out. *)
Fixpoint bbLoop (fuel : nat) (b : ExecBlock) (instID : N) (preInst : bool)
    (endInstID : N) (itInstID : N) (memAccess : list MemoryAccess)
    : option (list MemoryAccess) :=
  match fuel with
  | O => None
  | S fuel' =>
      if itInstID <=? N.min endInstID instID then
        bbLoop fuel' b instID preInst endInstID (wrap16 (itInstID + 1))
          (analyseMemoryAccess b itInstID
             (negb (itInstID =? instID) || negb preInst) memAccess)
      else Some memAccess
  end.

(** The iterator has [2 ^ 16] values: a loop that has not left after that
    many tests plus one never leaves. *)
Definition uint16_fuel : nat := S (N.to_nat (2 ^ 16)).

(** [VM::getBBMemoryAccess]; [None] stands for a loop that does not end. *)
Definition getBBMemoryAccess (s : VM) : option (list MemoryAccess) :=
  match getCurExecBlock (engine s) with
  | None => Some []
  | Some curExecBlock =>
      let bbID := getCurrentSeqID curExecBlock in
      let instID := getCurrentInstID curExecBlock in
      let endInstID := getSeqEnd curExecBlock bbID in
      bbLoop uint16_fuel curExecBlock instID (isPreInst (engine s)) endInstID
        (getSeqStart curExecBlock bbID) []
  end.

(** Instruction ids [first, first + 1, ..., first + n - 1]. *)
Fixpoint instIDs (first : N) (n : nat) : list N :=
  match n with
  | O => []
  | S n' => first :: instIDs (first + 1) n'
  end.

(** ** The memory gates *)

(** User code that leaves the VM it is given alone: what such callbacks
    may touch ([World]: the guest register state handed to them and the
    memory behind their [data] pointer), and the function behind a
    callback pointer.  Callbacks that use the VM they are given, to
    register or delete while a gate runs, are [Live.UserCode] below. *)
Class UserCode := mkUserCode {
  World : Type;
  invoke : InstCallbackFn -> DataPtr -> World -> VMAction * World
}.

Section Gates.

Context {P : Platform} {U : UserCode}.

(** [Range<rword> accessRange(accessAddress, accessAddress + size)]. *)
Definition accessRange (m : MemoryAccess) : Range.t :=
  Range.mk (accessAddress m) (wrap_rword (accessAddress m + size m)).

(** The range set a gate builds from the accesses of direction [dir]. *)
Definition accessRanges (dir : N) (memAccesses : list MemoryAccess) : RangeSet.t :=
  fold_left
    (fun rs m =>
       if negb (N.land (type m) dir =? 0) then RangeSet.add (accessRange m) rs
       else rs)
    memAccesses RangeSet.empty.

(** One forwarded call: the index [i] of the entry in [memCBInfos], its
    id, and what the callback returned. *)
Record GateCall := mkGateCall { call_index : nat; call_id : N; call_ret : VMAction }.

(** The forwarding loop shared by the two gates; [fires] is the test on
    access type and range.  The calls made are logged in order.  With
    callbacks that leave the VM alone the vector is at every turn the one
    the gate found when it was entered, and the loop is a recursion over
    it; [Live.gateLoop] is the loop that reads the vector again on every
    turn. *)
Fixpoint gateLoop (fires : MemCBInfo -> bool) (infos : list (N * MemCBInfo))
    (i : nat) (w : World) (action : VMAction) (log : list GateCall)
    : VMAction * World * list GateCall :=
  match infos with
  | [] => (action, w, log)
  | x :: rest =>
      if fires (snd x) then
        let (ret, w') := invoke (mc_cbk (snd x)) (mc_data (snd x)) w in
        gateLoop fires rest (S i) w'
          (if VMAction_gt ret action then ret else action)
          (log ++ [mkGateCall i (fst x) ret])
      else gateLoop fires rest (S i) w action log
  end.

Definition readGateFires (readRange : RangeSet.t) (info : MemCBInfo) : bool :=
  (mc_type info =? MEMORY_READ) && RangeSet.overlaps readRange (mc_range info).

Definition writeGateFires (readRange writeRange : RangeSet.t) (info : MemCBInfo) : bool :=
  (negb (N.land (mc_type info) MEMORY_WRITE =? 0)
   && RangeSet.overlaps writeRange (mc_range info))
  || ((mc_type info =? MEMORY_READ_WRITE)
      && RangeSet.overlaps readRange (mc_range info)).

(** The two gates of a VM whose [addMemRangeCB] created them: [data] is
    the [memCBInfos] of [vm]. *)
Definition memReadGate (vm : VM) (w : World) : VMAction * World * list GateCall :=
  let memAccesses := getInstMemoryAccess vm in
  let readRange := accessRanges MEMORY_READ memAccesses in
  gateLoop (readGateFires readRange) (memCBInfos vm) O w CONTINUE [].

Definition memWriteGate (vm : VM) (w : World) : VMAction * World * list GateCall :=
  let memAccesses := getInstMemoryAccess vm in
  let readRange := accessRanges MEMORY_READ memAccesses in
  let writeRange := accessRanges MEMORY_WRITE memAccesses in
  gateLoop (writeGateFires readRange writeRange) (memCBInfos vm) O w CONTINUE [].

(** What a gate returned, and the calls it forwarded. *)
Definition gate_action (r : VMAction * World * list GateCall) : VMAction := fst (fst r).
Definition gate_calls (r : VMAction * World * list GateCall) : list GateCall := snd r.

(** The indices (in [memCBInfos]) of the entries a gate forwarded to. *)
Definition called (r : VMAction * World * list GateCall) : list nat :=
  map call_index (gate_calls r).

(** [stopCallback]. *)
Definition stopCallback (w : World) : VMAction * World := (STOP, w).





End Gates.

(** ** [VM::run] *)

Section Run.

Context {P : Platform}.

(** [Engine::run(start, stop)]: the dispatcher loop, which is not among
    the sources; it works on the engine it is given. *)
Variable Engine_run : N -> N -> Engine -> bool * Engine.

(** The rule [run] installs at [stop]; the null [data] is [UserData 0]. *)
Definition stopRule (stop : N) : InstrRule :=
  InstrRuleBasic (AddressIs stop) (mkGen stopCallbackFn (UserData 0)) PREINST true.

(** The state in which [engine->run] is entered, with the id [stopCB]. *)
Definition run_install (stop : N) (s : VM) : N * VM :=
  addCodeAddrCB stop PREINST (Some stopCallbackFn) (UserData 0) s.

Definition run (start stop : N) (s : VM) : bool * VM :=
  let (stopCB, s1) := run_install stop s in
  let (ret, e) := Engine_run start stop (engine s1) in
  let (_, s2) := deleteInstrumentation stopCB (with_engine e s1) in
  (ret, s2).

End Run.

(** The instrumentations a user can observe: the engine's rules and VM
    event callbacks, the memory-range registry and the records of the C
    rule callbacks. *)
Definition instrumentations (s : VM)
    : list (N * InstrRule) * list (N * VMCBInfo)
      * list (N * MemCBInfo) * list (N * InstrCBInfo) :=
  (instrRules (engine s), vmCallbacks (engine s), memCBInfos s, instrCBInfos s).

(** ** Invariants of the registries *)

(** Every id in use lies below the counter it was drawn from. *)
Definition registry_wf (s : VM) : Prop :=
  Forall (fun id => id < memCBID s) (ids (memCBInfos s))
  /\ Forall (fun id => id < eventIdCounter (engine s)) (ids (instrRules (engine s)))
  /\ Forall (fun id => id < eventIdCounter (engine s)) (ids (vmCallbacks (engine s))).

(** The part of the VM an engine registration leaves alone. *)
Definition same_mem_registry (s s' : VM) : Prop :=
  memCBInfos s' = memCBInfos s /\ memCBID s' = memCBID s
  /\ memReadGateCBID s' = memReadGateCBID s
  /\ memWriteGateCBID s' = memWriteGateCBID s
  /\ instrCBInfos s' = instrCBInfos s.

(** The records of the C rule callbacks carry ids the engine handed out. *)
Definition cb_records_wf (s : VM) : Prop :=
  Forall (fun id => id < eventIdCounter (engine s)) (ids (instrCBInfos s)).

(** A step that touches neither the memory-range registry nor the records
    of the C rule callbacks, keeps the invariant and never lowers the
    engine's counter. *)
Definition gate_step (s s' : VM) : Prop :=
  memCBInfos s' = memCBInfos s /\ memCBID s' = memCBID s
  /\ instrCBInfos s' = instrCBInfos s
  /\ (registry_wf s -> registry_wf s')
  /\ eventIdCounter (engine s) <= eventIdCounter (engine s').

(** Which entries need which gate: [memReadGate] forwards to the entries of
    type [MEMORY_READ], [memWriteGate] to those with [MEMORY_WRITE] set. *)
Definition needsReadGate (info : MemCBInfo) : bool := mc_type info =? MEMORY_READ.
Definition needsWriteGate (info : MemCBInfo) : bool :=
  negb (N.land (mc_type info) MEMORY_WRITE =? 0).

Definition readGateNeeded (s : VM) : bool :=
  existsb (fun x => needsReadGate (snd x)) (memCBInfos s).
Definition writeGateNeeded (s : VM) : bool :=
  existsb (fun x => needsWriteGate (snd x)) (memCBInfos s).

(** ** Registration operations as data *)

Inductive Registration :=
| RegInstrRule (cbk : InstrRuleCallback) (type : N) (data : DataPtr)
| RegInstrRuleC (cbk type data : N)
| RegInstrRuleRange (start end_ : N) (cbk : InstrRuleCallback) (type : N) (data : DataPtr)
| RegInstrRuleRangeC (start end_ cbk type data : N)
| RegInstrRuleRangeSet (range : RangeSet.t) (cbk : InstrRuleCallback) (type : N) (data : DataPtr)
| RegMnemonicCB (mnemonic : option string) (pos : InstPosition) (cbk : InstCallback) (data : DataPtr)
| RegCodeCB (pos : InstPosition) (cbk : InstCallback) (data : DataPtr)
| RegCodeAddrCB (address : N) (pos : InstPosition) (cbk : InstCallback) (data : DataPtr)
| RegCodeRangeCB (start end_ : N) (pos : InstPosition) (cbk : InstCallback) (data : DataPtr)
| RegMemAccessCB (type : N) (cbk : InstCallback) (data : DataPtr)
| RegMemAddrCB (address type : N) (cbk : InstCallback) (data : DataPtr)
| RegMemRangeCB (start end_ type : N) (cbk : InstCallback) (data : DataPtr)
| RegVMEventCB (mask : N) (cbk : option N) (data : N).

(** The operations that hand out an engine rule id. *)
Definition is_engine_rule_registration (op : Registration) : bool :=
  match op with
  | RegMemAddrCB _ _ _ _ | RegMemRangeCB _ _ _ _ _ | RegVMEventCB _ _ _ => false
  | _ => true
  end.

(** The operations that hand out a memory-range id. *)
Definition is_mem_range_registration (op : Registration) : bool :=
  match op with
  | RegMemAddrCB _ _ _ _ | RegMemRangeCB _ _ _ _ _ => true
  | _ => false
  end.

Section Operations.

Context {P : Platform}.

Definition register (op : Registration) (s : VM) : N * VM :=
  match op with
  | RegInstrRule cbk type data => addInstrRule cbk type data s
  | RegInstrRuleC cbk type data => addInstrRuleC cbk type data s
  | RegInstrRuleRange start end_ cbk type data =>
      addInstrRuleRange start end_ cbk type data s
  | RegInstrRuleRangeC start end_ cbk type data =>
      addInstrRuleRangeC start end_ cbk type data s
  | RegInstrRuleRangeSet range cbk type data =>
      addInstrRuleRangeSet range cbk type data s
  | RegMnemonicCB mnemonic pos cbk data => addMnemonicCB mnemonic pos cbk data s
  | RegCodeCB pos cbk data => addCodeCB pos cbk data s
  | RegCodeAddrCB address pos cbk data => addCodeAddrCB address pos cbk data s
  | RegCodeRangeCB start end_ pos cbk data =>
      addCodeRangeCB start end_ pos cbk data s
  | RegMemAccessCB type cbk data => addMemAccessCB type cbk data s
  | RegMemAddrCB address type cbk data => addMemAddrCB address type cbk data s
  | RegMemRangeCB start end_ type cbk data =>
      addMemRangeCB start end_ type cbk data s
  | RegVMEventCB mask cbk data => addVMEventCB mask cbk data s
  end.

(** Any public operation on the instrumentations. *)
Inductive VMOp :=
| DoRegister (r : Registration)
| DoDelete (id : N)
| DoDeleteAll.

Definition vmOp (op : VMOp) (s : VM) : VM :=
  match op with
  | DoRegister r => snd (register r s)
  | DoDelete id => snd (deleteInstrumentation id s)
  | DoDeleteAll => deleteAllInstrumentations s
  end.

(** A sequence of operations, from state [s]. *)
Definition vmOps (ops : list VMOp) (s : VM) : VM :=
  fold_left (fun st op => vmOp op st) ops s.

(** The public operations on the memory-range registry. *)
Inductive MemOp :=
| OpMemRangeCB (start end_ type : N) (cbk : InstCallback) (data : DataPtr)
| OpMemAddrCB (address type : N) (cbk : InstCallback) (data : DataPtr)
| OpDelete (id : N)
| OpDeleteAll.

Definition memOp (op : MemOp) (s : VM) : VM :=
  match op with
  | OpMemRangeCB start end_ type cbk data =>
      snd (register (RegMemRangeCB start end_ type cbk data) s)
  | OpMemAddrCB address type cbk data =>
      snd (register (RegMemAddrCB address type cbk data) s)
  | OpDelete id => snd (deleteInstrumentation id s)
  | OpDeleteAll => deleteAllInstrumentations s
  end.

(** A sequence of operations on a fresh VM. *)
Definition memOps (ops : list MemOp) : VM :=
  fold_left (fun s op => memOp op s) ops VM_new.

(** The gate invariant that holds of the code: while the engine has ids
    left, a gate that some registered entry needs exists. *)
Definition gates_cover (s : VM) : Prop :=
  eventIdCounter (engine s) < EVENTID_VIRTCB_MASK ->
  (readGateNeeded s = true -> memReadGateCBID s <> INVALID_EVENTID)
  /\ (writeGateNeeded s = true -> memWriteGateCBID s <> INVALID_EVENTID).

End Operations.

(** ** A concrete platform *)

(** X86_64 with the all-ones sentinel; reads are recorded before the
    instruction, writes before (address) and after (value). *)
Definition X86_64 : Platform :=
  mkPlatform 4294967295 64 true
    [InstrRuleShadow DoesReadAccess PREINST]
    [InstrRuleShadow DoesWriteAccess PREINST; InstrRuleShadow DoesWriteAccess POSTINST].

(** A user whose callbacks return by address: 2 asks for [BREAK_TO_VM],
    3 for [STOP], any other for [CONTINUE]; the world counts the calls. *)
Definition countingUser : UserCode :=
  mkUserCode N
    (fun f _ w =>
       match f with
       | UserInstCB 2 => (BREAK_TO_VM, w + 1)
       | UserInstCB 3 => (STOP, w + 1)
       | _ => (CONTINUE, w + 1)
       end).

(** A block in its sequence 0 (instructions 0 to 5), at instruction 2,
    which reads 8 bytes at 4100. *)
Definition demoBlock : ExecBlock :=
  mkExecBlock 0 2 (fun _ => 0) (fun _ => 5)
    (fun i _ => if i =? 2 then [mkMemoryAccess 4194304 4100 0 8 MEMORY_READ] else [])
    (fun _ _ => None).

(** A VM stopped in a callback before instruction 2 of [demoBlock]. *)
Definition demoVM : VM :=
  mkVM (mkEngine [] [] 0 (Some demoBlock) true) 0 [] 0
       (INVALID_EVENTID (Platform := X86_64)) (INVALID_EVENTID (Platform := X86_64)) [].

(** Scenario S4 of the specification: instruction 0 reads 8 bytes at
    [buf + 16] and writes 4 bytes at [buf + 200], with [buf = 4096]; the
    write is recorded once the instruction has executed. *)
Definition s4Block : ExecBlock :=
  mkExecBlock 0 0 (fun _ => 0) (fun _ => 0)
    (fun i afterInst =>
       if i =? 0 then
         mkMemoryAccess 4194304 4112 0 8 MEMORY_READ
         :: (if afterInst then [mkMemoryAccess 4194304 4296 0 4 MEMORY_WRITE] else [])
       else [])
    (fun _ _ => None).

(** A VM stopped in a callback after instruction 0 of [s4Block]. *)
Definition s4VM : VM :=
  mkVM (mkEngine [] [] 0 (Some s4Block) false) 0 [] 0
       (INVALID_EVENTID (Platform := X86_64)) (INVALID_EVENTID (Platform := X86_64)) [].

(** A few operations on a new VM. *)
Definition demoOps : list VMOp :=
  [DoRegister (RegCodeCB PREINST (Some (UserInstCB 1)) (UserData 0));
   DoRegister (RegMemRangeCB 4096 8192 MEMORY_READ (Some (UserInstCB 2)) (UserData 0));
   DoDelete 0].

(** One more registration, deleted at once by the id it returned. *)
Definition registerAndDelete (s : VM) : VM :=
  snd (deleteInstrumentation
         (fst (addMemRangeCB (P := X86_64) 0 1 MEMORY_READ (Some (UserInstCB 1))
                 (UserData 0) s))
         (snd (addMemRangeCB (P := X86_64) 0 1 MEMORY_READ (Some (UserInstCB 1))
                 (UserData 0) s))).

(** A VM with one memory-range callback that is kept. *)
Definition oneCallbackVM : VM :=
  snd (addMemRangeCB (P := X86_64) 4096 8192 MEMORY_READ (Some (UserInstCB 2))
         (UserData 0) (VM_new (P := X86_64))).

(** The same VM after [2 ^ 32 - 1] further calls of [addMemRangeCB], each
    followed by [deleteInstrumentation] of what it returned: the registry
    holds the first callback only, and [memCBID] has gone round. *)
Definition wrappedVM : VM := N.iter (2 ^ 32 - 1) registerAndDelete oneCallbackVM.

(** A VM with one code callback, and a VM with two C rule callbacks. *)
Definition codeVM : VM :=
  snd (register (P := X86_64) (RegCodeCB PREINST (Some (UserInstCB 1)) (UserData 0))
         (VM_new (P := X86_64))).

Definition recordsVM : VM :=
  snd (addInstrRuleRangeC (P := X86_64) 4096 8192 5 0 0
         (snd (addInstrRuleC (P := X86_64) 9 0 0 (VM_new (P := X86_64))))).

(** A registration whose id is followed along a run: operations that
    leave the id alone, then operations of any kind. *)
Definition keptOp : Registration :=
  RegMemRangeCB 0 64 MEMORY_READ_WRITE (Some (UserInstCB 3)) (UserData 0).

Definition midOps : list VMOp :=
  [DoRegister (RegCodeCB POSTINST (Some (UserInstCB 1)) (UserData 0));
   DoDelete 1;
   DoDelete 2147483648].

Definition laterOps : list VMOp :=
  [DoRegister keptOp; DoDelete 2147483649; DoDeleteAll; DoRegister keptOp].

(** ** BreakToHost (InstrRules_X86_64.cpp) *)

Definition Reg := N.

(** The two Layer2 instructions [getBreakToHost] builds: [mov reg, imm]. *)
Inductive MCInst :=
| mov32ri (reg : Reg) (imm : N)
| mov64ri (reg : Reg) (imm : N).

(** [Offset(int64_t)] is an offset into the Context, [Offset(Reg)] the
    offset of the Context slot of a register. *)
Inductive Offset :=
| OffsetConst (offset : N)
| OffsetReg (reg : Reg).

(** The elements of the sequence: the relocatable instruction
    [HostPCRel(inst, opn, offset)] and the instructions the generators
    [SaveReg], [LoadReg] and [JmpEpilogue] append. *)
Inductive RelocatableInst :=
| HostPCRel (inst : MCInst) (opn : N) (offset : N)
| SaveReg (reg : Reg) (offset : Offset)
| LoadReg (reg : Reg) (offset : Offset)
| JmpEpilogue.

(** The target: [is_x86] (32-bit X86, otherwise X86_64), the Context
    offsets [offsetof(Context, hostState.selector)] and of the slot of each
    register, and the address of the epilogue of the block. *)
Class Target := mkTarget {
  is_x86 : bool;
  offsetof_selector : N;
  offsetof_gpr : Reg -> N;
  epilogue : N
}.

Section BreakToHost.

Context {T : Target}.

Definition getBreakToHost (temp : Reg) : list RelocatableInst :=
  (if is_x86 then [HostPCRel (mov32ri temp 0) 1 22]
   else [HostPCRel (mov64ri temp 0) 1 29])
  ++ [SaveReg temp (OffsetConst offsetof_selector)]
  ++ [LoadReg temp (OffsetReg temp)]
  ++ [JmpEpilogue].

(** Modelled from the spec: what the elements do once materialised in an
    ExecBlock (RelocatableInst and PatchGenerator sources are not among
    the files).  [HostPCRel] bakes the host address of the instruction
    plus [offset] into operand [opn]; [SaveReg] and [LoadReg] access the
    Context at an offset; [JmpEpilogue] branches to the block epilogue.
    The state is the real registers, the Context by offset, and the host
    program counter. *)
Record Host := mkHost {
  regs : Reg -> N;
  context : N -> N;
  hostPC : N
}.

(** Width of a host word in bits. *)
Definition host_bits : N := if is_x86 then 32 else 64.

(** Encoded length in bytes: [mov r32, imm32] is B8+rd id (5),
    [mov r64, imm64] is REX.W B8+rd io (10); a move between a register and
    the Context is 89 /r or 8B /r with a 32-bit displacement (6), with
    REX.W and RIP-relative on X86_64 (7); [jmp rel32] is E9 cd (5). *)
Definition encodedSize (i : RelocatableInst) : N :=
  match i with
  | HostPCRel (mov32ri _ _) _ _ => 5
  | HostPCRel (mov64ri _ _) _ _ => 10
  | SaveReg _ _ | LoadReg _ _ => if is_x86 then 6 else 7
  | JmpEpilogue => 5
  end.

Definition patchSize (l : list RelocatableInst) : N :=
  fold_right (fun i n => encodedSize i + n) 0 l.

Definition resolve (o : Offset) : N :=
  match o with
  | OffsetConst offset => offset
  | OffsetReg reg => offsetof_gpr reg
  end.

Definition setReg (r : Reg) (v : N) (h : Host) : Host :=
  mkHost (fun r' => if r' =? r then v else regs h r') (context h) (hostPC h).

Definition setContext (o : N) (v : N) (h : Host) : Host :=
  mkHost (regs h) (fun o' => if o' =? o then v else context h o') (hostPC h).

Definition setHostPC (a : N) (h : Host) : Host :=
  mkHost (regs h) (context h) a.

(** The immediate of [mov reg, imm] is operand 1. *)
Definition setOperand (inst : MCInst) (opn : N) (v : N) : MCInst :=
  match inst with
  | mov32ri reg imm => if opn =? 1 then mov32ri reg v else inst
  | mov64ri reg imm => if opn =? 1 then mov64ri reg v else inst
  end.

Definition execMCInst (inst : MCInst) (h : Host) : Host :=
  match inst with
  | mov32ri reg imm | mov64ri reg imm => setReg reg imm h
  end.

(** Modelled from the spec: one element, materialised at [hostPC h] and
    executed there (see [Host]). *)
Definition execInst (i : RelocatableInst) (h : Host) : Host :=
  let next := hostPC h + encodedSize i in
  match i with
  | HostPCRel inst opn offset =>
      setHostPC next
        (execMCInst (setOperand inst opn ((hostPC h + offset) mod 2 ^ host_bits)) h)
  | SaveReg reg offset => setHostPC next (setContext (resolve offset) (regs h reg) h)
  | LoadReg reg offset => setHostPC next (setReg reg (context h (resolve offset)) h)
  | JmpEpilogue => setHostPC epilogue h
  end.

Definition execSeq (l : list RelocatableInst) (h : Host) : Host :=
  fold_left (fun st i => execInst i st) l h.

End BreakToHost.

(** X86_64, with the GPR slots at the start of the Context. *)
Definition X86_64_target : Target :=
  mkTarget false 1000 (fun r => 8 * r) 3840.

(** ** The registry after a deletion *)

(** [memCBInfos] after the scan of [deleteInstrumentation] for [id]: the
    first entry with the id is gone, or the vector is as it was. *)
Definition erased {A : Type} (id : N) (l : list (N * A)) : list (N * A) :=
  match erase_first id l with
  | Some l' => l'
  | None => l
  end.

(** Whether that scan finds an entry with the id. *)
Definition found {A : Type} (id : N) (l : list (N * A)) : bool :=
  match erase_first id l with
  | Some _ => true
  | None => false
  end.

(** ** Copying a VM *)

(** [VM::VM(const VM &vm)], the copy constructor.  [engine'] is the copy
    of [vm]'s engine ([Engine]'s copy is not among the sources); the memory
    registry is copied, and each record of a C rule callback is registered
    again through [addInstrRuleRange], after its id has been deleted from
    the copied engine.  A range built from the bounds of a range is taken
    to be that range. *)
Definition VM_copy {P : Platform} (engine' : Engine) (vm : VM) : VM :=
  fold_left
    (fun s p =>
       let (_, e) := Engine_deleteInstrumentation (fst p) (engine s) in
       snd (addInstrRuleRangeC
              (Range.start (ic_range (snd p))) (Range.end_ (ic_range (snd p)))
              (ic_cbk (snd p)) (ic_type (snd p)) (ic_data (snd p))
              (with_engine e s)))
    (instrCBInfos vm)
    (mkVM engine' (memoryLoggingLevel vm) (memCBInfos vm) (memCBID vm)
       (memReadGateCBID vm) (memWriteGateCBID vm) []).

(** [VM::operator=(const VM &vm)].  [engine'] is the engine after
    [*engine = *vm.engine].  The fields are assigned, [instrCBInfos] is
    replaced by a new, empty vector, and the records of [vm.instrCBInfos]
    are registered again as in the copy constructor.  When [vm] is the VM
    assigned to ([same]), [vm.instrCBInfos] is that new vector: the loop
    finds no record. *)
Definition VM_assign {P : Platform} (same : bool) (engine' : Engine) (vm : VM) : VM :=
  if same then
    mkVM engine' (memoryLoggingLevel vm) (memCBInfos vm) (memCBID vm)
      (memReadGateCBID vm) (memWriteGateCBID vm) []
  else VM_copy engine' vm.

(** The rule that [addInstrRuleRange] registers for a record: the gate
    [InstrCBGateC] with the record as its data, on the range of the
    record. *)
Definition recordRule (x : N * InstrCBInfo) : N * InstrRule :=
  (fst x,
   InstrRuleUser InstrCBGateCFn (ic_type (snd x)) (InstrCBInfoPtr (snd x))
     (RangeSet.add (ic_range (snd x)) RangeSet.empty)).

(** ** The lifetime of an id *)

(** How many entries of a table carry an id. *)
Definition occurrences {A : Type} (id : N) (l : list (N * A)) : nat :=
  List.length (filter (fun x => fst x =? id) l).

(** How many instrumentations [deleteInstrumentation(id)] can find: with
    bit 31 set it scans [memCBInfos] for the id without the bit, with the
    bit clear the engine looks the id up among its rules and its VM-event
    callbacks. *)
Definition registrations (id : N) (s : VM) : nat :=
  if N.testbit id 31 then
    occurrences (N.ldiff id EVENTID_VIRTCB_MASK) (memCBInfos s)
  else
    (occurrences id (instrRules (engine s))
     + occurrences id (vmCallbacks (engine s)))%nat.

(** The id lies below the counter it is drawn from: [memCBID] with bit 31
    set, the counter of the engine with the bit clear. *)
Definition handed_out (id : N) (s : VM) : Prop :=
  if N.testbit id 31 then N.ldiff id EVENTID_VIRTCB_MASK < memCBID s
  else id < eventIdCounter (engine s).

(** An operation that neither reaches below the counters nor lowers
    them: an id handed out before is still handed out, and is found as
    often as before. *)
Definition steady (id : N) (s s' : VM) : Prop :=
  handed_out id s ->
  handed_out id s' /\ registrations id s' = registrations id s.

(** ** The memory gates, with callbacks that reach the VM *)

(** In [VM.cpp] a gate hands [vm] to every callback it forwards to, walks
    the vector behind its [data] pointer, and reads the size of the vector
    and the entry [i] again on every turn of its loop.  Here a callback is a
    function of the VM as well: it may call [deleteInstrumentation] or
    [addMemRangeCB] while the gate runs.  [data] points to the [memCBInfos]
    of the VM whose [addMemRangeCB] created the gate; in a copy of that VM
    (whose engine holds the same rule, with the same pointer) this is the
    vector of the original, not of the copy. *)
Module Live.

(** Which vector [data] points to: the one of [vm], or the one of the VM
    that [vm] was copied from. *)
Inductive GateData := OwnRegistry | OtherRegistry.

(** What a gate run can reach: the VM it is given, and the vector of the
    other VM. *)
Record Heap := mkHeap {
  this_vm : VM;
  other_registry : list (N * MemCBInfo)
}.

(** [*memCBInfos] in a gate. *)
Definition registry (data : GateData) (h : Heap) : list (N * MemCBInfo) :=
  match data with
  | OwnRegistry => memCBInfos (this_vm h)
  | OtherRegistry => other_registry h
  end.

(** User code: the function behind a callback pointer, which is given the
    VM and its [data] and may change what it reaches. *)
Class UserCode := mkUserCode {
  World : Type;
  invoke : InstCallbackFn -> DataPtr -> Heap -> World -> VMAction * Heap * World
}.

(** The outcome of a gate: the action, what the callbacks left, and the
    calls made in order. *)
Record Outcome {U : UserCode} := mkOutcome {
  action : VMAction;
  heap : Heap;
  world : World;
  calls : list GateCall
}.

Arguments mkOutcome {U} action heap world calls.

Section Gates.

Context {P : Platform} {U : UserCode}.

(** The loop [for (size_t i = 0; i < memCBInfos->size(); i++)] of the two
    gates; [None] when the fuel runs out (callbacks that keep adding entries
    keep the loop running). *)
Fixpoint gateLoop (fuel : nat) (fires : MemCBInfo -> bool) (data : GateData)
    (i : nat) (h : Heap) (w : World) (act : VMAction) (log : list GateCall)
    : option Outcome :=
  match fuel with
  | O => None
  | S fuel' =>
      match nth_error (registry data h) i with
      | None => Some (mkOutcome act h w log)
      | Some x =>
          if fires (snd x) then
            let '(ret, h', w') := invoke (mc_cbk (snd x)) (mc_data (snd x)) h w in
            gateLoop fuel' fires data (S i) h' w'
              (if VMAction_gt ret act then ret else act)
              (log ++ [mkGateCall i (fst x) ret])
          else gateLoop fuel' fires data (S i) h w act log
      end
  end.

Definition memReadGate (fuel : nat) (data : GateData) (h : Heap) (w : World)
    : option Outcome :=
  let memAccesses := getInstMemoryAccess (this_vm h) in
  let readRange := accessRanges MEMORY_READ memAccesses in
  gateLoop fuel (readGateFires readRange) data O h w CONTINUE [].

Definition memWriteGate (fuel : nat) (data : GateData) (h : Heap) (w : World)
    : option Outcome :=
  let memAccesses := getInstMemoryAccess (this_vm h) in
  let readRange := accessRanges MEMORY_READ memAccesses in
  let writeRange := accessRanges MEMORY_WRITE memAccesses in
  gateLoop fuel (writeGateFires readRange writeRange) data O h w CONTINUE [].

(** A callback that leaves the vector of the VM as it is. *)
Definition keeps_registry (f : InstCallbackFn) (d : DataPtr) : Prop :=
  forall h w, memCBInfos (this_vm (snd (fst (invoke f d h w)))) = memCBInfos (this_vm h).

End Gates.

End Live.

(** User code that does not use the VM it is given, as user code that
    could. *)
Definition quietUser (U : UserCode) : Live.UserCode :=
  Live.mkUserCode (World (UserCode := U))
    (fun f d h w => let (ret, w') := invoke (UserCode := U) f d w in (ret, h, w')).

(** A user whose callback 7 calls [vm->deleteInstrumentation(0x80000000)]
    and whose other callbacks leave the VM alone; all return [CONTINUE],
    and the world counts the calls. *)
Definition erasingUser : Live.UserCode :=
  Live.mkUserCode N
    (fun f _ h w =>
       match f with
       | UserInstCB 7 =>
           (CONTINUE,
            Live.mkHeap (snd (deleteInstrumentation 2147483648 (Live.this_vm h)))
              (Live.other_registry h),
            w + 1)
       | _ => (CONTINUE, h, w + 1)
       end).

(** [demoVM] with two callbacks on reads of [[4096, 8192)]: callback 7
    (id [0x80000000]), then callback 1 (id [0x80000001]). *)
Definition twoReadersVM : VM :=
  snd (addMemRangeCB (P := X86_64) 4096 8192 MEMORY_READ (Some (UserInstCB 1))
         (UserData 0)
         (snd (addMemRangeCB (P := X86_64) 4096 8192 MEMORY_READ
                 (Some (UserInstCB 7)) (UserData 0) demoVM))).

(** A VM with a read callback, and a copy of it on which a second read
    callback is registered: the gate of the copy is the rule copied with
    the engine, and its [data] is the vector of the original. *)
Definition originalVM : VM :=
  snd (addMemRangeCB (P := X86_64) 4096 8192 MEMORY_READ (Some (UserInstCB 2))
         (UserData 0) demoVM).

Definition copiedVM : VM :=
  snd (addMemRangeCB (P := X86_64) 4096 8192 MEMORY_READ (Some (UserInstCB 1))
         (UserData 0) (VM_copy (P := X86_64) (engine originalVM) originalVM)).

(** ** Process memory maps: [Utility/Memory_linux.cpp] *)

(** Modelled from the spec: a map is [{range, permission, name}], the
    permission a set of the flags R, W, X ([MemoryMap] and [Permission] of
    [QBDI/Memory.h], which is not among the sources); [PF_NONE] is the
    empty set, [|=] puts a flag in. *)
Record Permission := mkPermission { PF_READ : bool; PF_WRITE : bool; PF_EXEC : bool }.

Definition PF_NONE : Permission := mkPermission false false false.

Definition or_PF_READ (p : Permission) : Permission :=
  mkPermission true (PF_WRITE p) (PF_EXEC p).
Definition or_PF_WRITE (p : Permission) : Permission :=
  mkPermission (PF_READ p) true (PF_EXEC p).
Definition or_PF_EXEC (p : Permission) : Permission :=
  mkPermission (PF_READ p) (PF_WRITE p) true.

Record MemoryMap := mkMemoryMap {
  range : Range.t;
  permission : Permission;
  name : list ascii
}.

(** *** The C library on a buffer of [char]

    A [char *] into the line buffer is the list of the bytes from the
    pointer to the end of the buffer, terminators and what lies behind them
    included.  A read or a step past the end of the buffer has no defined
    result: [None]. *)

Notation "'let*' x ':=' e 'in' k" :=
  (match e with Some x => k | None => None end)
  (at level 10, x pattern, e at level 100, k at level 200, only parsing).

Definition NUL : ascii := "000"%char.

(** [*ptr] and [ptr++]. *)
Definition deref (ptr : list ascii) : option ascii := hd_error ptr.

Definition incr (ptr : list ascii) : option (list ascii) :=
  match ptr with
  | [] => None
  | _ :: r => Some r
  end.

(** [isspace] in the C locale: space, and [\t \n \v \f \r]. *)
Definition isspace (c : ascii) : bool :=
  (N_of_ascii c =? 32) || ((9 <=? N_of_ascii c) && (N_of_ascii c <=? 13)).

(** [while (isspace( *ptr)) ptr++;] *)
Fixpoint skip_spaces (ptr : list ascii) : option (list ascii) :=
  match ptr with
  | [] => None
  | c :: r => if isspace c then skip_spaces r else Some ptr
  end.

(** The value of a character as a digit, letters of either case counting
    from 10; [digit_in base] keeps the digits of the base. *)
Definition digit_value (c : ascii) : option N :=
  let n := N_of_ascii c in
  if (48 <=? n) && (n <=? 57) then Some (n - 48)
  else if (97 <=? n) && (n <=? 122) then Some (n - 97 + 10)
  else if (65 <=? n) && (n <=? 90) then Some (n - 65 + 10)
  else None.

Definition digit_in (base : N) (c : ascii) : option N :=
  match digit_value c with
  | Some d => if d <? base then Some d else None
  | None => None
  end.

Fixpoint read_digits (base : N) (ptr : list ascii) (acc : N)
    : option (N * list ascii) :=
  match ptr with
  | [] => None
  | c :: r =>
      match digit_in base c with
      | Some d => read_digits base r (acc * base + d)
      | None => Some (acc, ptr)
      end
  end.

(** The optional sign of [strtoul]. *)
Definition read_sign (ptr : list ascii) : bool * list ascii :=
  match ptr with
  | c :: r =>
      if (c =? "-")%char then (true, r)
      else if (c =? "+")%char then (false, r)
      else (false, ptr)
  | [] => (false, ptr)
  end.

(** The optional [0x] / [0X] of base 16, taken only in front of a digit. *)
Definition read_prefix (base : N) (ptr : list ascii) : option (list ascii) :=
  if base =? 16 then
    match ptr with
    | z :: x :: r =>
        if (z =? "0")%char && ((x =? "x")%char || (x =? "X")%char) then
          match r with
          | [] => None
          | d :: _ => match digit_in base d with
                      | Some _ => Some r
                      | None => Some ptr
                      end
          end
        else Some ptr
    | _ => Some ptr
    end
  else Some ptr.

Section ProcessMaps.

Context {P : Platform}.

(** [strtoul(nptr, &endptr, base)], for [unsigned long] of the width of
    [rword] (as on Linux): white space, an optional sign, the digits; the
    value and [endptr].  Without a digit the value is 0 and [endptr] is
    [nptr]; a value that does not fit is [ULONG_MAX]; a minus sign negates
    in [unsigned long]. *)
Definition strtoul (nptr : list ascii) (base : N) : option (N * list ascii) :=
  let* s := skip_spaces nptr in
  let (neg, s1) := read_sign s in
  let* s2 := read_prefix base s1 in
  let* c := deref s2 in
  match digit_in base c with
  | None => Some (0, nptr)
  | Some _ =>
      let* (v, endptr) := read_digits base s2 0 in
      Some (if 2 ^ rword_bits <=? v then 2 ^ rword_bits - 1
            else if neg then wrap_rword (2 ^ rword_bits - v)
            else v,
            endptr)
  end.

(** [if ((ptr = strchr(line, '\n')) != nullptr) *ptr = '\0';] *)
Fixpoint remove_newline (line : list ascii) : option (list ascii) :=
  match line with
  | [] => None
  | c :: r =>
      if (c =? NUL)%char then Some line
      else if (c =? "010")%char then Some (NUL :: r)
      else let* r' := remove_newline r in Some (c :: r')
  end.

(** The C string at [ptr], as [std::string]'s assignment reads it. *)
Fixpoint c_str (ptr : list ascii) : option (list ascii) :=
  match ptr with
  | [] => None
  | c :: r =>
      if (c =? NUL)%char then Some []
      else let* s := c_str r in Some (c :: s)
  end.

(** [strrchr(ptr, c)]: the pointer to the last [c] of the string at [ptr];
    the inner [None] is the null pointer. *)
Fixpoint strrchr (ptr : list ascii) (c : ascii) : option (option (list ascii)) :=
  match ptr with
  | [] => None
  | a :: r =>
      if (a =? NUL)%char then Some None
      else
        let* last := strrchr r c in
        match last with
        | Some q => Some (Some q)
        | None => if (a =? c)%char then Some (Some ptr) else Some None
        end
  end.

(** *** The body of the loop of [getRemoteProcessMaps]: one line of
    [/proc/<pid>/maps], as [fgets] left it in the buffer [line]. *)
Definition parseLine (full_path : bool) (line : list ascii)
    : option (MemoryMap * list ascii) :=
  (* Remove \n *)
  let* line := remove_newline line in
  let ptr := line in
  (* Read range *)
  let* (start, ptr) := strtoul ptr 16 in
  let* ptr := incr ptr in
  let* (end_, ptr) := strtoul ptr 16 in
  (* skip the spaces *)
  let* ptr := skip_spaces ptr in
  (* Read the permission *)
  let permission := PF_NONE in
  let* c := deref ptr in
  let permission := if (c =? "r")%char then or_PF_READ permission else permission in
  let* ptr := incr ptr in
  let* c := deref ptr in
  let permission := if (c =? "w")%char then or_PF_WRITE permission else permission in
  let* ptr := incr ptr in
  let* c := deref ptr in
  let permission := if (c =? "x")%char then or_PF_EXEC permission else permission in
  let* ptr := incr ptr in
  let* ptr := incr ptr in
  (* skip the spaces *)
  let* ptr := skip_spaces ptr in
  (* Discard the file offset *)
  let* (_, ptr) := strtoul ptr 16 in
  let* ptr := skip_spaces ptr in
  (* Discard the device id *)
  let* (_, ptr) := strtoul ptr 16 in
  let* ptr := incr ptr in
  let* (_, ptr) := strtoul ptr 16 in
  let* ptr := skip_spaces ptr in
  (* Discard the inode *)
  let* (_, ptr) := strtoul ptr 10 in
  let* ptr := skip_spaces ptr in
  (* Get the file name *)
  let* name :=
    (if full_path then c_str ptr
     else
       let* last := strrchr ptr "/" in
       match last with
       | Some q => let* q1 := incr q in c_str q1
       | None => Some []
       end) in
  Some (mkMemoryMap (Range.mk start end_) permission name, line).

(** [fgets(line, size, stream)] reads at most [size - 1] characters, the
    first newline included, and puts them and a terminator at the front of
    the buffer; [None] is the null pointer of the end of the file. *)
Fixpoint read_line (n : nat) (stream : list ascii) : list ascii * list ascii :=
  match n, stream with
  | S n', c :: r =>
      if (c =? "010")%char then ([c], r)
      else let (l, rest) := read_line n' r in (c :: l, rest)
  | _, _ => ([], stream)
  end.

Definition fgets (line : list ascii) (size : nat) (stream : list ascii)
    : option (list ascii * list ascii) :=
  match stream with
  | [] => None
  | _ =>
      let (l, rest) := read_line (size - 1) stream in
      Some (l ++ NUL :: skipn (List.length l + 1) line, rest)
  end.

Definition BUFFER_SIZE : nat := 256.

(** The [while (fgets(...) != nullptr)] loop; every turn reads at least
    one character of [mapfile]. *)
Fixpoint mapsLoop (fuel : nat) (full_path : bool) (line mapfile : list ascii)
    (maps : list MemoryMap) : option (list MemoryMap) :=
  match fgets line BUFFER_SIZE mapfile with
  | None => Some maps
  | Some (line1, mapfile1) =>
      match fuel with
      | O => None
      | S fuel' =>
          let* (m, line2) := parseLine full_path line1 in
          mapsLoop fuel' full_path line2 mapfile1 (maps ++ [m])
      end
  end.

(** ["/proc/%llu/maps"] for [pid]. *)
Definition procMapsPath (pid : N) : list ascii :=
  list_ascii_of_string "/proc/"
  ++ list_ascii_of_string (NilEmpty.string_of_uint (N.to_uint pid))
  ++ list_ascii_of_string "/maps".

(** [char line[BUFFER_SIZE] = {0}] after [snprintf(line, BUFFER_SIZE, ...)]. *)
Definition pathBuffer (pid : N) : list ascii :=
  firstn (BUFFER_SIZE - 1) (procMapsPath pid)
  ++ repeat NUL (BUFFER_SIZE - List.length (firstn (BUFFER_SIZE - 1) (procMapsPath pid))).

(** [getRemoteProcessMaps]; [fopen] gives the content of the file of a
    path, or [None] when it cannot be opened. *)
Definition getRemoteProcessMaps (fopen : list ascii -> option (list ascii))
    (pid : N) (full_path : bool) : option (list MemoryMap) :=
  let line := pathBuffer pid in
  let* path := c_str line in
  match fopen path with
  | None => Some []
  | Some mapfile => mapsLoop (List.length mapfile) full_path line mapfile []
  end.

Definition getCurrentProcessMaps (fopen : list ascii -> option (list ascii))
    (getpid : N) (full_path : bool) : option (list MemoryMap) :=
  getRemoteProcessMaps fopen getpid full_path.

End ProcessMaps.

(** *** The text of a line *)

(** The character of a digit, in lower case as the kernel prints it, and
    the number a list of digits writes in a base. *)
Definition digit_char (d : N) : ascii :=
  ascii_of_N (if d <? 10 then 48 + d else 87 + d).

Definition digits_text (ds : list N) : list ascii := map digit_char ds.

Definition digits_value (base : N) (ds : list N) : N :=
  fold_left (fun acc d => acc * base + d) ds 0.

(** A line of [/proc/<pid>/maps],
    [start-end rwxp offset major:minor inode   path], its numbers given by
    their digits. *)
Definition mapsLine (start end_ : list N) (r w x p : ascii)
    (offset major minor inode : list N) (pad path : list ascii) : list ascii :=
  digits_text start ++ "-"%char :: digits_text end_
  ++ " "%char :: r :: w :: x :: p
  :: " "%char :: digits_text offset
  ++ " "%char :: digits_text major ++ ":"%char :: digits_text minor
  ++ " "%char :: digits_text inode ++ pad ++ path.

(** The part of a path behind its last [/]; empty for a path without. *)
Fixpoint baseName (path : list ascii) : list ascii :=
  match path with
  | [] => []
  | c :: r =>
      if existsb (Ascii.eqb "/"%char) r then baseName r
      else if (c =? "/")%char then r
      else []
  end.

(** A character that is neither the terminator nor a newline. *)
Definition plain (c : ascii) : bool :=
  negb (c =? NUL)%char && negb (c =? "010")%char.

(** At least one digit, and digits of the base only. *)
Definition number (base : N) (ds : list N) : bool :=
  negb (Nat.eqb (List.length ds) 0) && forallb (fun d => d <? base) ds.

(** When the text is that of a line the kernel prints: the numbers are
    numbers of their base, the two addresses fit [rword], the first flag
    is no space, the flags and the path hold no terminator and no newline,
    the padding is spaces, and a path comes after padding and starts with
    no space. *)
Definition mapsLine_ok {P : Platform} (start end_ : list N) (r w x p : ascii)
    (offset major minor inode : list N) (pad path : list ascii) : bool :=
  number 16 start && number 16 end_ && number 16 offset
  && number 16 major && number 16 minor && number 10 inode
  && (digits_value 16 start <? 2 ^ rword_bits)
  && (digits_value 16 end_ <? 2 ^ rword_bits)
  && negb (isspace r) && forallb plain [r; w; x; p]
  && forallb (Ascii.eqb " "%char) pad && forallb plain path
  && match path with
     | [] => true
     | c :: _ => negb (isspace c) && negb (Nat.eqb (List.length pad) 0)
     end.

(** A line by its fields, the text of the line, the map the line
    describes, and a file made of such lines, each ended by a newline. *)
Record MapsEntry := mkMapsEntry {
  me_start : list N;
  me_end : list N;
  me_r : ascii;
  me_w : ascii;
  me_x : ascii;
  me_p : ascii;
  me_offset : list N;
  me_major : list N;
  me_minor : list N;
  me_inode : list N;
  me_pad : list ascii;
  me_path : list ascii
}.

Definition with_path (path : list ascii) (e : MapsEntry) : MapsEntry :=
  mkMapsEntry (me_start e) (me_end e) (me_r e) (me_w e) (me_x e) (me_p e)
    (me_offset e) (me_major e) (me_minor e) (me_inode e) (me_pad e) path.

Definition entryLine (e : MapsEntry) : list ascii :=
  mapsLine (me_start e) (me_end e) (me_r e) (me_w e) (me_x e) (me_p e)
    (me_offset e) (me_major e) (me_minor e) (me_inode e) (me_pad e) (me_path e).

Definition entryMap (full_path : bool) (e : MapsEntry) : MemoryMap :=
  mkMemoryMap
    (Range.mk (digits_value 16 (me_start e)) (digits_value 16 (me_end e)))
    (mkPermission (me_r e =? "r")%char (me_w e =? "w")%char (me_x e =? "x")%char)
    (if full_path then me_path e else baseName (me_path e)).

Definition entry_ok {P : Platform} (e : MapsEntry) : bool :=
  mapsLine_ok (me_start e) (me_end e) (me_r e) (me_w e) (me_x e) (me_p e)
    (me_offset e) (me_major e) (me_minor e) (me_inode e) (me_pad e) (me_path e).

Definition mapsFile (entries : list MapsEntry) : list ascii :=
  List.concat (map (fun e => entryLine e ++ ["010"%char]) entries).

(** The line of the comment in [getRemoteProcessMaps], a line of the heap,
    and a line whose path is longer than what is left of the buffer. *)
Definition vimEntry : MapsEntry :=
  mkMapsEntry [0; 0; 4; 0; 0; 0; 0; 0] [0; 0; 6; 3; 12; 0; 0; 0]
    "r" "-" "x" "p" [0; 0; 0; 0; 0; 0; 0; 0] [15; 14] [0; 1]
    [6; 7; 5; 6; 2; 8] (list_ascii_of_string "    ")
    (list_ascii_of_string "/usr/bin/vim").

Definition heapEntry : MapsEntry :=
  mkMapsEntry [0; 0; 6; 3; 12; 0; 0; 0] [0; 0; 6; 5; 4; 0; 0; 0]
    "r" "w" "-" "p" [0; 0; 0; 0; 0; 0; 0; 0] [0; 0] [0; 0]
    [0] (list_ascii_of_string "    ")
    (list_ascii_of_string "[heap]").

Definition longDir : list ascii := "/"%char :: repeat "d"%char 206.

Definition longEntry : MapsEntry :=
  with_path (longDir ++ list_ascii_of_string "/libdemo.so") vimEntry.

(** ** Process memory maps: [Utility/Memory_windows.cpp] *)

Definition PROT_ISREAD (PROT : N) : N := N.land PROT 0xEE.
Definition PROT_ISWRITE (PROT : N) : N := N.land PROT 0xCC.
Definition PROT_ISEXEC (PROT : N) : N := N.land PROT 0xF0.

(** The permission [getRemoteProcessMaps] gives a committed region, from
    [info.Protect]. *)
Definition protectPermission (Protect : N) : Permission :=
  let permission := PF_NONE in
  let permission :=
    if negb (PROT_ISREAD Protect =? 0) then or_PF_READ permission else permission in
  let permission :=
    if negb (PROT_ISWRITE Protect =? 0) then or_PF_WRITE permission else permission in
  let permission :=
    if negb (PROT_ISEXEC Protect =? 0) then or_PF_EXEC permission else permission in
  permission.

(** ** Proof steps *)

(** Projections of updated records. *)
Ltac proj_simpl :=
  cbn [engine memoryLoggingLevel memCBInfos memCBID memReadGateCBID
       memWriteGateCBID instrCBInfos with_engine with_memoryLoggingLevel
       with_memCBInfos with_memCBID with_memReadGateCBID with_memWriteGateCBID
       with_instrCBInfos instrRules vmCallbacks eventIdCounter getCurExecBlock
       isPreInst Engine_with_rules Engine_with_vmCallbacks Engine_with_counter
       fst snd] in *.

(** The state after the first [if] of [recordMemoryAccess]. *)
Ltac name_read_logging s1 :=
  cbv zeta;
  match goal with
  | |- context [if ?c then addInstrRules InstrRuleMemAccessRead ?a else ?s] =>
      set (s1 := if c then addInstrRules InstrRuleMemAccessRead a else s)
  end.

(** ** Facts on machine words and id lists *)

Lemma mask_value : EVENTID_VIRTCB_MASK = 2 ^ 31.
Proof. reflexivity. Qed.

Lemma testbit_below (a n : N) : a < 2 ^ n -> N.testbit a n = false.
Proof.
  intros H. rewrite N.testbit_eqb, N.div_small by exact H. reflexivity.
Qed.

Lemma land_mask_below (id : N) :
  id < EVENTID_VIRTCB_MASK -> N.land id EVENTID_VIRTCB_MASK = 0.
Proof.
  intros H. rewrite mask_value in *. apply N.bits_inj. intros n.
  rewrite N.land_spec, N.pow2_bits_eqb, N.bits_0.
  destruct (N.eqb_spec 31 n) as [<-|_].
  - rewrite testbit_below by exact H. reflexivity.
  - apply andb_false_r.
Qed.

Lemma land_mask_testbit (id : N) :
  (N.land id EVENTID_VIRTCB_MASK =? 0) = negb (N.testbit id 31).
Proof.
  rewrite mask_value.
  destruct (N.testbit id 31) eqn:E; cbn [negb].
  - apply N.eqb_neq. intros H.
    assert (T : N.testbit (N.land id (2 ^ 31)) 31 = false) by (rewrite H; apply N.bits_0).
    rewrite N.land_spec, E, N.pow2_bits_true in T. discriminate.
  - apply N.eqb_eq. apply N.bits_inj. intros n.
    rewrite N.land_spec, N.pow2_bits_eqb, N.bits_0.
    destruct (N.eqb_spec 31 n) as [<-|_].
    + rewrite E. reflexivity.
    + apply andb_false_r.
Qed.

Lemma lor_mask_testbit (id : N) : N.testbit (N.lor id EVENTID_VIRTCB_MASK) 31 = true.
Proof.
  rewrite mask_value, N.lor_spec, N.pow2_bits_true. apply orb_true_r.
Qed.

Lemma ldiff_lor_mask (id : N) :
  id < EVENTID_VIRTCB_MASK ->
  N.ldiff (N.lor id EVENTID_VIRTCB_MASK) EVENTID_VIRTCB_MASK = id.
Proof.
  intros H. rewrite mask_value in *. apply N.bits_inj. intros n.
  rewrite N.ldiff_spec, N.lor_spec, N.pow2_bits_eqb.
  destruct (N.eqb_spec 31 n) as [<-|_].
  - rewrite testbit_below by exact H. reflexivity.
  - rewrite orb_false_r. apply andb_true_r.
Qed.

Section IdListFacts.
Context {A : Type}.
Implicit Types (l : list (N * A)) (id : N).

Lemma erase_first_None id l : erase_first id l = None <-> ~ In id (ids l).
Proof.
  induction l as [|x xs IH]; cbn.
  - tauto.
  - destruct (N.eqb_spec (fst x) id) as [E|E].
    + split; [discriminate | intros H; exfalso; apply H; now left].
    + destruct (erase_first id xs).
      * split; [discriminate | ].
        intros H. assert (F : Some l = None); [ | discriminate ].
        apply IH. intros F. apply H. now right.
      * split; [ | reflexivity ].
        intros _ [F|F]; [contradiction | ]. now apply (proj1 IH).
Qed.

Lemma erase_first_In id l : In id (ids l) -> exists l', erase_first id l = Some l'.
Proof.
  intros H. destruct (erase_first id l) eqn:E; [eauto | ].
  apply erase_first_None in E. contradiction.
Qed.

(** Erasing an id that the prefix does not use erases the appended entry. *)
Lemma erase_first_app_fresh id l (a : A) :
  ~ In id (ids l) -> erase_first id (l ++ [(id, a)]) = Some l.
Proof.
  induction l as [|x xs IH]; cbn; intros H.
  - now rewrite N.eqb_refl.
  - destruct (N.eqb_spec (fst x) id) as [E|E]; [exfalso; apply H; now left | ].
    rewrite IH; [reflexivity | intros F; apply H; now right].
Qed.

(** Erasing an id the prefix uses erases inside the prefix. *)
Lemma erase_first_app_used id l l' t :
  erase_first id l = Some l' -> erase_first id (l ++ t) = Some (l' ++ t).
Proof.
  revert l'. induction l as [|x xs IH]; cbn; intros l'.
  - discriminate.
  - destruct (fst x =? id); [intros [= <-]; reflexivity | ].
    destruct (erase_first id xs) as [r|] eqn:F; [ | discriminate ].
    intros [= <-]. now rewrite (IH r).
Qed.

Lemma erase_first_ids_incl id l l' :
  erase_first id l = Some l' -> incl (ids l') (ids l).
Proof.
  revert l'. induction l as [|x xs IH]; cbn; intros l'.
  - discriminate.
  - destruct (fst x =? id); [intros [= <-]; apply incl_tl, incl_refl | ].
    destruct (erase_first id xs) as [r|] eqn:F; [ | discriminate ].
    intros [= <-]. cbn. apply incl_cons; [now left | ].
    apply incl_tl. now apply IH.
Qed.

Lemma remove_id_fresh id l : ~ In id (ids l) -> remove_id id l = l.
Proof.
  unfold remove_id.
  induction l as [|x xs IH]; cbn; intros H; [reflexivity | ].
  destruct (N.eqb_spec (fst x) id) as [E|E]; cbn.
  - exfalso. apply H. now left.
  - rewrite IH; [reflexivity | intros F; apply H; now right].
Qed.

Lemma remove_id_idem id l : remove_id id (remove_id id l) = remove_id id l.
Proof.
  unfold remove_id.
  induction l as [|x xs IH]; cbn; [reflexivity | ].
  destruct (fst x =? id) eqn:E; cbn; [exact IH | ].
  rewrite E. cbn. now rewrite IH.
Qed.

Lemma ids_app l t : ids (l ++ t) = ids l ++ ids t.
Proof. apply map_app. Qed.

Lemma below_not_in (c : N) l : Forall (fun id => id < c) (ids l) -> ~ In c (ids l).
Proof.
  intros H F. rewrite Forall_forall in H. specialize (H _ F). lia.
Qed.

End IdListFacts.

(** ** Facts on the registry operations *)

Lemma with_engine_id (s : VM) : with_engine (engine s) s = s.
Proof. now destruct s. Qed.

Lemma with_instrCBInfos_id (s : VM) : with_instrCBInfos (instrCBInfos s) s = s.
Proof. now destruct s. Qed.

Section RegistryFacts.

Context {P : Platform}.

Lemma same_mem_registry_refl s : same_mem_registry s s.
Proof. repeat split. Qed.

Lemma same_mem_registry_trans s1 s2 s3 :
  same_mem_registry s1 s2 -> same_mem_registry s2 s3 -> same_mem_registry s1 s3.
Proof.
  unfold same_mem_registry. intros (A1 & A2 & A3 & A4 & A5) (B1 & B2 & B3 & B4 & B5).
  repeat split; congruence.
Qed.

(** What one engine registration does to a VM. *)
Lemma engine_addInstrRule_cases rule s :
  (eventIdCounter (engine s) < EVENTID_VIRTCB_MASK
   /\ engine_addInstrRule rule s =
        (eventIdCounter (engine s),
         with_engine
           (Engine_with_counter (eventIdCounter (engine s) + 1)
              (Engine_with_rules
                 (instrRules (engine s) ++ [(eventIdCounter (engine s), rule)])
                 (engine s))) s))
  \/ (EVENTID_VIRTCB_MASK <= eventIdCounter (engine s)
      /\ engine_addInstrRule rule s = (INVALID_EVENTID, s)).
Proof.
  unfold engine_addInstrRule, Engine_addInstrRule.
  destruct (N.ltb_spec (eventIdCounter (engine s)) EVENTID_VIRTCB_MASK) as [H|H].
  - left. split; [exact H | reflexivity].
  - right. split; [exact H | now rewrite with_engine_id].
Qed.

Lemma engine_addInstrRule_frame rule s :
  same_mem_registry s (snd (engine_addInstrRule rule s)).
Proof.
  destruct (engine_addInstrRule_cases rule s) as [[_ ->]|[_ ->]];
    repeat split.
Qed.

Lemma engine_addInstrRule_wf rule s :
  registry_wf s -> registry_wf (snd (engine_addInstrRule rule s)).
Proof.
  intros (Hm & Hr & Hv).
  destruct (engine_addInstrRule_cases rule s) as [[Hlt ->]|[_ ->]];
    [ | now repeat split ].
  repeat split; proj_simpl.
  - exact Hm.
  - rewrite ids_app, Forall_app. split.
    + eapply Forall_impl; [ | exact Hr]. cbn beta. intros; lia.
    + repeat constructor. cbn [fst]. lia.
  - eapply Forall_impl; [ | exact Hv]. cbn beta. intros; lia.
Qed.

Lemma addInstrRules_frame rules s : same_mem_registry s (addInstrRules rules s).
Proof.
  unfold addInstrRules. revert s.
  induction rules as [|r rs IH]; intros s; cbn.
  - apply same_mem_registry_refl.
  - eapply same_mem_registry_trans; [apply (engine_addInstrRule_frame r) | apply IH].
Qed.

Lemma addInstrRules_wf rules s : registry_wf s -> registry_wf (addInstrRules rules s).
Proof.
  unfold addInstrRules. revert s.
  induction rules as [|r rs IH]; intros s H; cbn; [exact H | ].
  apply IH. now apply engine_addInstrRule_wf.
Qed.

Lemma with_memoryLoggingLevel_frame l s :
  same_mem_registry s (with_memoryLoggingLevel l s).
Proof. repeat split. Qed.

Lemma with_memoryLoggingLevel_wf l s :
  registry_wf s -> registry_wf (with_memoryLoggingLevel l s).
Proof. intros H. exact H. Qed.

Lemma recordMemoryAccess_frame type s :
  same_mem_registry s (snd (recordMemoryAccess type s)).
Proof.
  unfold recordMemoryAccess.
  destruct memAccessSupported; cbn [negb snd]; [ | apply same_mem_registry_refl].
  name_read_logging s1.
  assert (H1 : same_mem_registry s s1).
  { subst s1. destruct (_ && _).
    - eapply same_mem_registry_trans;
        [apply with_memoryLoggingLevel_frame | apply addInstrRules_frame].
    - apply same_mem_registry_refl. }
  clearbody s1. destruct (_ && _); [ | exact H1].
  eapply same_mem_registry_trans; [exact H1 | ].
  eapply same_mem_registry_trans;
    [apply with_memoryLoggingLevel_frame | apply addInstrRules_frame].
Qed.

Lemma recordMemoryAccess_wf type s :
  registry_wf s -> registry_wf (snd (recordMemoryAccess type s)).
Proof.
  intros H. unfold recordMemoryAccess.
  destruct memAccessSupported; cbn [negb snd]; [ | exact H].
  name_read_logging s1.
  assert (H1 : registry_wf s1).
  { subst s1. destruct (_ && _); [ | exact H].
    apply addInstrRules_wf, with_memoryLoggingLevel_wf, H. }
  clearbody s1. destruct (_ && _); [ | exact H1].
  apply addInstrRules_wf, with_memoryLoggingLevel_wf, H1.
Qed.

Lemma engine_addInstrRule_counter rule s :
  eventIdCounter (engine s) <= eventIdCounter (engine (snd (engine_addInstrRule rule s))).
Proof.
  destruct (engine_addInstrRule_cases rule s) as [[_ ->]|[_ ->]]; proj_simpl; lia.
Qed.

(** A registration after which the engine still has ids left was given one. *)
Lemma engine_addInstrRule_given rule s :
  eventIdCounter (engine (snd (engine_addInstrRule rule s))) < EVENTID_VIRTCB_MASK ->
  fst (engine_addInstrRule rule s) < EVENTID_VIRTCB_MASK.
Proof.
  destruct (engine_addInstrRule_cases rule s) as [[H ->]|[H ->]]; proj_simpl; lia.
Qed.

Lemma addInstrRules_counter rules s :
  eventIdCounter (engine s) <= eventIdCounter (engine (addInstrRules rules s)).
Proof.
  unfold addInstrRules. revert s.
  induction rules as [|r rs IH]; intros s; cbn [fold_left]; [lia | ].
  etransitivity; [apply (engine_addInstrRule_counter r) | apply IH].
Qed.

Lemma recordMemoryAccess_counter type s :
  eventIdCounter (engine s)
  <= eventIdCounter (engine (snd (recordMemoryAccess type s))).
Proof.
  unfold recordMemoryAccess.
  destruct memAccessSupported; cbn [negb snd]; [ | lia].
  name_read_logging s1.
  assert (H1 : eventIdCounter (engine s) <= eventIdCounter (engine s1)).
  { subst s1. destruct (_ && _); [ | lia].
    etransitivity; [ | apply addInstrRules_counter]. proj_simpl. lia. }
  clearbody s1. destruct (_ && _); [ | exact H1].
  etransitivity; [exact H1 | ].
  etransitivity; [ | apply addInstrRules_counter]. proj_simpl. lia.
Qed.

(** [addMemAccessCB] with a callback: the recording rules, then at most one
    rule for the callback. *)
Lemma addMemAccessCB_cases type f data s :
  (exists rule,
      addMemAccessCB type (Some f) data s
      = engine_addInstrRule rule (snd (recordMemoryAccess type s)))
  \/ (addMemAccessCB type (Some f) data s
       = (INVALID_EVENTID, snd (recordMemoryAccess type s))
      /\ type <> MEMORY_READ /\ type <> MEMORY_WRITE /\ type <> MEMORY_READ_WRITE).
Proof.
  unfold addMemAccessCB.
  destruct (N.eqb_spec type MEMORY_READ); [left; eauto | ].
  destruct (N.eqb_spec type MEMORY_WRITE); [left; eauto | ].
  destruct (N.eqb_spec type MEMORY_READ_WRITE); [left; eauto | ].
  right. repeat split; assumption.
Qed.

Lemma gate_step_refl s : gate_step s s.
Proof. unfold gate_step. repeat apply conj; auto. lia. Qed.

Lemma gate_step_trans s1 s2 s3 : gate_step s1 s2 -> gate_step s2 s3 -> gate_step s1 s3.
Proof.
  intros (A1 & A2 & A3 & A4 & A5) (B1 & B2 & B3 & B4 & B5).
  unfold gate_step. repeat apply conj; try congruence; [auto | lia].
Qed.

Lemma engine_addInstrRule_step rule s : gate_step s (snd (engine_addInstrRule rule s)).
Proof.
  destruct (engine_addInstrRule_frame rule s) as (A1 & A2 & _ & _ & A5).
  unfold gate_step.
  repeat apply conj; auto using engine_addInstrRule_wf, engine_addInstrRule_counter.
Qed.

Lemma recordMemoryAccess_step type s : gate_step s (snd (recordMemoryAccess type s)).
Proof.
  destruct (recordMemoryAccess_frame type s) as (A1 & A2 & _ & _ & A5).
  unfold gate_step.
  repeat apply conj; auto using recordMemoryAccess_wf, recordMemoryAccess_counter.
Qed.

Lemma addMemAccessCB_step type cbk data s :
  gate_step s (snd (addMemAccessCB type cbk data s)).
Proof.
  destruct cbk as [f|]; [ | apply gate_step_refl].
  destruct (addMemAccessCB_cases type f data s) as [[rule ->]|[-> _]].
  - eapply gate_step_trans;
      [apply recordMemoryAccess_step | apply engine_addInstrRule_step].
  - apply recordMemoryAccess_step.
Qed.

Lemma addMemAccessCB_gates type cbk data s :
  memReadGateCBID (snd (addMemAccessCB type cbk data s)) = memReadGateCBID s
  /\ memWriteGateCBID (snd (addMemAccessCB type cbk data s)) = memWriteGateCBID s.
Proof.
  destruct cbk as [f|]; [ | now split].
  assert (H : same_mem_registry s (snd (addMemAccessCB type (Some f) data s))).
  { destruct (addMemAccessCB_cases type f data s) as [[rule ->]|[-> _]].
    - eapply same_mem_registry_trans;
        [apply recordMemoryAccess_frame | apply engine_addInstrRule_frame].
    - apply recordMemoryAccess_frame. }
  destruct H as (_ & _ & H3 & H4 & _). now split.
Qed.

(** A gate registration after which the engine still has ids left
    returned an engine id. *)
Lemma addMemAccessCB_given type f data s :
  type = MEMORY_READ \/ type = MEMORY_WRITE \/ type = MEMORY_READ_WRITE ->
  eventIdCounter (engine (snd (addMemAccessCB type (Some f) data s)))
    < EVENTID_VIRTCB_MASK ->
  fst (addMemAccessCB type (Some f) data s) < EVENTID_VIRTCB_MASK.
Proof.
  intros Ht.
  destruct (addMemAccessCB_cases type f data s) as [[rule ->]|[_ (H1 & H2 & H3)]].
  - apply engine_addInstrRule_given.
  - exfalso. destruct Ht as [?|[?|?]]; contradiction.
Qed.

Lemma createReadGate_step type s : gate_step s (createReadGate type s).
Proof.
  unfold createReadGate. destruct (_ && _); [ | apply gate_step_refl].
  pose proof (addMemAccessCB_step MEMORY_READ (Some memReadGateFn) MemCBInfosPtr s) as H.
  destruct (addMemAccessCB _ _ _ s) as [g s']. exact H.
Qed.

Lemma createWriteGate_step type s : gate_step s (createWriteGate type s).
Proof.
  unfold createWriteGate. destruct (_ && _); [ | apply gate_step_refl].
  pose proof (addMemAccessCB_step MEMORY_READ_WRITE (Some memWriteGateFn)
                MemCBInfosPtr s) as H.
  destruct (addMemAccessCB _ _ _ s) as [g s']. exact H.
Qed.

(** [addMemRangeCB] on arguments that pass its three checks. *)
Lemma addMemRangeCB_valid start end_ type f data s :
  start < end_ -> N.land type MEMORY_READ_WRITE <> 0 ->
  addMemRangeCB start end_ type (Some f) data s =
    let s2 := createWriteGate type (createReadGate type s) in
    let s3 := with_memCBID (wrap32 (memCBID s + 1)) s2 in
    if memCBID s <? EVENTID_VIRTCB_MASK then
      (N.lor (memCBID s) EVENTID_VIRTCB_MASK,
       with_memCBInfos
         (memCBInfos s ++ [(memCBID s, mkMemCBInfo type (Range.mk start end_) f data)])
         s3)
    else (INVALID_EVENTID, s3).
Proof.
  intros Hlt Hty. unfold addMemRangeCB.
  rewrite (proj2 (N.ltb_lt start end_) Hlt), (proj2 (N.eqb_neq _ _) Hty).
  cbn [negb]. fold (createReadGate type s).
  fold (createWriteGate type (createReadGate type s)).
  destruct (gate_step_trans _ _ _ (createReadGate_step type s)
              (createWriteGate_step type (createReadGate type s)))
    as (E1 & E2 & _).
  cbv zeta. rewrite E2. proj_simpl. rewrite E1.
  destruct (memCBID s <? EVENTID_VIRTCB_MASK); reflexivity.
Qed.

(** *** The invariant along a run of operations *)

Lemma registry_wf_new : registry_wf VM_new.
Proof. repeat split; constructor. Qed.

Lemma wrap32_succ_le (c : N) : wrap32 (c + 1) <= c + 1.
Proof. unfold wrap32. apply N.Div0.mod_le. Qed.

Lemma wrap32_small (c : N) : c < 2 ^ 32 -> wrap32 c = c.
Proof. intros H. unfold wrap32. now apply N.mod_small. Qed.

Lemma addMemRangeCB_wf start end_ type cbk data s :
  registry_wf s -> memCBID s + 1 < 2 ^ 32 ->
  registry_wf (snd (addMemRangeCB start end_ type cbk data s)).
Proof.
  intros Hwf Hc.
  destruct (N.ltb_spec start end_) as [Hlt|Hge];
    [ | unfold addMemRangeCB; now rewrite (proj2 (N.ltb_ge _ _) Hge)].
  destruct (N.eq_dec (N.land type MEMORY_READ_WRITE) 0) as [Hty|Hty];
    [unfold addMemRangeCB;
     now rewrite (proj2 (N.ltb_lt _ _) Hlt), (proj2 (N.eqb_eq _ _) Hty) | ].
  destruct cbk as [f|];
    [ | unfold addMemRangeCB;
        now rewrite (proj2 (N.ltb_lt _ _) Hlt), (proj2 (N.eqb_neq _ _) Hty)].
  rewrite (addMemRangeCB_valid start end_ type f data s Hlt Hty). cbv zeta.
  destruct (gate_step_trans _ _ _ (createReadGate_step type s)
              (createWriteGate_step type (createReadGate type s)))
    as (E1 & E2 & _ & W & _).
  destruct (W Hwf) as (Hm & Hr & Hv). rewrite E1, E2 in Hm.
  destruct (memCBID s <? EVENTID_VIRTCB_MASK); unfold registry_wf; proj_simpl;
    rewrite (wrap32_small _ Hc); repeat apply conj; try assumption.
  - rewrite ids_app, Forall_app. split.
    + eapply Forall_impl; [ | exact Hm]. cbn beta. intros; lia.
    + repeat constructor. cbn [fst]. lia.
  - rewrite E1. eapply Forall_impl; [ | exact Hm]. cbn beta. intros; lia.
Qed.

Lemma register_wf op s :
  registry_wf s -> memCBID s + 1 < 2 ^ 32 -> registry_wf (snd (register op s)).
Proof.
  intros Hwf Hc.
  destruct op as
    [cbk ty data|cbk ty data|st en cbk ty data|st en cbk ty data|range cbk ty data|mnemonic pos cbk data|pos cbk data|address pos cbk data|st en pos cbk data|ty cbk data|address ty cbk data|st en ty cbk data|mask cbk data];
    cbn [register].
  - now apply engine_addInstrRule_wf.
  - unfold addInstrRuleC.
    pose proof (engine_addInstrRule_wf
      (InstrRuleUser InstrCBGateCFn ty
         (InstrCBInfoPtr (mkInstrCBInfo (Range.mk 0 (wrap_rword (2 ^ rword_bits - 1)))
                            cbk ty data))
         (RangeSet.add (Range.mk 0 (wrap_rword (2 ^ rword_bits - 1))) RangeSet.empty))
      s Hwf) as H.
    unfold addInstrRule. destruct (engine_addInstrRule _ s) as [id s1]. exact H.
  - now apply engine_addInstrRule_wf.
  - unfold addInstrRuleRangeC.
    pose proof (engine_addInstrRule_wf
      (InstrRuleUser InstrCBGateCFn ty
         (InstrCBInfoPtr (mkInstrCBInfo (Range.mk st en) cbk ty data))
         (RangeSet.add (Range.mk st en) RangeSet.empty))
      s Hwf) as H.
    unfold addInstrRuleRange. destruct (engine_addInstrRule _ s) as [id s1]. exact H.
  - now apply engine_addInstrRule_wf.
  - unfold addMnemonicCB. destruct mnemonic; [ | exact Hwf].
    destruct cbk; [now apply engine_addInstrRule_wf | exact Hwf].
  - unfold addCodeCB. destruct cbk; [now apply engine_addInstrRule_wf | exact Hwf].
  - unfold addCodeAddrCB. destruct cbk; [now apply engine_addInstrRule_wf | exact Hwf].
  - unfold addCodeRangeCB. destruct (st <? en); cbn [negb]; [ | exact Hwf].
    destruct cbk; [now apply engine_addInstrRule_wf | exact Hwf].
  - now apply addMemAccessCB_step.
  - unfold addMemAddrCB. destruct cbk; [now apply addMemRangeCB_wf | exact Hwf].
  - now apply addMemRangeCB_wf.
  - unfold addVMEventCB, Engine_addVMEventCB. destruct (mask =? 0); [exact Hwf | ].
    destruct cbk; [ | exact Hwf].
    destruct Hwf as (Hm & Hr & Hv).
    destruct (N.ltb_spec (eventIdCounter (engine s)) EVENTID_VIRTCB_MASK);
      unfold registry_wf; proj_simpl; repeat apply conj; try assumption.
    + eapply Forall_impl; [ | exact Hr]. cbn beta. intros; lia.
    + rewrite ids_app, Forall_app. split.
      * eapply Forall_impl; [ | exact Hv]. cbn beta. intros; lia.
      * repeat constructor. cbn [fst]. lia.
Qed.

Lemma Forall_incl {A} (Q : A -> Prop) (l l' : list A) :
  incl l' l -> Forall Q l -> Forall Q l'.
Proof. intros Hi H. rewrite Forall_forall in *. auto. Qed.

Lemma deleteInstrumentation_wf id s :
  registry_wf s -> registry_wf (snd (deleteInstrumentation id s)).
Proof.
  intros (Hm & Hr & Hv). unfold deleteInstrumentation.
  destruct (N.land id EVENTID_VIRTCB_MASK =? 0); cbn [negb].
  - unfold Engine_deleteInstrumentation. proj_simpl.
    destruct (erase_first id (instrRules (engine s))) as [rs|] eqn:E1.
    + repeat split; proj_simpl; try assumption.
      eapply Forall_incl; [eapply erase_first_ids_incl, E1 | exact Hr].
    + destruct (erase_first id (vmCallbacks (engine s))) as [cs|] eqn:E2.
      * repeat split; proj_simpl; try assumption.
        eapply Forall_incl; [eapply erase_first_ids_incl, E2 | exact Hv].
      * repeat split; assumption.
  - destruct (erase_first _ (memCBInfos s)) as [l|] eqn:E1.
    + repeat split; proj_simpl; try assumption.
      eapply Forall_incl; [eapply erase_first_ids_incl, E1 | exact Hm].
    + repeat split; assumption.
Qed.

Lemma deleteAllInstrumentations_wf s :
  registry_wf s -> registry_wf (deleteAllInstrumentations s).
Proof. intros _. repeat split; constructor. Qed.

Lemma register_memCBID op s : memCBID (snd (register op s)) <= memCBID s + 1.
Proof.
  assert (F : forall rule, memCBID (snd (engine_addInstrRule rule s)) <= memCBID s + 1).
  { intros rule. destruct (engine_addInstrRule_frame rule s) as (_ & -> & _). lia. }
  assert (M : forall st en ty cbk data,
             memCBID (snd (addMemRangeCB st en ty cbk data s)) <= memCBID s + 1).
  { intros st en ty cbk data.
    destruct (N.ltb_spec st en) as [Hlt|Hge];
      [ | unfold addMemRangeCB; rewrite (proj2 (N.ltb_ge _ _) Hge); cbn; lia].
    destruct (N.eq_dec (N.land ty MEMORY_READ_WRITE) 0) as [Hty|Hty];
      [unfold addMemRangeCB;
       rewrite (proj2 (N.ltb_lt _ _) Hlt), (proj2 (N.eqb_eq _ _) Hty); cbn; lia | ].
    destruct cbk as [f|];
      [ | unfold addMemRangeCB;
          rewrite (proj2 (N.ltb_lt _ _) Hlt), (proj2 (N.eqb_neq _ _) Hty); cbn; lia].
    rewrite (addMemRangeCB_valid st en ty f data s Hlt Hty). cbv zeta.
    destruct (memCBID s <? EVENTID_VIRTCB_MASK); proj_simpl; apply wrap32_succ_le. }
  destruct op as
    [cbk ty data|cbk ty data|st en cbk ty data|st en cbk ty data|range cbk ty data|mnemonic pos cbk data|pos cbk data|address pos cbk data|st en pos cbk data|ty cbk data|address ty cbk data|st en ty cbk data|mask cbk data];
    cbn [register].
  - apply F.
  - unfold addInstrRuleC, addInstrRule.
    match goal with |- context [engine_addInstrRule ?r s] =>
      specialize (F r); destruct (engine_addInstrRule r s) end. exact F.
  - apply F.
  - unfold addInstrRuleRangeC, addInstrRuleRange.
    match goal with |- context [engine_addInstrRule ?r s] =>
      specialize (F r); destruct (engine_addInstrRule r s) end. exact F.
  - apply F.
  - unfold addMnemonicCB. destruct mnemonic; [ | cbn; lia].
    destruct cbk; [apply F | cbn; lia].
  - unfold addCodeCB. destruct cbk; [apply F | cbn; lia].
  - unfold addCodeAddrCB. destruct cbk; [apply F | cbn; lia].
  - unfold addCodeRangeCB. destruct (st <? en); cbn [negb]; [ | cbn; lia].
    destruct cbk; [apply F | cbn; lia].
  - destruct (addMemAccessCB_step ty cbk data s) as (_ & -> & _). lia.
  - unfold addMemAddrCB. destruct cbk; [apply M | cbn; lia].
  - apply M.
  - unfold addVMEventCB, Engine_addVMEventCB. destruct (mask =? 0); [cbn; lia | ].
    destruct cbk; [ | cbn; lia].
    destruct (_ <? _); cbn; lia.
Qed.

Lemma vmOp_wf op s :
  registry_wf s -> memCBID s + 1 < 2 ^ 32 -> registry_wf (vmOp op s).
Proof.
  intros Hwf Hc. destruct op as [r|id|]; cbn [vmOp].
  - now apply register_wf.
  - now apply deleteInstrumentation_wf.
  - now apply deleteAllInstrumentations_wf.
Qed.

Lemma deleteInstrumentation_memCBID id s :
  memCBID (snd (deleteInstrumentation id s)) = memCBID s.
Proof.
  unfold deleteInstrumentation. destruct (_ =? 0); cbn [negb].
  - destruct (Engine_deleteInstrumentation _ _). reflexivity.
  - destruct (erase_first _ _); reflexivity.
Qed.

Lemma vmOp_memCBID op s : memCBID (vmOp op s) <= memCBID s + 1.
Proof.
  destruct op as [r|id|]; cbn [vmOp].
  - apply register_memCBID.
  - rewrite deleteInstrumentation_memCBID. lia.
  - cbn. lia.
Qed.

(** Fewer than [2 ^ 32] operations cannot wrap the counter [memCBID]: the
    ids in use stay below the counters. *)
Lemma vmOps_wf ops : forall s,
  registry_wf s -> memCBID s + N.of_nat (List.length ops) < 2 ^ 32 ->
  registry_wf (vmOps ops s).
Proof.
  unfold vmOps.
  induction ops as [|op ops IH]; intros s Hwf Hc; cbn [fold_left]; [exact Hwf | ].
  cbn [List.length] in Hc. apply IH.
  - apply vmOp_wf; [exact Hwf | lia].
  - pose proof (vmOp_memCBID op s). lia.
Qed.

(** *** The gates *)

Lemma createReadGate_other type s :
  memWriteGateCBID (createReadGate type s) = memWriteGateCBID s.
Proof.
  unfold createReadGate. destruct (_ && _); [ | reflexivity].
  pose proof (addMemAccessCB_gates MEMORY_READ (Some memReadGateFn) MemCBInfosPtr s)
    as [_ H].
  destruct (addMemAccessCB _ _ _ s) as [g s']. exact H.
Qed.

Lemma createWriteGate_other type s :
  memReadGateCBID (createWriteGate type s) = memReadGateCBID s.
Proof.
  unfold createWriteGate. destruct (_ && _); [ | reflexivity].
  pose proof (addMemAccessCB_gates MEMORY_READ_WRITE (Some memWriteGateFn)
                MemCBInfosPtr s) as [H _].
  destruct (addMemAccessCB _ _ _ s) as [g s']. exact H.
Qed.

(** Lazy creation: a gate id is only ever written over the sentinel, and
    only by a registration of a type that needs the gate. *)
Lemma createReadGate_keeps type s :
  type <> MEMORY_READ \/ memReadGateCBID s <> INVALID_EVENTID ->
  memReadGateCBID (createReadGate type s) = memReadGateCBID s.
Proof.
  intros H. unfold createReadGate.
  destruct (N.eqb_spec type MEMORY_READ) as [E|E]; cbn [andb]; [ | reflexivity].
  destruct (N.eqb_spec (memReadGateCBID s) INVALID_EVENTID) as [G|G]; [ | reflexivity].
  destruct H; contradiction.
Qed.

Lemma createWriteGate_keeps type s :
  N.land type MEMORY_WRITE = 0 \/ memWriteGateCBID s <> INVALID_EVENTID ->
  memWriteGateCBID (createWriteGate type s) = memWriteGateCBID s.
Proof.
  intros H. unfold createWriteGate.
  destruct (N.eqb_spec (N.land type MEMORY_WRITE) 0) as [E|E]; cbn [negb andb];
    [reflexivity | ].
  destruct (N.eqb_spec (memWriteGateCBID s) INVALID_EVENTID) as [G|G]; [ | reflexivity].
  destruct H; contradiction.
Qed.

Lemma createReadGate_created s :
  EVENTID_VIRTCB_MASK <= INVALID_EVENTID ->
  eventIdCounter (engine (createReadGate MEMORY_READ s)) < EVENTID_VIRTCB_MASK ->
  memReadGateCBID (createReadGate MEMORY_READ s) <> INVALID_EVENTID.
Proof.
  intros Hs Hc. unfold createReadGate in *. cbn [N.eqb MEMORY_READ Pos.eqb andb] in *.
  destruct (N.eqb_spec (memReadGateCBID s) INVALID_EVENTID) as [G|G]; [ | exact G].
  pose proof (addMemAccessCB_given MEMORY_READ memReadGateFn MemCBInfosPtr s
                (or_introl eq_refl)) as H.
  destruct (addMemAccessCB _ _ _ s) as [g s']. proj_simpl.
  specialize (H Hc). lia.
Qed.

Lemma createWriteGate_created type s :
  EVENTID_VIRTCB_MASK <= INVALID_EVENTID ->
  N.land type MEMORY_WRITE <> 0 ->
  eventIdCounter (engine (createWriteGate type s)) < EVENTID_VIRTCB_MASK ->
  memWriteGateCBID (createWriteGate type s) <> INVALID_EVENTID.
Proof.
  intros Hs Hty Hc. unfold createWriteGate in *.
  rewrite (proj2 (N.eqb_neq _ _) Hty) in *. cbn [negb andb] in *.
  destruct (N.eqb_spec (memWriteGateCBID s) INVALID_EVENTID) as [G|G]; [ | exact G].
  pose proof (addMemAccessCB_given MEMORY_READ_WRITE memWriteGateFn MemCBInfosPtr s
                (or_intror (or_intror eq_refl))) as H.
  destruct (addMemAccessCB _ _ _ s) as [g s']. proj_simpl.
  specialize (H Hc). lia.
Qed.

Lemma gates_cover_new : gates_cover VM_new.
Proof. intros _. split; discriminate. Qed.

Lemma addMemRangeCB_gates_cover start end_ type cbk data s :
  EVENTID_VIRTCB_MASK <= INVALID_EVENTID ->
  gates_cover s -> gates_cover (snd (addMemRangeCB start end_ type cbk data s)).
Proof.
  intros Hs Hg.
  destruct (N.ltb_spec start end_) as [Hlt|Hge];
    [ | unfold addMemRangeCB; now rewrite (proj2 (N.ltb_ge _ _) Hge)].
  destruct (N.eq_dec (N.land type MEMORY_READ_WRITE) 0) as [Hty|Hty];
    [unfold addMemRangeCB;
     now rewrite (proj2 (N.ltb_lt _ _) Hlt), (proj2 (N.eqb_eq _ _) Hty) | ].
  destruct cbk as [f|];
    [ | unfold addMemRangeCB;
        now rewrite (proj2 (N.ltb_lt _ _) Hlt), (proj2 (N.eqb_neq _ _) Hty)].
  rewrite (addMemRangeCB_valid start end_ type f data s Hlt Hty). cbv zeta.
  set (s1 := createReadGate type s). set (s2 := createWriteGate type s1).
  destruct (createReadGate_step type s) as (_ & _ & _ & _ & C1).
  destruct (createWriteGate_step type s1) as (_ & _ & _ & _ & C2).
  fold s1 in C1. fold s2 in C2.
  assert (R : eventIdCounter (engine s2) < EVENTID_VIRTCB_MASK ->
              (readGateNeeded s = true \/ type = MEMORY_READ) ->
              memReadGateCBID s2 <> INVALID_EVENTID).
  { intros Hc Hn. subst s2. rewrite createWriteGate_other.
    destruct (Hg ltac:(lia)) as [Hr _].
    destruct (N.eq_dec (memReadGateCBID s) INVALID_EVENTID) as [G|G].
    - destruct Hn as [Hn| ->]; [now apply Hr in Hn | ].
      subst s1. apply createReadGate_created; [exact Hs | lia].
    - subst s1. rewrite createReadGate_keeps; auto. }
  assert (W : eventIdCounter (engine s2) < EVENTID_VIRTCB_MASK ->
              (writeGateNeeded s = true \/ N.land type MEMORY_WRITE <> 0) ->
              memWriteGateCBID s2 <> INVALID_EVENTID).
  { intros Hc Hn.
    destruct (Hg ltac:(lia)) as [_ Hw].
    destruct (N.eq_dec (memWriteGateCBID s1) INVALID_EVENTID) as [G|G].
    - destruct Hn as [Hn|Hn].
      + apply Hw in Hn. subst s1. now rewrite createReadGate_other in G.
      + subst s2. apply createWriteGate_created; assumption.
    - subst s2. rewrite createWriteGate_keeps; auto. }
  unfold gates_cover, readGateNeeded, writeGateNeeded in *.
  destruct (memCBID s <? EVENTID_VIRTCB_MASK); proj_simpl; intros Hc.
  - rewrite !existsb_app. cbn [existsb snd]. rewrite !orb_false_r. split; intros Hn.
    + apply R; [exact Hc | ]. apply orb_true_iff in Hn as [Hn|Hn]; [now left | right].
      unfold needsReadGate in Hn. cbn [mc_type] in Hn. now apply N.eqb_eq in Hn.
    + apply W; [exact Hc | ]. apply orb_true_iff in Hn as [Hn|Hn]; [now left | right].
      unfold needsWriteGate in Hn. cbn [mc_type] in Hn.
      apply negb_true_iff in Hn. now apply N.eqb_neq in Hn.
  - destruct (createReadGate_step type s) as (E1 & _).
    destruct (createWriteGate_step type s1) as (E2 & _). fold s1 in E1. fold s2 in E2.
    rewrite E2, E1. split; intros Hn; [apply R | apply W]; auto.
Qed.

Lemma erase_first_incl {A} id (l l' : list (N * A)) :
  erase_first id l = Some l' -> incl l' l.
Proof.
  revert l'. induction l as [|x xs IH]; cbn; intros l'.
  - discriminate.
  - destruct (fst x =? id); [intros [= <-]; apply incl_tl, incl_refl | ].
    destruct (erase_first id xs) as [r|] eqn:F; [ | discriminate ].
    intros [= <-]. apply incl_cons; [now left | ].
    apply incl_tl. now apply IH.
Qed.

Lemma existsb_incl {A} (f : A -> bool) (l l' : list A) :
  incl l' l -> existsb f l' = true -> existsb f l = true.
Proof.
  intros Hi H. apply existsb_exists in H as [x [Hx Hf]].
  apply existsb_exists. exists x. auto.
Qed.

(** Deleting never touches a gate id. *)
Lemma deleteInstrumentation_gates id s :
  memReadGateCBID (snd (deleteInstrumentation id s)) = memReadGateCBID s
  /\ memWriteGateCBID (snd (deleteInstrumentation id s)) = memWriteGateCBID s.
Proof.
  unfold deleteInstrumentation. destruct (_ =? 0); cbn [negb].
  - destruct (Engine_deleteInstrumentation _ _). split; reflexivity.
  - destruct (erase_first _ _); split; reflexivity.
Qed.

Lemma deleteInstrumentation_gates_cover id s :
  gates_cover s -> gates_cover (snd (deleteInstrumentation id s)).
Proof.
  intros Hg. unfold gates_cover.
  destruct (deleteInstrumentation_gates id s) as [-> ->].
  unfold deleteInstrumentation, readGateNeeded, writeGateNeeded.
  destruct (_ =? 0); cbn [negb].
  - unfold Engine_deleteInstrumentation.
    destruct (erase_first id (instrRules _));
      [ | destruct (erase_first id (vmCallbacks _))]; proj_simpl; exact Hg.
  - destruct (erase_first _ (memCBInfos s)) as [l|] eqn:E; proj_simpl; [ | exact Hg].
    intros Hc. destruct (Hg Hc) as [Hr Hw].
    split; intros Hn; [apply Hr | apply Hw];
      eapply existsb_incl; eauto using erase_first_incl.
Qed.

Lemma memOp_gates_cover op s :
  EVENTID_VIRTCB_MASK <= INVALID_EVENTID ->
  gates_cover s -> gates_cover (memOp op s).
Proof.
  intros Hs Hg. destruct op as [st en ty cbk data|address ty cbk data|id|];
    cbn [memOp register].
  - now apply addMemRangeCB_gates_cover.
  - unfold addMemAddrCB. destruct cbk; [ | exact Hg].
    now apply addMemRangeCB_gates_cover.
  - now apply deleteInstrumentation_gates_cover.
  - intros _. split; discriminate.
Qed.

Lemma memOps_gates_cover ops :
  EVENTID_VIRTCB_MASK <= INVALID_EVENTID -> gates_cover (memOps ops).
Proof.
  intros Hs. unfold memOps. generalize gates_cover_new. generalize VM_new.
  induction ops as [|op ops IH]; intros s Hg; cbn [fold_left]; [exact Hg | ].
  apply IH. now apply memOp_gates_cover.
Qed.

(** A registration leaves alone a gate it does not need or that exists. *)
Lemma addMemRangeCB_gates_kept start end_ type cbk data s :
  (type <> MEMORY_READ \/ memReadGateCBID s <> INVALID_EVENTID ->
   memReadGateCBID (snd (addMemRangeCB start end_ type cbk data s))
   = memReadGateCBID s)
  /\ (N.land type MEMORY_WRITE = 0 \/ memWriteGateCBID s <> INVALID_EVENTID ->
      memWriteGateCBID (snd (addMemRangeCB start end_ type cbk data s))
      = memWriteGateCBID s).
Proof.
  destruct (N.ltb_spec start end_) as [Hlt|Hge];
    [ | unfold addMemRangeCB; now rewrite (proj2 (N.ltb_ge _ _) Hge)].
  destruct (N.eq_dec (N.land type MEMORY_READ_WRITE) 0) as [Hty|Hty];
    [unfold addMemRangeCB;
     now rewrite (proj2 (N.ltb_lt _ _) Hlt), (proj2 (N.eqb_eq _ _) Hty) | ].
  destruct cbk as [f|];
    [ | unfold addMemRangeCB;
        now rewrite (proj2 (N.ltb_lt _ _) Hlt), (proj2 (N.eqb_neq _ _) Hty)].
  rewrite (addMemRangeCB_valid start end_ type f data s Hlt Hty). cbv zeta.
  destruct (memCBID s <? EVENTID_VIRTCB_MASK); proj_simpl; split; intros H.
  - now rewrite createWriteGate_other, createReadGate_keeps.
  - rewrite createWriteGate_keeps, createReadGate_other; auto.
    now rewrite createReadGate_other.
  - now rewrite createWriteGate_other, createReadGate_keeps.
  - rewrite createWriteGate_keeps, createReadGate_other; auto.
    now rewrite createReadGate_other.
Qed.

(** C5 (amended). After any sequence of [addMemRangeCB], [addMemAddrCB],
    [deleteInstrumentation] and [deleteAllInstrumentations] on a new VM,
    while the engine has ids left, the read gate exists if some registered
    entry needs it, and likewise the write gate.  Not conversely:
    [deleteInstrumentation] never changes a gate id.  Gates are created
    lazily: a new VM has none, a registration leaves a gate id it does not
    need or that is already set as it is, and only
    [deleteAllInstrumentations] resets them. *)
Theorem gates_exist_when_needed (ops : list MemOp) :
  EVENTID_VIRTCB_MASK <= INVALID_EVENTID ->
  eventIdCounter (engine (memOps ops)) < EVENTID_VIRTCB_MASK ->
  (readGateNeeded (memOps ops) = true ->
   memReadGateCBID (memOps ops) <> INVALID_EVENTID)
  /\ (writeGateNeeded (memOps ops) = true ->
      memWriteGateCBID (memOps ops) <> INVALID_EVENTID)
  /\ (forall id s,
        memReadGateCBID (snd (deleteInstrumentation id s)) = memReadGateCBID s
        /\ memWriteGateCBID (snd (deleteInstrumentation id s)) = memWriteGateCBID s)
  /\ (memReadGateCBID VM_new = INVALID_EVENTID
      /\ memWriteGateCBID VM_new = INVALID_EVENTID)
  /\ (forall start end_ type cbk data s,
        (type <> MEMORY_READ \/ memReadGateCBID s <> INVALID_EVENTID ->
         memReadGateCBID (snd (addMemRangeCB start end_ type cbk data s))
         = memReadGateCBID s)
        /\ (N.land type MEMORY_WRITE = 0 \/ memWriteGateCBID s <> INVALID_EVENTID ->
            memWriteGateCBID (snd (addMemRangeCB start end_ type cbk data s))
            = memWriteGateCBID s))
  /\ (forall s,
        memReadGateCBID (deleteAllInstrumentations s) = INVALID_EVENTID
        /\ memWriteGateCBID (deleteAllInstrumentations s) = INVALID_EVENTID).
Proof.
  intros Hs Hc.
  destruct (memOps_gates_cover ops Hs Hc) as [Hr Hw].
  split; [exact Hr | ]. split; [exact Hw | ].
  split; [apply deleteInstrumentation_gates | ].
  split; [split; reflexivity | ].
  split; [apply addMemRangeCB_gates_kept | ].
  intros s. split; reflexivity.
Qed.

(** What a registration that passes the checks does to the registry. *)
Lemma addMemRangeCB_valid_effect start end_ type f data s :
  start < end_ -> N.land type MEMORY_READ_WRITE <> 0 ->
  memCBID (snd (addMemRangeCB start end_ type (Some f) data s))
    = wrap32 (memCBID s + 1)
  /\ memCBInfos (snd (addMemRangeCB start end_ type (Some f) data s))
     = if memCBID s <? EVENTID_VIRTCB_MASK
       then memCBInfos s
            ++ [(memCBID s, mkMemCBInfo type (Range.mk start end_) f data)]
       else memCBInfos s.
Proof.
  intros Hlt Hty.
  rewrite (addMemRangeCB_valid start end_ type f data s Hlt Hty). cbv zeta.
  destruct (gate_step_trans _ _ _ (createReadGate_step type s)
              (createWriteGate_step type (createReadGate type s)))
    as (E1 & _).
  destruct (memCBID s <? EVENTID_VIRTCB_MASK); proj_simpl; split;
    auto.
Qed.

Lemma land_submask (a m m' : N) :
  N.land a m = 0 -> N.land m' m = m' -> N.land a m' = 0.
Proof.
  intros H Hm. rewrite <- Hm, (N.land_comm m' m), N.land_assoc, H.
  apply N.land_0_l.
Qed.

Lemma recordMemoryAccess_outside type s :
  N.land type MEMORY_READ_WRITE = 0 -> snd (recordMemoryAccess type s) = s.
Proof.
  intros H. unfold recordMemoryAccess.
  destruct memAccessSupported; cbn [negb snd]; [ | reflexivity].
  rewrite (land_submask type _ MEMORY_READ H eq_refl).
  rewrite (land_submask type _ MEMORY_WRITE H eq_refl).
  reflexivity.
Qed.

Lemma outside_not_a_direction type :
  N.land type MEMORY_READ_WRITE = 0 ->
  (type =? MEMORY_READ) = false /\ (type =? MEMORY_WRITE) = false
  /\ (type =? MEMORY_READ_WRITE) = false.
Proof.
  intros H. repeat split; apply N.eqb_neq; intros ->; discriminate H.
Qed.

(** C2. Every registration operation refuses an invalid argument: a null
    callback (or mnemonic), a range with [end <= start], a zero event
    mask, a memory-access type with no bit of [MEMORY_READ_WRITE].  It
    returns [INVALID_EVENTID] and leaves the VM as it was, so that nothing
    is registered. *)
Theorem invalid_argument_is_refused (s : VM) :
  (forall pos data, addCodeCB pos None data s = (INVALID_EVENTID, s))
  /\ (forall address pos data,
        addCodeAddrCB address pos None data s = (INVALID_EVENTID, s))
  /\ (forall start end_ pos cbk data,
        cbk = None \/ end_ <= start ->
        addCodeRangeCB start end_ pos cbk data s = (INVALID_EVENTID, s))
  /\ (forall mnemonic pos cbk data,
        cbk = None \/ mnemonic = None ->
        addMnemonicCB mnemonic pos cbk data s = (INVALID_EVENTID, s))
  /\ (forall start end_ type cbk data,
        cbk = None \/ end_ <= start \/ N.land type MEMORY_READ_WRITE = 0 ->
        addMemRangeCB start end_ type cbk data s = (INVALID_EVENTID, s))
  /\ (forall address type data,
        addMemAddrCB address type None data s = (INVALID_EVENTID, s))
  /\ (forall type cbk data,
        cbk = None \/ N.land type MEMORY_READ_WRITE = 0 ->
        addMemAccessCB type cbk data s = (INVALID_EVENTID, s))
  /\ (forall mask cbk data,
        cbk = None \/ mask = 0 ->
        addVMEventCB mask cbk data s = (INVALID_EVENTID, s)).
Proof.
  repeat apply conj.
  - reflexivity.
  - reflexivity.
  - intros start end_ pos cbk data [-> | H]; unfold addCodeRangeCB.
    + now destruct (start <? end_).
    + now rewrite (proj2 (N.ltb_ge start end_) H).
  - intros mnemonic pos cbk data [-> | ->]; unfold addMnemonicCB;
      [now destruct mnemonic | reflexivity].
  - intros start end_ type cbk data H. unfold addMemRangeCB.
    destruct (N.ltb_spec start end_) as [Hlt|Hge]; cbn [negb]; [ | reflexivity].
    destruct (N.eqb_spec (N.land type MEMORY_READ_WRITE) 0) as [E|E];
      [reflexivity | ].
    destruct H as [-> | [H | H]]; [reflexivity | lia | contradiction].
  - reflexivity.
  - intros type cbk data [-> | H]; unfold addMemAccessCB; [reflexivity | ].
    destruct cbk as [f|]; [ | reflexivity].
    rewrite (recordMemoryAccess_outside type s H).
    destruct (outside_not_a_direction type H) as (-> & -> & ->). reflexivity.
  - intros mask cbk data [-> | ->]; unfold addVMEventCB;
      [now destruct (mask =? 0) | reflexivity].
Qed.

End RegistryFacts.

(** ** Facts on [VM::run] *)

Section RunFacts.

Context {P : Platform} {U : UserCode}.

Variable Engine_run : N -> N -> Engine -> bool * Engine.

(** The dispatcher loop executes code; it does not register or delete
    instrumentations. *)
Hypothesis Engine_run_frame : forall start stop e,
  instrRules (snd (Engine_run start stop e)) = instrRules e
  /\ vmCallbacks (snd (Engine_run start stop e)) = vmCallbacks e.

(** C8. [run(start, stop)] enters the dispatcher loop with one more rule
    than before, a [PREINST] rule at the exact address [stop] whose
    callback is [stopCallback], which returns [STOP]; it returns what the
    engine's run returned, and when it returns the instrumentations are
    the ones from before the call. *)
Theorem run_installs_and_removes_stop_rule (start stop : N) (s : VM) :
  registry_wf s -> cb_records_wf s ->
  eventIdCounter (engine s) < EVENTID_VIRTCB_MASK ->
  instrRules (engine (snd (run_install stop s)))
    = instrRules (engine s) ++ [(fst (run_install stop s), stopRule stop)]
  /\ (forall w : World, fst (stopCallback w) = STOP)
  /\ fst (run Engine_run start stop s)
     = fst (Engine_run start stop (engine (snd (run_install stop s))))
  /\ instrumentations (snd (run Engine_run start stop s)) = instrumentations s.
Proof.
  intros (Hm & Hr & Hv) Hcb Hc.
  unfold run. unfold run_install, addCodeAddrCB.
  destruct (engine_addInstrRule_cases (stopRule stop) s) as [[_ E]|[H _]]; [ | lia].
  fold (stopRule stop). rewrite E. proj_simpl.
  split; [reflexivity | ]. split; [reflexivity | ].
  match goal with |- context [Engine_run start stop ?e] =>
    destruct (Engine_run_frame start stop e) as [F1 F2];
    destruct (Engine_run start stop e) as [ret e'] end.
  proj_simpl.
  unfold deleteInstrumentation. rewrite (land_mask_below _ Hc). cbn [N.eqb negb].
  unfold Engine_deleteInstrumentation. proj_simpl.
  rewrite F1, (erase_first_app_fresh _ _ _ (below_not_in _ _ Hr)).
  split; [reflexivity | ].
  unfold instrumentations. proj_simpl.
  now rewrite F2, (remove_id_fresh _ _ (below_not_in _ _ Hcb)).
Qed.

End RunFacts.

(** ** Facts on ranges *)

Lemma Range_overlaps_meets (r o : Range.t) :
  Range.meets r o
  <-> Range.is_empty r = false /\ Range.is_empty o = false
      /\ Range.overlaps r o = true.
Proof.
  unfold Range.meets, Range.contains, Range.is_empty, Range.overlaps.
  rewrite andb_true_iff, !N.leb_gt, !N.ltb_lt. split.
  - intros (x & H1 & H2). lia.
  - intros (H1 & H2 & H3 & H4).
    exists (N.max (Range.start r) (Range.start o)). lia.
Qed.

Lemma RangeSet_insert_overlaps (o : Range.t) (rs : RangeSet.t) :
  Range.start o < Range.end_ o ->
  forall r,
    RangeSet.overlaps (RangeSet.insert r rs) o = true
    <-> Range.overlaps r o = true \/ RangeSet.overlaps rs o = true.
Proof.
  intros Ho. unfold RangeSet.overlaps.
  induction rs as [|x xs IH]; intros r; cbn [RangeSet.insert existsb].
  - rewrite orb_false_r. intuition discriminate.
  - destruct (N.ltb_spec (Range.end_ r) (Range.start x)) as [H1|H1].
    + cbn [existsb]. rewrite !orb_true_iff. reflexivity.
    + destruct (N.ltb_spec (Range.end_ x) (Range.start r)) as [H2|H2].
      * cbn [existsb]. rewrite !orb_true_iff, IH. tauto.
      * rewrite IH, orb_true_iff.
        assert (M : Range.overlaps
                      (Range.mk (N.min (Range.start r) (Range.start x))
                                (N.max (Range.end_ r) (Range.end_ x))) o = true
                    <-> Range.overlaps r o = true \/ Range.overlaps x o = true).
        { unfold Range.overlaps. cbn [Range.start Range.end_].
          rewrite !andb_true_iff, !N.ltb_lt. lia. }
        rewrite M. tauto.
Qed.

Lemma RangeSet_add_overlaps (o r : Range.t) (rs : RangeSet.t) :
  Range.start o < Range.end_ o ->
  RangeSet.overlaps (RangeSet.add r rs) o = true
  <-> Range.meets r o \/ RangeSet.overlaps rs o = true.
Proof.
  intros Ho. unfold RangeSet.add. rewrite Range_overlaps_meets.
  assert (Ho' : Range.is_empty o = false)
    by (unfold Range.is_empty; now apply N.leb_gt).
  destruct (Range.is_empty r) eqn:E.
  - intuition discriminate.
  - rewrite RangeSet_insert_overlaps by exact Ho. tauto.
Qed.

(** ** Facts on the memory gates *)








Section GateFacts.

Context {P : Platform} {U : UserCode}.





(** Which entries the loop forwards to: the entry at index [j] is called
    exactly when it passes the test of the gate. *)
Lemma gateLoop_called fires infos : forall i w action log j,
  In j (called (gateLoop fires infos i w action log))
  <-> In j (map call_index log)
      \/ exists x, (i <= j)%nat /\ nth_error infos (j - i) = Some x
                   /\ fires (snd x) = true.
Proof.
  unfold called, gate_calls.
  induction infos as [|x rest IH]; intros i w action log j; cbn [gateLoop snd].
  - split; [now left | ]. intros [H|(y & _ & H & _)]; [exact H | ].
    now destruct (j - i)%nat.
  - assert (T : forall y, ((S i <= j)%nat /\ nth_error rest (j - S i) = Some y)
                          <-> ((i <= j)%nat /\ j <> i
                               /\ nth_error (x :: rest) (j - i) = Some y)).
    { intros y. destruct (Nat.eq_dec j i) as [->|Hne].
      - split; [intros [H _]; lia | intros (_ & H & _); contradiction].
      - destruct (Nat.le_gt_cases (S i) j) as [Hle|Hgt].
        + replace (j - i)%nat with (S (j - S i)) by lia. cbn [nth_error].
          split; [intros [_ H]; repeat split; [lia | exact Hne | exact H]
                 | intros (_ & _ & H); split; [exact Hle | exact H]].
        + split; [intros [H _]; lia | intros (H & _ & _); lia]. }
    destruct (fires (snd x)) eqn:F.
    + destruct (invoke (mc_cbk (snd x)) (mc_data (snd x)) w) as [ret w'].
      rewrite IH, map_app, in_app_iff. cbn [map call_index In].
      split.
      * intros [[H|[H|[]]]|(y & H1 & H2 & H3)].
        -- now left.
        -- right. exists x. subst j. rewrite Nat.sub_diag. now repeat split.
        -- right. exists y. destruct (proj1 (T y) (conj H1 H2)) as (A & _ & B).
           now repeat split.
      * intros [H|(y & H1 & H2 & H3)]; [now left; left | ].
        destruct (Nat.eq_dec j i) as [->|Hne]; [left; right; now left | ].
        right. exists y. destruct (proj2 (T y) (conj H1 (conj Hne H2))) as [A B].
        now repeat split.
    + rewrite IH. split.
      * intros [H|(y & H1 & H2 & H3)]; [now left | ].
        right. exists y. destruct (proj1 (T y) (conj H1 H2)) as (A & _ & B).
        now repeat split.
      * intros [H|(y & H1 & H2 & H3)]; [now left | ].
        destruct (Nat.eq_dec j i) as [->|Hne].
        -- rewrite Nat.sub_diag in H2. cbn in H2. injection H2 as <-. congruence.
        -- right. exists y. destruct (proj2 (T y) (conj H1 (conj Hne H2))) as [A B].
           now repeat split.
Qed.

(** The range set of a direction meets [o] exactly when an access of that
    direction does. *)
Lemma accessRanges_overlaps dir accs o :
  Range.start o < Range.end_ o ->
  RangeSet.overlaps (accessRanges dir accs) o = true
  <-> exists m, In m accs /\ N.land (type m) dir <> 0
                /\ Range.meets (accessRange m) o.
Proof.
  intros Ho. unfold accessRanges.
  assert (G : forall rs0,
    RangeSet.overlaps
      (fold_left
         (fun rs m =>
            if negb (N.land (type m) dir =? 0) then RangeSet.add (accessRange m) rs
            else rs) accs rs0) o = true
    <-> RangeSet.overlaps rs0 o = true
        \/ exists m, In m accs /\ N.land (type m) dir <> 0
                      /\ Range.meets (accessRange m) o).
  { induction accs as [|a accs IH]; intros rs0; cbn [fold_left].
    - split; [now left | intros [H|(m & [] & _)]; exact H].
    - rewrite IH. destruct (N.eqb_spec (N.land (type a) dir) 0) as [E|E]; cbn [negb].
      + split.
        * intros [H|(m & H1 & H2)]; [now left | right; exists m; split; [now right | exact H2]].
        * intros [H|(m & [<-|H1] & H2 & H3)]; [now left | contradiction | ].
          right. exists m. now repeat split.
      + rewrite RangeSet_add_overlaps by exact Ho. split.
        * intros [[H|H]|(m & H1 & H2)].
          -- right. exists a. split; [now left | now split].
          -- now left.
          -- right. exists m. split; [now right | exact H2].
        * intros [H|(m & [<-|H1] & H2 & H3)].
          -- left. now right.
          -- left. now left.
          -- right. exists m. now repeat split. }
  rewrite G. cbn. split; [intros [H|H]; [discriminate | exact H] | now right].
Qed.

End GateFacts.

(** ** Facts on the memory-access queries *)

Lemma instIDs_In (i first : N) (n : nat) :
  In i (instIDs first n) <-> first <= i < first + N.of_nat n.
Proof.
  revert first. induction n as [|n IH]; intros first; cbn [instIDs In].
  - lia.
  - rewrite IH. lia.
Qed.

Lemma instIDs_snoc (first : N) (n : nat) :
  instIDs first (S n) = instIDs first n ++ [first + N.of_nat n].
Proof.
  revert first. induction n as [|n IH]; intros first.
  - cbn. now rewrite N.add_0_r.
  - change (instIDs first (S (S n))) with (first :: instIDs (first + 1) (S n)).
    rewrite IH. cbn [instIDs app]. do 3 f_equal. lia.
Qed.

Lemma flat_map_ext_In {A B} (f g : A -> list B) (l : list A) :
  (forall x, In x l -> f x = g x) -> flat_map f l = flat_map g l.
Proof.
  induction l as [|a l IH]; intros H; cbn [flat_map]; [reflexivity | ].
  rewrite (H a (or_introl eq_refl)), IH; [reflexivity | ].
  intros x Hx. apply H. now right.
Qed.

(** The loop of [getBBMemoryAccess] ends, and appends the accesses of the
    instructions [itInstID .. min(endInstID, instID)] in increasing order,
    as long as that bound is not the last [uint16_t] value. *)
Lemma bbLoop_runs b instID preInst endInstID :
  N.min endInstID instID < 2 ^ 16 - 1 ->
  forall n fuel it acc,
    it + N.of_nat n = N.min endInstID instID + 1 -> (n < fuel)%nat ->
    bbLoop fuel b instID preInst endInstID it acc
    = Some (acc ++ flat_map
                     (fun i => instMemoryAccess b i (negb (i =? instID) || negb preInst))
                     (instIDs it n)).
Proof.
  intros Hb. induction n as [|n IH]; intros fuel it acc Hit Hf;
    (destruct fuel as [|fuel]; [lia | ]); cbn [bbLoop instIDs flat_map].
  - rewrite (proj2 (N.leb_gt _ _)) by lia. now rewrite app_nil_r.
  - rewrite (proj2 (N.leb_le _ _)) by lia.
    unfold wrap16. rewrite N.mod_small by lia.
    rewrite IH by lia. unfold analyseMemoryAccess. now rewrite app_assoc.
Qed.

Lemma bbLoop_skips b instID preInst endInstID fuel it acc :
  N.min endInstID instID < it ->
  bbLoop (S fuel) b instID preInst endInstID it acc = Some acc.
Proof. intros H. cbn [bbLoop]. now rewrite (proj2 (N.leb_gt _ _)) by lia. Qed.

(** C7. During the execution of a block, [getBBMemoryAccess] returns the
    accesses of the instructions of the current sequence from its first
    instruction to the current one (never past the end of the sequence),
    in increasing instruction id: those of the earlier instructions as
    recorded after they executed, those of the current instruction as
    recorded before it when the engine is at a [PREINST] point and after
    it otherwise.  The instruction ids are [uint16_t]: the bound of the
    loop is assumed not to be the last value of the type. *)
Theorem getBBMemoryAccess_current_sequence (s : VM) (b : ExecBlock) :
  getCurExecBlock (engine s) = Some b ->
  N.min (getSeqEnd b (getCurrentSeqID b)) (getCurrentInstID b) < 2 ^ 16 - 1 ->
  getBBMemoryAccess s
  = Some (flat_map
            (fun i => instMemoryAccess b i
                        (negb (i =? getCurrentInstID b) || negb (isPreInst (engine s))))
            (instIDs (getSeqStart b (getCurrentSeqID b))
               (N.to_nat (N.min (getSeqEnd b (getCurrentSeqID b)) (getCurrentInstID b)
                          + 1 - getSeqStart b (getCurrentSeqID b)))))
  /\ (getSeqStart b (getCurrentSeqID b) <= getCurrentInstID b ->
      getCurrentInstID b <= getSeqEnd b (getCurrentSeqID b) ->
      getBBMemoryAccess s
      = Some (flat_map (fun i => instMemoryAccess b i true)
                (instIDs (getSeqStart b (getCurrentSeqID b))
                   (N.to_nat (getCurrentInstID b - getSeqStart b (getCurrentSeqID b))))
              ++ instMemoryAccess b (getCurrentInstID b)
                   (negb (isPreInst (engine s))))).
Proof.
  intros Hb Hlast. unfold getBBMemoryAccess. rewrite Hb.
  set (first := getSeqStart b (getCurrentSeqID b)) in *.
  set (instID := getCurrentInstID b) in *.
  set (endInstID := getSeqEnd b (getCurrentSeqID b)) in *.
  set (preInst := isPreInst (engine s)).
  assert (R : bbLoop uint16_fuel b instID preInst endInstID first []
              = Some (flat_map
                        (fun i => instMemoryAccess b i (negb (i =? instID) || negb preInst))
                        (instIDs first (N.to_nat (N.min endInstID instID + 1 - first))))).
  { destruct (N.le_gt_cases first (N.min endInstID instID + 1)) as [Hle|Hgt].
    - rewrite (bbLoop_runs b instID preInst endInstID Hlast
                 (N.to_nat (N.min endInstID instID + 1 - first))); [reflexivity | lia | ].
      unfold uint16_fuel. lia.
    - unfold uint16_fuel. rewrite bbLoop_skips by lia.
      replace (N.min endInstID instID + 1 - first) with 0 by lia. reflexivity. }
  split; [exact R | ].
  intros H1 H2. rewrite R.
  replace (N.min endInstID instID + 1 - first) with (instID - first + 1) by lia.
  replace (N.to_nat (instID - first + 1)) with (S (N.to_nat (instID - first))) by lia.
  rewrite instIDs_snoc, flat_map_app. cbn [flat_map].
  replace (first + N.of_nat (N.to_nat (instID - first))) with instID by lia.
  rewrite N.eqb_refl, app_nil_r. cbn [negb orb]. do 2 f_equal.
  apply flat_map_ext_In. intros i Hi. apply instIDs_In in Hi.
  rewrite (proj2 (N.eqb_neq i instID)) by lia. reflexivity.
Qed.

(** C10. When no block is executing ([getCurExecBlock] is null),
    [getInstMemoryAccess] and [getBBMemoryAccess] return the empty vector
    and [getInstAnalysis] returns the null pointer.  The three queries are
    [const]: they are functions of the VM and have no state to return. *)
Theorem queries_outside_execution (s : VM) (type : N) :
  getCurExecBlock (engine s) = None ->
  getInstMemoryAccess s = []
  /\ getBBMemoryAccess s = Some []
  /\ getInstAnalysis type s = None.
Proof.
  intros H. unfold getInstMemoryAccess, getBBMemoryAccess, getInstAnalysis.
  rewrite H. repeat split.
Qed.

(** ** Facts on BreakToHost *)

Section BreakToHostFacts.

Context {T : Target}.

(** C9. Executed at host address [hostPC h], the sequence
    [getBreakToHost(temp)] first computes into [temp] the host address
    that follows its last instruction (the end of the patch it is appended
    to), stores it into [Context.hostState.selector], reloads [temp] from
    its Context slot, and jumps to the epilogue.  No other register and no
    other Context slot changes. *)
Theorem getBreakToHost_effect (temp : Reg) (h : Host) :
  offsetof_gpr temp <> offsetof_selector ->
  regs (execInst (hd JmpEpilogue (getBreakToHost temp)) h) temp
    = (hostPC h + patchSize (getBreakToHost temp)) mod 2 ^ host_bits
  /\ context (execSeq (getBreakToHost temp) h) offsetof_selector
     = (hostPC h + patchSize (getBreakToHost temp)) mod 2 ^ host_bits
  /\ regs (execSeq (getBreakToHost temp) h) temp = context h (offsetof_gpr temp)
  /\ last (getBreakToHost temp) (SaveReg temp (OffsetReg temp)) = JmpEpilogue
  /\ hostPC (execSeq (getBreakToHost temp) h) = epilogue
  /\ (forall r, r <> temp -> regs (execSeq (getBreakToHost temp) h) r = regs h r)
  /\ (forall o, o <> offsetof_selector ->
                context (execSeq (getBreakToHost temp) h) o = context h o).
Proof.
  intros Hslot.
  unfold getBreakToHost, execSeq, patchSize, host_bits.
  destruct is_x86 eqn:E;
    cbn [app hd last fold_left fold_right execInst execMCInst setOperand encodedSize
         setReg setContext setHostPC regs context hostPC resolve N.eqb Pos.eqb];
    rewrite ?E, ?N.eqb_refl;
    cbn [app hd last fold_left fold_right execInst execMCInst setOperand encodedSize
         setReg setContext setHostPC regs context hostPC resolve N.eqb Pos.eqb];
    rewrite ?E, ?N.eqb_refl, ?(proj2 (N.eqb_neq _ _) Hslot);
    unfold host_bits; rewrite ?E;
    (split; [reflexivity | ]); (split; [reflexivity | ]);
    (split; [reflexivity | ]); (split; [reflexivity | ]);
    (split; [reflexivity | ]);
    (split;
     [ intros r Hr; now rewrite (proj2 (N.eqb_neq _ _) Hr)
     | intros o Ho; now rewrite (proj2 (N.eqb_neq _ _) Ho) ]).
Qed.

End BreakToHostFacts.

(** ** Worked instances on X86_64 *)

Lemma erase_first_keeps_other {A} (id j : N) (l l' : list (N * A)) :
  erase_first id l = Some l' -> j <> id -> In j (ids l) -> In j (ids l').
Proof.
  revert l'. induction l as [|x xs IH]; cbn; intros l'; [discriminate | ].
  destruct (N.eqb_spec (fst x) id) as [E|E].
  - intros [= <-] Hj [H|H]; [congruence | exact H].
  - destruct (erase_first id xs) as [r|]; [ | discriminate].
    intros [= <-] Hj [H|H]; [now left | right; now apply IH].
Qed.

(** Deleting by an id of the memory range leaves the counter, and the
    entries with another id. *)
Lemma delete_mem_id_keeps (k j : N) (s : VM) :
  N.testbit k 31 = true -> j <> N.ldiff k EVENTID_VIRTCB_MASK ->
  memCBID (snd (deleteInstrumentation k s)) = memCBID s
  /\ (In j (ids (memCBInfos s)) ->
      In j (ids (memCBInfos (snd (deleteInstrumentation k s))))).
Proof.
  intros Hk Hj. unfold deleteInstrumentation. rewrite land_mask_testbit, Hk.
  cbn [negb]. destruct (erase_first _ (memCBInfos s)) as [l|] eqn:E; proj_simpl.
  - split; [reflexivity | ]. now apply (erase_first_keeps_other _ _ _ _ E).
  - split; [reflexivity | tauto].
Qed.

(** Each round moves the counter by one and keeps the first callback, as
    long as the counter is not back at 0. *)
Lemma registerAndDelete_round (s : VM) :
  memCBID s <> 0 -> memCBID s < 2 ^ 32 -> In 0 (ids (memCBInfos s)) ->
  memCBID (registerAndDelete s) = wrap32 (memCBID s + 1)
  /\ In 0 (ids (memCBInfos (registerAndDelete s))).
Proof.
  intros Hc Hlt Hin. unfold registerAndDelete.
  destruct (addMemRangeCB_valid_effect (P := X86_64) 0 1 MEMORY_READ (UserInstCB 1)
              (UserData 0) s eq_refl) as [E1 E2]; [discriminate | ].
  rewrite (addMemRangeCB_valid (P := X86_64) 0 1 MEMORY_READ (UserInstCB 1)
             (UserData 0) s eq_refl) in * by discriminate.
  cbv zeta in *.
  destruct (N.ltb_spec (memCBID s) EVENTID_VIRTCB_MASK) as [Hid|Hid];
    cbn [fst snd] in *;
    match goal with |- context [deleteInstrumentation ?k ?st] =>
      destruct (delete_mem_id_keeps k 0 st) as [D1 D2]
    end.
  - apply lor_mask_testbit.
  - rewrite (ldiff_lor_mask _ Hid). congruence.
  - rewrite D1. split; [exact E1 | ]. apply D2. rewrite E2.
    rewrite ids_app. apply in_or_app. now left.
  - reflexivity.
  - discriminate.
  - rewrite D1. split; [exact E1 | ]. apply D2. rewrite E2. exact Hin.
Qed.

Lemma registerAndDelete_rounds (n : N) :
  n <= 2 ^ 32 - 1 ->
  memCBID (N.iter n registerAndDelete oneCallbackVM) = wrap32 (1 + n)
  /\ In 0 (ids (memCBInfos (N.iter n registerAndDelete oneCallbackVM))).
Proof.
  induction n as [|n IH] using N.peano_ind; intros Hn.
  - split; [reflexivity | now left].
  - rewrite N.iter_succ. destruct IH as [IH1 IH2]; [lia | ].
    assert (W : wrap32 (1 + n) = 1 + n) by (apply wrap32_small; lia).
    destruct (registerAndDelete_round (N.iter n registerAndDelete oneCallbackVM))
      as [R1 R2]; [rewrite IH1, W; lia | rewrite IH1, W; lia | exact IH2 | ].
    split; [ | exact R2]. rewrite R1, IH1, W. f_equal. lia.
Qed.

Lemma wrappedVM_counter : memCBID wrappedVM = 0.
Proof.
  unfold wrappedVM.
  rewrite (proj1 (registerAndDelete_rounds (2 ^ 32 - 1) (N.le_refl _))).
  reflexivity.
Qed.

Lemma wrappedVM_keeps_first : In 0 (ids (memCBInfos wrappedVM)).
Proof.
  unfold wrappedVM.
  apply (proj2 (registerAndDelete_rounds (2 ^ 32 - 1) (N.le_refl _))).
Qed.

(** On a VM whose counter is back at an id in use, the id is handed out
    again and deleted twice. *)
Lemma reissued_id_deleted_twice (s : VM) :
  memCBID s = 0 -> In 0 (ids (memCBInfos s)) ->
  fst (addMemRangeCB (P := X86_64) 4096 8192 MEMORY_READ (Some (UserInstCB 2))
         (UserData 0) s)
    <> INVALID_EVENTID (Platform := X86_64)
  /\ fst (deleteInstrumentation
            (fst (addMemRangeCB (P := X86_64) 4096 8192 MEMORY_READ
                    (Some (UserInstCB 2)) (UserData 0) s))
            (snd (addMemRangeCB (P := X86_64) 4096 8192 MEMORY_READ
                    (Some (UserInstCB 2)) (UserData 0) s)))
     = true
  /\ fst (deleteInstrumentation
            (fst (addMemRangeCB (P := X86_64) 4096 8192 MEMORY_READ
                    (Some (UserInstCB 2)) (UserData 0) s))
            (snd (deleteInstrumentation
                    (fst (addMemRangeCB (P := X86_64) 4096 8192 MEMORY_READ
                            (Some (UserInstCB 2)) (UserData 0) s))
                    (snd (addMemRangeCB (P := X86_64) 4096 8192 MEMORY_READ
                            (Some (UserInstCB 2)) (UserData 0) s)))))
     = true.
Proof.
  intros Hc Hin.
  rewrite (addMemRangeCB_valid (P := X86_64) 4096 8192 MEMORY_READ (UserInstCB 2)
             (UserData 0) s eq_refl) by discriminate.
  cbv zeta. rewrite Hc.
  change (0 <? EVENTID_VIRTCB_MASK) with true. cbn iota. cbn [fst snd].
  split; [vm_compute; discriminate | ].
  unfold deleteInstrumentation.
  change (N.land (N.lor 0 EVENTID_VIRTCB_MASK) EVENTID_VIRTCB_MASK =? 0) with false.
  change (N.ldiff (N.lor 0 EVENTID_VIRTCB_MASK) EVENTID_VIRTCB_MASK) with 0.
  cbn [negb]. proj_simpl.
  destruct (erase_first_In 0 (memCBInfos s) Hin) as [l' E].
  rewrite (erase_first_app_used 0 _ _ _ E). proj_simpl.
  split; [reflexivity | ].
  assert (H : In 0 (ids (l' ++ [(0, mkMemCBInfo MEMORY_READ (Range.mk 4096 8192)
                                      (UserInstCB 2) (UserData 0))]))).
  { rewrite ids_app. apply in_or_app. right. now left. }
  destruct (erase_first_In 0 _ H) as [l'' ->]. reflexivity.
Qed.

(** C1.  The id round trip fails once [memCBID] has gone round: on
    [wrappedVM] (one callback registered and kept, then [2 ^ 32 - 1]
    callbacks registered and deleted) the next [addMemRangeCB] returns an
    id other than the sentinel, that of the first callback, which is
    still registered; [deleteInstrumentation] of that id returns true,
    and the next [deleteInstrumentation] of it returns true again. *)
Lemma id_reissued_after_wrap :
  fst (addMemRangeCB (P := X86_64) 4096 8192 MEMORY_READ (Some (UserInstCB 2))
         (UserData 0) wrappedVM)
    <> INVALID_EVENTID (Platform := X86_64)
  /\ fst (deleteInstrumentation
            (fst (addMemRangeCB (P := X86_64) 4096 8192 MEMORY_READ
                    (Some (UserInstCB 2)) (UserData 0) wrappedVM))
            (snd (addMemRangeCB (P := X86_64) 4096 8192 MEMORY_READ
                    (Some (UserInstCB 2)) (UserData 0) wrappedVM)))
     = true
  /\ fst (deleteInstrumentation
            (fst (addMemRangeCB (P := X86_64) 4096 8192 MEMORY_READ
                    (Some (UserInstCB 2)) (UserData 0) wrappedVM))
            (snd (deleteInstrumentation
                    (fst (addMemRangeCB (P := X86_64) 4096 8192 MEMORY_READ
                            (Some (UserInstCB 2)) (UserData 0) wrappedVM))
                    (snd (addMemRangeCB (P := X86_64) 4096 8192 MEMORY_READ
                            (Some (UserInstCB 2)) (UserData 0) wrappedVM)))))
     = true.
Proof.
  exact (reissued_id_deleted_twice wrappedVM wrappedVM_counter wrappedVM_keeps_first).
Qed.

(** [invalid_argument_is_refused] on [demoVM]: an inverted range. *)
Lemma invalid_argument_is_refused_witness :
  addMemRangeCB (P := X86_64) 8192 4096 MEMORY_READ (Some (UserInstCB 1))
    (UserData 0) demoVM
  = (INVALID_EVENTID (Platform := X86_64), demoVM).
Proof.
  apply (proj1 (proj2 (proj2 (proj2 (proj2
           (invalid_argument_is_refused (P := X86_64) demoVM)))))).
  right. left. discriminate.
Defined.

(** [gates_exist_when_needed] after one registration of each kind. *)
Lemma gates_exist_when_needed_witness :
  memReadGateCBID
    (memOps (P := X86_64)
       [OpMemRangeCB 4096 8192 MEMORY_READ (Some (UserInstCB 1)) (UserData 0);
        OpMemAddrCB 4096 MEMORY_WRITE (Some (UserInstCB 2)) (UserData 0)])
  <> INVALID_EVENTID (Platform := X86_64).
Proof.
  apply (gates_exist_when_needed (P := X86_64)
           [OpMemRangeCB 4096 8192 MEMORY_READ (Some (UserInstCB 1)) (UserData 0);
            OpMemAddrCB 4096 MEMORY_WRITE (Some (UserInstCB 2)) (UserData 0)]).
  - vm_compute. discriminate.
  - reflexivity.
  - reflexivity.
Defined.

(** C5, as stated, fails: after the only entry that needed the read gate
    is deleted, the read gate still exists. *)
Lemma gate_outlives_its_entries :
  ~ (memReadGateCBID
       (memOps (P := X86_64)
          [OpMemRangeCB 4096 8192 MEMORY_READ (Some (UserInstCB 1)) (UserData 0);
           OpDelete 2147483648])
     <> INVALID_EVENTID (Platform := X86_64)
     <-> readGateNeeded
           (memOps (P := X86_64)
              [OpMemRangeCB 4096 8192 MEMORY_READ (Some (UserInstCB 1)) (UserData 0);
               OpDelete 2147483648])
         = true).
Proof.
  intros [H _].
  assert (E : readGateNeeded
                (memOps (P := X86_64)
                   [OpMemRangeCB 4096 8192 MEMORY_READ (Some (UserInstCB 1)) (UserData 0);
                    OpDelete 2147483648]) = false) by reflexivity.
  rewrite E in H. discriminate H. vm_compute. discriminate.
Qed.

(** [getBBMemoryAccess_current_sequence] on [demoVM]. *)
Lemma getBBMemoryAccess_current_sequence_witness :
  getBBMemoryAccess demoVM
  = Some (flat_map
            (fun i => instMemoryAccess demoBlock i
                        (negb (i =? getCurrentInstID demoBlock)
                         || negb (isPreInst (engine demoVM))))
            (instIDs (getSeqStart demoBlock (getCurrentSeqID demoBlock))
               (N.to_nat
                  (N.min (getSeqEnd demoBlock (getCurrentSeqID demoBlock))
                         (getCurrentInstID demoBlock)
                   + 1 - getSeqStart demoBlock (getCurrentSeqID demoBlock))))).
Proof.
  exact (proj1 (getBBMemoryAccess_current_sequence demoVM demoBlock eq_refl eq_refl)).
Defined.

(** [run_installs_and_removes_stop_rule] on a new VM, with a dispatcher
    that returns at once. *)
Lemma run_installs_and_removes_stop_rule_witness :
  instrumentations
    (snd (run (P := X86_64) (fun _ _ e => (true, e)) 4096 8192 (VM_new (P := X86_64))))
  = instrumentations (VM_new (P := X86_64)).
Proof.
  apply (run_installs_and_removes_stop_rule (P := X86_64) (U := countingUser)
           (fun _ _ e => (true, e)) (fun _ _ _ => conj eq_refl eq_refl)
           4096 8192 (VM_new (P := X86_64))).
  - apply registry_wf_new.
  - constructor.
  - reflexivity.
Defined.

(** [getBreakToHost_effect] for register 0 on X86_64. *)
Lemma getBreakToHost_effect_witness :
  context
    (execSeq (T := X86_64_target) (getBreakToHost (T := X86_64_target) 0)
       (mkHost (fun _ => 7) (fun _ => 9) 65536))
    (offsetof_selector (Target := X86_64_target))
  = (65536 + patchSize (T := X86_64_target) (getBreakToHost (T := X86_64_target) 0))
    mod 2 ^ host_bits (T := X86_64_target).
Proof.
  apply (getBreakToHost_effect (T := X86_64_target) 0
           (mkHost (fun _ => 7) (fun _ => 9) 65536)).
  discriminate.
Defined.

(** [queries_outside_execution] on a new VM. *)
Lemma queries_outside_execution_witness :
  getInstMemoryAccess (VM_new (P := X86_64)) = []
  /\ getBBMemoryAccess (VM_new (P := X86_64)) = Some []
  /\ getInstAnalysis 0 (VM_new (P := X86_64)) = None.
Proof.
  apply (queries_outside_execution (VM_new (P := X86_64)) 0). reflexivity.
Defined.

(** Scenario S4: a [MEMORY_READ_WRITE] callback on [[buf, buf + 64)] is
    forwarded to once, by the write gate. *)
Example s4_callback_fires_once :
  called (memWriteGate (P := X86_64) (U := countingUser)
            (snd (addMemRangeCB (P := X86_64) 4096 4160 MEMORY_READ_WRITE
                    (Some (UserInstCB 1)) (UserData 0) s4VM)) 0)
  = [O]
  /\ called (memReadGate (P := X86_64) (U := countingUser)
               (snd (addMemRangeCB (P := X86_64) 4096 4160 MEMORY_READ_WRITE
                       (Some (UserInstCB 1)) (UserData 0) s4VM)) 0)
     = [].
Proof. split; reflexivity. Qed.

(** Three callbacks on one read, returning [CONTINUE], [BREAK_TO_VM] and
    [STOP]: the gate returns [STOP], whatever the order of registration. *)
Example three_callbacks_stop :
  gate_action
    (memReadGate (P := X86_64) (U := countingUser)
       (vmOps (P := X86_64)
          [DoRegister (RegMemRangeCB 4096 8192 MEMORY_READ (Some (UserInstCB 3)) (UserData 0));
           DoRegister (RegMemRangeCB 4096 8192 MEMORY_READ (Some (UserInstCB 1)) (UserData 0));
           DoRegister (RegMemRangeCB 4096 8192 MEMORY_READ (Some (UserInstCB 2)) (UserData 0))]
          demoVM) 0)
  = STOP.
Proof. reflexivity. Qed.

(** * Further properties of [VM.cpp] *)

(** ** Memory-access recording *)

Lemma land_lor_same (x m : N) : N.land (N.lor x m) m = m.
Proof.
  apply N.bits_inj. intros n. rewrite N.land_spec, N.lor_spec.
  destruct (N.testbit x n), (N.testbit m n); reflexivity.
Qed.

Lemma land_lor_other (x m m' : N) :
  N.land m m' = 0 -> N.land (N.lor x m) m' = N.land x m'.
Proof.
  intros H. rewrite N.land_lor_distr_l, H. apply N.lor_0_r.
Qed.

(** A word with a bit set is not changed by setting that bit. *)
Lemma lor_bit_set (x n : N) : N.land x (2 ^ n) <> 0 -> N.lor x (2 ^ n) = x.
Proof.
  intros H. apply N.bits_inj. intros k. rewrite N.lor_spec, N.pow2_bits_eqb.
  destruct (N.eqb_spec n k) as [<-|_]; [ | apply orb_false_r].
  destruct (N.testbit x n) eqn:E; [reflexivity | ].
  exfalso. apply H. apply N.bits_inj. intros k.
  rewrite N.land_spec, N.pow2_bits_eqb, N.bits_0.
  destruct (N.eqb_spec n k) as [<-|_]; [now rewrite E | apply andb_false_r].
Qed.

Lemma lor_land_bits (x t : N) :
  N.lor (N.lor x (N.land t MEMORY_READ)) (N.land t MEMORY_WRITE)
  = N.lor x (N.land t MEMORY_READ_WRITE).
Proof.
  rewrite <- N.lor_assoc, <- N.land_lor_distr_r. reflexivity.
Qed.

Section RecordingFacts.

Context {P : Platform}.

Lemma engine_addInstrRule_level rule s :
  memoryLoggingLevel (snd (engine_addInstrRule rule s)) = memoryLoggingLevel s.
Proof.
  destruct (engine_addInstrRule_cases rule s) as [[_ ->]|[_ ->]]; reflexivity.
Qed.

Lemma addInstrRules_level rules s :
  memoryLoggingLevel (addInstrRules rules s) = memoryLoggingLevel s.
Proof.
  unfold addInstrRules. revert s.
  induction rules as [|r rs IH]; intros s; cbn [fold_left]; [reflexivity | ].
  rewrite IH. apply engine_addInstrRule_level.
Qed.

(** One [if] of [recordMemoryAccess], for the direction [2 ^ n]: the level
    gains the bit when [type] has it, and a level that has the bit already
    leaves the VM as it is. *)
Lemma record_direction (n type : N) (rules : list InstrRule) (s : VM) :
  let s' :=
    if negb (N.land type (2 ^ n) =? 0)
       && (N.land (memoryLoggingLevel s) (2 ^ n) =? 0)
    then addInstrRules rules
           (with_memoryLoggingLevel (N.lor (memoryLoggingLevel s) (2 ^ n)) s)
    else s in
  memoryLoggingLevel s' = N.lor (memoryLoggingLevel s) (N.land type (2 ^ n))
  /\ (N.land type (2 ^ n) <> 0 -> N.land (memoryLoggingLevel s) (2 ^ n) = 0 ->
      N.land (memoryLoggingLevel s') (2 ^ n) <> 0)
  /\ (N.land type (2 ^ n) = 0 \/ N.land (memoryLoggingLevel s) (2 ^ n) <> 0 ->
      s' = s).
Proof.
  cbv zeta.
  assert (B : N.land type (2 ^ n) = 0 \/ N.land type (2 ^ n) = 2 ^ n).
  { destruct (N.testbit type n) eqn:E; [right | left]; apply N.bits_inj;
      intros k; rewrite N.land_spec, N.pow2_bits_eqb, ?N.bits_0;
      (destruct (N.eqb_spec n k) as [<-|_];
       [rewrite E; reflexivity | apply andb_false_r]). }
  destruct (N.eqb_spec (N.land type (2 ^ n)) 0) as [T|T]; cbn [negb andb].
  - rewrite T, N.lor_0_r. split; [reflexivity | ].
    split; [intros F; contradiction | reflexivity].
  - destruct B as [B|B]; [contradiction | ].
    destruct (N.eqb_spec (N.land (memoryLoggingLevel s) (2 ^ n)) 0) as [L|L].
    + rewrite addInstrRules_level. proj_simpl.
      split; [now rewrite B | ]. split.
      * intros _ _. rewrite land_lor_same. apply N.pow_nonzero. discriminate.
      * intros [F|F]; contradiction.
    + split; [now rewrite B, (lor_bit_set _ _ L) | ].
      split; [intros _ F; contradiction | reflexivity].
Qed.

(** X1. On a platform that can record memory accesses,
    [recordMemoryAccess(type)] returns true and ors the direction bits of
    [type] into [memoryLoggingLevel]; a second call with the same [type]
    changes nothing, so the recording rules of a direction are handed to
    the engine once. *)
Theorem recordMemoryAccess_once (type : N) (s : VM) :
  memAccessSupported = true ->
  fst (recordMemoryAccess type s) = true
  /\ memoryLoggingLevel (snd (recordMemoryAccess type s))
     = N.lor (memoryLoggingLevel s) (N.land type MEMORY_READ_WRITE)
  /\ recordMemoryAccess type (snd (recordMemoryAccess type s))
     = (true, snd (recordMemoryAccess type s)).
Proof.
  intros Hs.
  assert (G : forall s0 : VM,
    exists s1,
      recordMemoryAccess type s0
      = (true,
         if negb (N.land type MEMORY_WRITE =? 0)
            && (N.land (memoryLoggingLevel s1) MEMORY_WRITE =? 0)
         then addInstrRules InstrRuleMemAccessWrite
                (with_memoryLoggingLevel
                   (N.lor (memoryLoggingLevel s1) MEMORY_WRITE) s1)
         else s1)
      /\ memoryLoggingLevel s1
         = N.lor (memoryLoggingLevel s0) (N.land type MEMORY_READ)
      /\ (N.land type MEMORY_READ <> 0 ->
          N.land (memoryLoggingLevel s0) MEMORY_READ = 0 ->
          N.land (memoryLoggingLevel s1) MEMORY_READ <> 0)
      /\ (N.land type MEMORY_READ = 0
          \/ N.land (memoryLoggingLevel s0) MEMORY_READ <> 0 -> s1 = s0)).
  { intros s0. unfold recordMemoryAccess. rewrite Hs. cbn [negb].
    name_read_logging s1. exists s1. split; [reflexivity | ].
    exact (record_direction 0 type InstrRuleMemAccessRead s0). }
  destruct (G s) as (s1 & E & L1 & B1 & K1).
  pose proof (record_direction 1 type InstrRuleMemAccessWrite s1) as W.
  cbv zeta in W. change (2 ^ 1) with MEMORY_WRITE in W.
  rewrite E. cbn [fst snd].
  match goal with
  | |- context [if ?c then ?a else s1] => set (s2 := if c then a else s1) in *
  end.
  clearbody s2.
  destruct W as (L2 & B2 & K2).
  split; [reflexivity | ]. split.
  - rewrite L2, L1. apply lor_land_bits.
  - destruct (G s2) as (t1 & E' & _ & _ & K1').
    pose proof (record_direction 1 type InstrRuleMemAccessWrite t1) as W'.
    cbv zeta in W'. change (2 ^ 1) with MEMORY_WRITE in W'.
    rewrite E'.
    match goal with
    | |- context [if ?c then ?a else t1] => set (t2 := if c then a else t1) in *
    end.
    clearbody t2.
    destruct W' as (_ & _ & K2').
    assert (R : N.land type MEMORY_READ = 0
                \/ N.land (memoryLoggingLevel s2) MEMORY_READ <> 0).
    { destruct (N.eq_dec (N.land type MEMORY_READ) 0) as [T|T]; [now left | right].
      rewrite L2, N.land_lor_distr_l.
      replace (N.land (N.land type MEMORY_WRITE) MEMORY_READ) with 0
        by (rewrite <- N.land_assoc; cbn; now rewrite N.land_0_r).
      rewrite N.lor_0_r.
      destruct (N.eq_dec (N.land (memoryLoggingLevel s) MEMORY_READ) 0) as [L|L].
      - exact (B1 T L).
      - rewrite (K1 (or_intror L)). exact L. }
    rewrite (K1' R) in *.
    assert (Wr : N.land type MEMORY_WRITE = 0
                 \/ N.land (memoryLoggingLevel s2) MEMORY_WRITE <> 0).
    { destruct (N.eq_dec (N.land type MEMORY_WRITE) 0) as [T|T]; [now left | right].
      destruct (N.eq_dec (N.land (memoryLoggingLevel s1) MEMORY_WRITE) 0) as [L|L].
      - exact (B2 T L).
      - rewrite (K2 (or_intror L)). exact L. }
    now rewrite (K2' Wr).
Qed.

Lemma recordMemoryAccess_steps (type : N) (s : VM) :
  memAccessSupported = true ->
  fst (recordMemoryAccess type s) = true
  /\ memoryLoggingLevel (snd (recordMemoryAccess type s))
     = N.lor (memoryLoggingLevel s) (N.land type MEMORY_READ_WRITE).
Proof.
  intros Hs. unfold recordMemoryAccess. rewrite Hs. cbn [negb fst snd].
  name_read_logging s1.
  pose proof (record_direction 0 type InstrRuleMemAccessRead s) as W1.
  cbv zeta in W1. change (2 ^ 0) with MEMORY_READ in W1. fold s1 in W1.
  destruct W1 as (L1 & _).
  pose proof (record_direction 1 type InstrRuleMemAccessWrite s1) as W2.
  cbv zeta in W2. change (2 ^ 1) with MEMORY_WRITE in W2.
  destruct W2 as (L2 & _).
  split; [reflexivity | ]. rewrite L2, L1. apply lor_land_bits.
Qed.

End RecordingFacts.

(** ** Registrations that are refused *)

Section RefusalFacts.

Context {P : Platform}.

(** X2. [addMemAccessCB] calls [recordMemoryAccess(type)] before it looks
    at [type]: for a type that is none of [MEMORY_READ], [MEMORY_WRITE],
    [MEMORY_READ_WRITE] it returns the sentinel, and the VM is the one
    [recordMemoryAccess] left, with the direction bits of [type] in
    [memoryLoggingLevel]. *)
Theorem addMemAccessCB_refused_after_recording (type : N)
    (f : InstCallbackFn) (data : DataPtr) (s : VM) :
  memAccessSupported = true ->
  type <> MEMORY_READ -> type <> MEMORY_WRITE -> type <> MEMORY_READ_WRITE ->
  addMemAccessCB type (Some f) data s
    = (INVALID_EVENTID, snd (recordMemoryAccess type s))
  /\ memoryLoggingLevel (snd (addMemAccessCB type (Some f) data s))
     = N.lor (memoryLoggingLevel s) (N.land type MEMORY_READ_WRITE).
Proof.
  intros Hs H1 H2 H3.
  assert (E : addMemAccessCB type (Some f) data s
              = (INVALID_EVENTID, snd (recordMemoryAccess type s))).
  { unfold addMemAccessCB.
    rewrite (proj2 (N.eqb_neq _ _) H1), (proj2 (N.eqb_neq _ _) H2),
      (proj2 (N.eqb_neq _ _) H3). reflexivity. }
  split; [exact E | ]. rewrite E. cbn [snd].
  destruct (recordMemoryAccess_steps type s Hs) as (_ & L). exact L.
Qed.

Lemma wrap_rword_last : wrap_rword (2 ^ rword_bits - 1 + 1) = 0.
Proof.
  unfold wrap_rword.
  assert (H : 2 ^ rword_bits <> 0) by (apply N.pow_nonzero; discriminate).
  rewrite N.sub_add by lia. now apply N.Div0.mod_same.
Qed.

(** X3. [addMemAddrCB] passes the range [[address, address + 1)] with the
    end computed in [rword]: at the last address of the address space the
    end wraps to 0, and the call is refused with the VM unchanged,
    whatever the type and the callback. *)
Theorem addMemAddrCB_last_address (type : N) (cbk : InstCallback)
    (data : DataPtr) (s : VM) :
  addMemAddrCB (2 ^ rword_bits - 1) type cbk data s = (INVALID_EVENTID, s).
Proof.
  unfold addMemAddrCB. destruct cbk as [f|]; [ | reflexivity].
  rewrite wrap_rword_last. unfold addMemRangeCB.
  now rewrite (proj2 (N.ltb_ge _ _) (N.le_0_l _)).
Qed.

(** X4. Once [memCBID] has reached [EVENTID_VIRTCB_MASK], [addMemRangeCB]
    on valid arguments returns the sentinel and registers no entry, but
    the steps before the test on the id have run: [memCBID] has moved on,
    and the gate the type needs has been asked of the engine. *)
Theorem addMemRangeCB_ids_exhausted (start end_ type : N)
    (f : InstCallbackFn) (data : DataPtr) (s : VM) :
  start < end_ -> N.land type MEMORY_READ_WRITE <> 0 ->
  EVENTID_VIRTCB_MASK <= memCBID s ->
  fst (addMemRangeCB start end_ type (Some f) data s) = INVALID_EVENTID
  /\ memCBInfos (snd (addMemRangeCB start end_ type (Some f) data s))
     = memCBInfos s
  /\ memCBID (snd (addMemRangeCB start end_ type (Some f) data s))
     = wrap32 (memCBID s + 1)
  /\ (EVENTID_VIRTCB_MASK <= INVALID_EVENTID ->
      eventIdCounter
        (engine (snd (addMemRangeCB start end_ type (Some f) data s)))
        < EVENTID_VIRTCB_MASK ->
      (type = MEMORY_READ ->
       memReadGateCBID (snd (addMemRangeCB start end_ type (Some f) data s))
         <> INVALID_EVENTID)
      /\ (N.land type MEMORY_WRITE <> 0 ->
          memWriteGateCBID (snd (addMemRangeCB start end_ type (Some f) data s))
            <> INVALID_EVENTID)).
Proof.
  intros Hlt Hty Hid.
  rewrite (addMemRangeCB_valid start end_ type f data s Hlt Hty). cbv zeta.
  rewrite (proj2 (N.ltb_ge _ _) Hid). cbn [fst snd].
  destruct (gate_step_trans _ _ _ (createReadGate_step type s)
              (createWriteGate_step type (createReadGate type s)))
    as (E1 & E2 & _).
  proj_simpl. split; [reflexivity | ]. split; [exact E1 | ].
  split; [reflexivity | ].
  intros Hs Hc. split.
  - intros ->. rewrite createWriteGate_other.
    apply createReadGate_created; [exact Hs | ].
    destruct (createWriteGate_step MEMORY_READ (createReadGate MEMORY_READ s))
      as (_ & _ & _ & _ & Hle).
    lia.
  - intros Hw. now apply createWriteGate_created.
Qed.

(** X5. Where the sentinel is the all-ones word, the last id that
    [addMemRangeCB] can hand out, [0x7fffffff | EVENTID_VIRTCB_MASK], is the
    sentinel itself: the callback is registered and the caller is told the
    registration failed; [deleteInstrumentation(INVALID_EVENTID)] then
    returns true. *)
Theorem last_memory_id_is_the_sentinel (start end_ type : N)
    (f : InstCallbackFn) (data : DataPtr) (s : VM) :
  INVALID_EVENTID = 2 ^ 32 - 1 ->
  start < end_ -> N.land type MEMORY_READ_WRITE <> 0 ->
  memCBID s = 2 ^ 31 - 1 ->
  fst (addMemRangeCB start end_ type (Some f) data s) = INVALID_EVENTID
  /\ memCBInfos (snd (addMemRangeCB start end_ type (Some f) data s))
     = memCBInfos s
       ++ [(2 ^ 31 - 1, mkMemCBInfo type (Range.mk start end_) f data)]
  /\ fst (deleteInstrumentation INVALID_EVENTID
            (snd (addMemRangeCB start end_ type (Some f) data s))) = true.
Proof.
  intros Hs Hlt Hty Hid.
  rewrite (addMemRangeCB_valid start end_ type f data s Hlt Hty). cbv zeta.
  rewrite Hid. change (2 ^ 31 - 1 <? EVENTID_VIRTCB_MASK) with true.
  cbn [fst snd]. proj_simpl.
  rewrite Hs. split; [reflexivity | ]. split; [reflexivity | ].
  unfold deleteInstrumentation.
  change (negb (N.land (2 ^ 32 - 1) EVENTID_VIRTCB_MASK =? 0)) with true.
  change (N.ldiff (2 ^ 32 - 1) EVENTID_VIRTCB_MASK) with (2 ^ 31 - 1).
  cbv iota. proj_simpl.
  destruct (erase_first_In (2 ^ 31 - 1)
              (memCBInfos s
               ++ [(2 ^ 31 - 1, mkMemCBInfo type (Range.mk start end_) f data)]))
    as [l ->]; [ | reflexivity].
  rewrite ids_app, in_app_iff. right. now left.
Qed.

End RefusalFacts.

(** ** What the gates forward, and in which order *)

Lemma StronglySorted_snoc (l : list nat) (a : nat) :
  StronglySorted lt l -> Forall (fun x => (x < a)%nat) l ->
  StronglySorted lt (l ++ [a]).
Proof.
  induction 1 as [|x l Hl IH Hx]; intros Ha; cbn.
  - constructor; constructor.
  - inversion Ha as [|? ? Hxa Hla]; subst. constructor; [now apply IH | ].
    apply Forall_app. split; [exact Hx | now constructor].
Qed.

Section GateOrder.

Context {P : Platform} {U : UserCode}.

(** The log of the forwarding loop: the entries before position
    [length pre] have been tested, [infos] are still to test. *)
Lemma gateLoop_log fires infos : forall pre w action log,
  StronglySorted lt (map call_index log) ->
  Forall (fun c => (call_index c < List.length pre)%nat
                   /\ exists info, nth_error (pre ++ infos) (call_index c)
                                   = Some (call_id c, info)) log ->
  StronglySorted lt
    (called (gateLoop fires infos (List.length pre) w action log))
  /\ Forall (fun c => exists info, nth_error (pre ++ infos) (call_index c)
                                   = Some (call_id c, info))
       (gate_calls (gateLoop fires infos (List.length pre) w action log)).
Proof.
  unfold called, gate_calls.
  induction infos as [|x rest IH]; intros pre w action log Hs Hl;
    cbn [gateLoop snd].
  - split; [exact Hs | ]. revert Hl. apply Forall_impl. now intros c [_ H].
  - assert (E : pre ++ x :: rest = (pre ++ [x]) ++ rest)
      by now rewrite <- app_assoc.
    assert (L : S (List.length pre) = List.length (pre ++ [x]))
      by (rewrite length_app; cbn; lia).
    assert (Hl' : Forall (fun c => (call_index c < List.length (pre ++ [x]))%nat
                     /\ exists info, nth_error ((pre ++ [x]) ++ rest) (call_index c)
                                     = Some (call_id c, info)) log).
    { revert Hl. apply Forall_impl. intros c [H1 H2]. rewrite <- E, <- L.
      split; [lia | exact H2]. }
    rewrite E, L.
    destruct (fires (snd x)).
    + destruct (invoke (mc_cbk (snd x)) (mc_data (snd x)) w) as [ret w'].
      apply IH.
      * rewrite map_app. apply StronglySorted_snoc; [exact Hs | ].
        rewrite Forall_map. revert Hl. apply Forall_impl. now intros c [H _].
      * apply Forall_app. split; [exact Hl' | ].
        constructor; [ | constructor]. cbn [call_index call_id]. split.
        -- rewrite <- L. lia.
        -- exists (snd x). rewrite <- E, nth_error_app2, Nat.sub_diag by lia.
           cbn. now destruct x.
    + now apply IH.
Qed.

(** X6. Each gate forwards to the entries of [memCBInfos] in the order of
    the vector, which is the order of registration, and to no entry twice:
    the indices of the calls it makes increase strictly, and each call
    carries the id of the entry at its index. *)
Theorem gates_forward_in_registration_order (vm : VM) (w : World) :
  (StronglySorted lt (called (memReadGate vm w))
   /\ Forall (fun c => exists info, nth_error (memCBInfos vm) (call_index c)
                                    = Some (call_id c, info))
        (gate_calls (memReadGate vm w)))
  /\ (StronglySorted lt (called (memWriteGate vm w))
      /\ Forall (fun c => exists info, nth_error (memCBInfos vm) (call_index c)
                                       = Some (call_id c, info))
           (gate_calls (memWriteGate vm w))).
Proof.
  unfold memReadGate, memWriteGate. cbv zeta.
  split; apply (gateLoop_log _ (memCBInfos vm) [] w CONTINUE []);
    constructor.
Qed.

(** A gate forwards to the entry at index [j] exactly when its test
    holds of that entry. *)
Lemma gateLoop_called_at fires infos w j x :
  nth_error infos j = Some x ->
  In j (called (gateLoop fires infos 0 w CONTINUE [])) <-> fires (snd x) = true.
Proof.
  intros Hx. rewrite gateLoop_called. cbn [map In]. rewrite Nat.sub_0_r.
  split.
  - intros [[]|(y & _ & H1 & H2)]. congruence.
  - intros H. right. exists x. repeat split; [lia | exact Hx | exact H].
Qed.

(** X8. No entry is served by both gates: what [memReadGate] forwards to
    has type [MEMORY_READ], which [memWriteGate] passes over, whatever the
    accesses are. *)
Theorem gates_never_share_an_entry (vm : VM) (w w' : World) (j : nat) :
  In j (called (memReadGate vm w)) -> ~ In j (called (memWriteGate vm w')).
Proof.
  unfold memReadGate, memWriteGate. cbv zeta.
  rewrite !gateLoop_called. cbn [map In].
  intros [[]|(x & _ & Hx & Fx)] [[]|(y & _ & Hy & Fy)].
  rewrite Hx in Hy. injection Hy as <-.
  unfold readGateFires in Fx. unfold writeGateFires in Fy.
  apply andb_true_iff in Fx. destruct Fx as [Fx _].
  apply N.eqb_eq in Fx. rewrite Fx in Fy. discriminate Fy.
Qed.

(** X9. [addMemRangeCB] accepts any type with a direction bit.  A type
    that has [MEMORY_READ] without being equal to it, and has no
    [MEMORY_WRITE] (5, say), gets an id and an entry, but creates no gate
    and is passed over by both gates: its callback is never called. *)
Theorem unmatched_type_is_never_called (start end_ type : N)
    (f : InstCallbackFn) (data : DataPtr) (s : VM) (w : World) :
  start < end_ -> N.land type MEMORY_READ_WRITE <> 0 ->
  type <> MEMORY_READ -> N.land type MEMORY_WRITE = 0 ->
  memCBID s < EVENTID_VIRTCB_MASK ->
  fst (addMemRangeCB start end_ type (Some f) data s)
    = N.lor (memCBID s) EVENTID_VIRTCB_MASK
  /\ snd (addMemRangeCB start end_ type (Some f) data s)
     = with_memCBInfos
         (memCBInfos s
          ++ [(memCBID s, mkMemCBInfo type (Range.mk start end_) f data)])
         (with_memCBID (wrap32 (memCBID s + 1)) s)
  /\ ~ In (List.length (memCBInfos s))
          (called (memReadGate
                     (snd (addMemRangeCB start end_ type (Some f) data s)) w))
  /\ ~ In (List.length (memCBInfos s))
          (called (memWriteGate
                     (snd (addMemRangeCB start end_ type (Some f) data s)) w)).
Proof.
  intros Hlt Hty Hr Hw Hid.
  rewrite (addMemRangeCB_valid start end_ type f data s Hlt Hty). cbv zeta.
  rewrite (proj2 (N.ltb_lt _ _) Hid). cbn [fst snd].
  assert (G : createWriteGate type (createReadGate type s) = s).
  { unfold createWriteGate, createReadGate.
    rewrite (proj2 (N.eqb_neq _ _) Hr). cbn [andb].
    rewrite (proj2 (N.eqb_eq _ _) Hw). reflexivity. }
  rewrite G. split; [reflexivity | ]. split; [reflexivity | ].
  set (x := (memCBID s, mkMemCBInfo type (Range.mk start end_) f data)).
  assert (Hx : nth_error (memCBInfos s ++ [x]) (List.length (memCBInfos s))
               = Some x)
    by (rewrite nth_error_app2, Nat.sub_diag by lia; reflexivity).
  unfold memReadGate, memWriteGate. cbv zeta. proj_simpl.
  rewrite !(gateLoop_called_at _ _ w _ x Hx).
  unfold readGateFires, writeGateFires. cbn [snd x mc_type mc_range].
  rewrite (proj2 (N.eqb_neq _ _) Hr), (proj2 (N.eqb_eq _ _) Hw).
  assert (H3 : (type =? MEMORY_READ_WRITE) = false).
  { apply N.eqb_neq. intros ->. discriminate Hw. }
  rewrite H3. cbn. split; discriminate.
Qed.

End GateOrder.

(** ** Deleting memory-range callbacks *)

Lemma with_memCBInfos_id (s : VM) : with_memCBInfos (memCBInfos s) s = s.
Proof. now destruct s. Qed.

Section ErasedFacts.
Context {A : Type}.
Implicit Types (l : list (N * A)) (id : N).

Lemma erased_cons id x l :
  erased id (x :: l) = if fst x =? id then l else x :: erased id l.
Proof.
  unfold erased. cbn [erase_first].
  destruct (fst x =? id); [reflexivity | ]. now destruct (erase_first id l).
Qed.

Lemma found_cons id x l : found id (x :: l) = (fst x =? id) || found id l.
Proof.
  unfold found. cbn [erase_first]. destruct (fst x =? id); [reflexivity | ].
  now destruct (erase_first id l).
Qed.

(** Erasing one id does not change whether another is found, and two
    erasures of different ids can be done in either order. *)
Lemma erased_other id1 id2 l :
  id1 <> id2 ->
  found id2 (erased id1 l) = found id2 l
  /\ erased id2 (erased id1 l) = erased id1 (erased id2 l).
Proof.
  intros Hne. induction l as [|x l [IH1 IH2]]; [split; reflexivity | ].
  destruct (fst x =? id1) eqn:E1, (fst x =? id2) eqn:E2;
    repeat (rewrite ?erased_cons, ?found_cons, ?E1, ?E2); cbn [orb].
  - apply N.eqb_eq in E1, E2. congruence.
  - split; reflexivity.
  - split; reflexivity.
  - rewrite IH1, IH2. split; reflexivity.
Qed.

(** The scan stops at the first entry with the id. *)
Lemma erase_first_split id (a : A) l1 l2 :
  ~ In id (ids l1) -> erase_first id (l1 ++ (id, a) :: l2) = Some (l1 ++ l2).
Proof.
  induction l1 as [|x l1 IH]; cbn; intros H.
  - now rewrite N.eqb_refl.
  - destruct (N.eqb_spec (fst x) id) as [E|E]; [exfalso; apply H; now left | ].
    rewrite IH; [reflexivity | intros F; apply H; now right].
Qed.

End ErasedFacts.

Section DeletionFacts.

Context {P : Platform}.

Lemma deleteInstrumentation_mem (k : N) (s : VM) :
  N.testbit k 31 = true ->
  deleteInstrumentation k s
  = (found (N.ldiff k EVENTID_VIRTCB_MASK) (memCBInfos s),
     with_memCBInfos (erased (N.ldiff k EVENTID_VIRTCB_MASK) (memCBInfos s)) s).
Proof.
  intros Hk. unfold deleteInstrumentation, erased, found.
  rewrite land_mask_testbit, Hk. cbn [negb].
  destruct (erase_first _ (memCBInfos s)); [reflexivity | ].
  now rewrite with_memCBInfos_id.
Qed.

(** X10. [deleteInstrumentation] of a memory id erases the first entry of
    [memCBInfos] that carries the id and nothing else: the entries before
    and after it stay, in their order.  When no entry carries the id it
    returns false and the VM is unchanged. *)
Theorem deleteInstrumentation_erases_one_entry (k : N) (s : VM) :
  N.testbit k 31 = true ->
  (forall l1 info l2,
      memCBInfos s = l1 ++ (N.ldiff k EVENTID_VIRTCB_MASK, info) :: l2 ->
      ~ In (N.ldiff k EVENTID_VIRTCB_MASK) (ids l1) ->
      deleteInstrumentation k s = (true, with_memCBInfos (l1 ++ l2) s))
  /\ (~ In (N.ldiff k EVENTID_VIRTCB_MASK) (ids (memCBInfos s)) ->
      deleteInstrumentation k s = (false, s)).
Proof.
  intros Hk. rewrite (deleteInstrumentation_mem k s Hk). unfold erased, found.
  split.
  - intros l1 info l2 E H. now rewrite E, erase_first_split.
  - intros H. apply erase_first_None in H. rewrite H.
    now rewrite with_memCBInfos_id.
Qed.

(** X11. Deletions of two different memory ids do not interfere: each
    returns what it would have returned alone, and the VM they leave does
    not depend on their order. *)
Theorem memory_deletions_commute (k1 k2 : N) (s : VM) :
  N.testbit k1 31 = true -> N.testbit k2 31 = true ->
  N.ldiff k1 EVENTID_VIRTCB_MASK <> N.ldiff k2 EVENTID_VIRTCB_MASK ->
  fst (deleteInstrumentation k2 (snd (deleteInstrumentation k1 s)))
    = fst (deleteInstrumentation k2 s)
  /\ fst (deleteInstrumentation k1 (snd (deleteInstrumentation k2 s)))
     = fst (deleteInstrumentation k1 s)
  /\ snd (deleteInstrumentation k2 (snd (deleteInstrumentation k1 s)))
     = snd (deleteInstrumentation k1 (snd (deleteInstrumentation k2 s))).
Proof.
  intros H1 H2 Hne.
  rewrite !(deleteInstrumentation_mem k1 _ H1), !(deleteInstrumentation_mem k2 _ H2).
  cbn [fst snd]. proj_simpl.
  destruct (erased_other _ _ (memCBInfos s) Hne) as [F1 C].
  destruct (erased_other _ _ (memCBInfos s) (not_eq_sym Hne)) as [F2 _].
  rewrite F1, F2, C. destruct s. repeat split.
Qed.

(** X12. [deleteAllInstrumentations] empties [memCBInfos] and resets both
    gate ids and the logging level, but not [memCBID]: afterwards no
    memory id can be deleted, and the next memory-range registration
    continues the numbering instead of starting again at 0. *)
Theorem deleteAllInstrumentations_keeps_numbering (s : VM) :
  (forall k, N.testbit k 31 = true ->
             deleteInstrumentation k (deleteAllInstrumentations s)
             = (false, deleteAllInstrumentations s))
  /\ memReadGateCBID (deleteAllInstrumentations s) = INVALID_EVENTID
  /\ memWriteGateCBID (deleteAllInstrumentations s) = INVALID_EVENTID
  /\ memoryLoggingLevel (deleteAllInstrumentations s) = 0
  /\ (forall start end_ type f data,
         start < end_ -> N.land type MEMORY_READ_WRITE <> 0 ->
         memCBID s < EVENTID_VIRTCB_MASK ->
         fst (addMemRangeCB start end_ type (Some f) data
                (deleteAllInstrumentations s))
           = N.lor (memCBID s) EVENTID_VIRTCB_MASK
         /\ memCBInfos (snd (addMemRangeCB start end_ type (Some f) data
                               (deleteAllInstrumentations s)))
            = [(memCBID s, mkMemCBInfo type (Range.mk start end_) f data)]).
Proof.
  split; [ | split; [reflexivity | split; [reflexivity | split; [reflexivity | ]]]].
  - intros k Hk. rewrite (deleteInstrumentation_mem k _ Hk).
    unfold deleteAllInstrumentations. reflexivity.
  - intros start end_ type f data Hlt Hty Hid.
    rewrite (addMemRangeCB_valid start end_ type f data _ Hlt Hty). cbv zeta.
    change (memCBID (deleteAllInstrumentations s)) with (memCBID s).
    rewrite (proj2 (N.ltb_lt _ _) Hid). split; reflexivity.
Qed.

(** *** The records of the C rule callbacks *)

Lemma addInstrRuleRangeC_record start end_ cbk type data s :
  instrCBInfos (snd (addInstrRuleRangeC start end_ cbk type data s))
  = instrCBInfos s
    ++ [(fst (addInstrRuleRangeC start end_ cbk type data s),
         mkInstrCBInfo (Range.mk start end_) cbk type data)].
Proof.
  unfold addInstrRuleRangeC, addInstrRuleRange. cbv zeta.
  destruct (engine_addInstrRule_frame
              (InstrRuleUser InstrCBGateCFn type
                 (InstrCBInfoPtr (mkInstrCBInfo (Range.mk start end_) cbk type data))
                 (RangeSet.add (Range.mk start end_) RangeSet.empty)) s)
    as (_ & _ & _ & _ & H).
  destruct (engine_addInstrRule _ s) as [id s1]. proj_simpl. now rewrite H.
Qed.

Lemma deleteInstrumentation_records (id : N) (s : VM) :
  instrCBInfos (snd (deleteInstrumentation id s))
  = if N.testbit id 31 then instrCBInfos s else remove_id id (instrCBInfos s).
Proof.
  unfold deleteInstrumentation. rewrite land_mask_testbit.
  destruct (N.testbit id 31); cbn [negb].
  - now destruct (erase_first _ (memCBInfos s)).
  - destruct (Engine_deleteInstrumentation id _) as [b e]. reflexivity.
Qed.

Lemma remove_id_app {A} id (l t : list (N * A)) :
  remove_id id (l ++ t) = remove_id id l ++ remove_id id t.
Proof. apply filter_app. Qed.

(** X13. The C variants of [addInstrRule] and [addInstrRuleRange] append
    a record [(id, InstrCBInfo)] to [instrCBInfos] with the id the engine
    returned, without testing it ([addInstrRule] is [addInstrRuleRange] on
    the range [[0, (rword)-1)]).  For an id with bit 31 clear that no older
    record carries, [deleteInstrumentation(id)] removes the record again; a
    record whose id has bit 31 set (an all-ones sentinel, when the engine
    refused the rule) survives every [deleteInstrumentation]. *)
Theorem c_rule_record_lifetime (start end_ cbk type data : N) (s : VM) :
  instrCBInfos (snd (addInstrRuleRangeC start end_ cbk type data s))
  = instrCBInfos s
    ++ [(fst (addInstrRuleRangeC start end_ cbk type data s),
         mkInstrCBInfo (Range.mk start end_) cbk type data)]
  /\ (N.testbit (fst (addInstrRuleRangeC start end_ cbk type data s)) 31 = false ->
      ~ In (fst (addInstrRuleRangeC start end_ cbk type data s))
           (ids (instrCBInfos s)) ->
      instrCBInfos
        (snd (deleteInstrumentation
                (fst (addInstrRuleRangeC start end_ cbk type data s))
                (snd (addInstrRuleRangeC start end_ cbk type data s))))
      = instrCBInfos s)
  /\ (N.testbit (fst (addInstrRuleRangeC start end_ cbk type data s)) 31 = true ->
      forall id,
        In (fst (addInstrRuleRangeC start end_ cbk type data s),
            mkInstrCBInfo (Range.mk start end_) cbk type data)
           (instrCBInfos
              (snd (deleteInstrumentation id
                      (snd (addInstrRuleRangeC start end_ cbk type data s))))))
  /\ addInstrRuleC cbk type data s
     = addInstrRuleRangeC 0 (wrap_rword (2 ^ rword_bits - 1)) cbk type data s.
Proof.
  pose proof (addInstrRuleRangeC_record start end_ cbk type data s) as R.
  split; [exact R | ]. split; [ | split; [ | reflexivity]].
  - intros Hk Hfresh. rewrite deleteInstrumentation_records, Hk, R, remove_id_app.
    rewrite (remove_id_fresh _ _ Hfresh). unfold remove_id. cbn.
    rewrite N.eqb_refl. cbn. apply app_nil_r.
  - intros Hk id. rewrite deleteInstrumentation_records, R.
    destruct (N.testbit id 31) eqn:Hid.
    + apply in_or_app. right. now left.
    + unfold remove_id. apply filter_In. split.
      * apply in_or_app. right. now left.
      * apply negb_true_iff, N.eqb_neq. intros E. cbn [fst] in E.
        rewrite <- E in Hid. congruence.
Qed.

End DeletionFacts.

(** * Event ids and the dispatch of [deleteInstrumentation] *)

Section DispatchFacts.

Context {P : Platform}.

(** What a registration that returned an id has appended: a memory-range
    registration the entry [(memCBID, info)], an engine-rule registration
    the rule [(k, rule)], last in its table. *)
Lemma register_entry op s k s' :
  register op s = (k, s') -> k <> INVALID_EVENTID ->
  (is_mem_range_registration op = true
   /\ memCBID s < EVENTID_VIRTCB_MASK
   /\ k = N.lor (memCBID s) EVENTID_VIRTCB_MASK
   /\ exists info, memCBInfos s' = memCBInfos s ++ [(memCBID s, info)])
  \/ (is_mem_range_registration op = false
      /\ k < EVENTID_VIRTCB_MASK
      /\ memCBInfos s' = memCBInfos s
      /\ (is_engine_rule_registration op = true ->
          exists rules rule, instrRules (engine s') = rules ++ [(k, rule)])).
Proof.
  intros E Hk.
  assert (F : forall rule s0 k0 s1,
             engine_addInstrRule rule s0 = (k0, s1) -> k0 <> INVALID_EVENTID ->
             k0 < EVENTID_VIRTCB_MASK /\ memCBInfos s1 = memCBInfos s0
             /\ exists rules rule', instrRules (engine s1) = rules ++ [(k0, rule')]).
  { intros rule s0 k0 s1 E' Hk0.
    destruct (engine_addInstrRule_cases rule s0) as [[Hlt E2]|[_ E2]];
      rewrite E2 in E'; injection E' as <- <-; [ | contradiction].
    split; [exact Hlt | ]. split; [reflexivity | ]. proj_simpl. eauto. }
  assert (M : forall st en ty cbk data,
             addMemRangeCB st en ty cbk data s = (k, s') ->
             memCBID s < EVENTID_VIRTCB_MASK
             /\ k = N.lor (memCBID s) EVENTID_VIRTCB_MASK
             /\ exists info, memCBInfos s' = memCBInfos s ++ [(memCBID s, info)]).
  { intros st en ty cbk data E'.
    destruct (N.ltb_spec st en) as [Hlt|Hge];
      [ | unfold addMemRangeCB in E'; rewrite (proj2 (N.ltb_ge _ _) Hge) in E';
          injection E' as <- <-; contradiction].
    destruct (N.eq_dec (N.land ty MEMORY_READ_WRITE) 0) as [Hty|Hty];
      [unfold addMemRangeCB in E';
       rewrite (proj2 (N.ltb_lt _ _) Hlt), (proj2 (N.eqb_eq _ _) Hty) in E';
       injection E' as <- <-; contradiction | ].
    destruct cbk as [f|];
      [ | unfold addMemRangeCB in E';
          rewrite (proj2 (N.ltb_lt _ _) Hlt), (proj2 (N.eqb_neq _ _) Hty) in E';
          injection E' as <- <-; contradiction].
    rewrite (addMemRangeCB_valid st en ty f data s Hlt Hty) in E'. cbv zeta in E'.
    destruct (N.ltb_spec (memCBID s) EVENTID_VIRTCB_MASK) as [Hid|Hid];
      injection E' as <- <-; [ | contradiction].
    split; [exact Hid | ]. split; [reflexivity | ]. proj_simpl. eauto. }
  assert (R : forall k0 s1, k0 < EVENTID_VIRTCB_MASK /\ memCBInfos s1 = memCBInfos s
                            /\ (exists rules rule',
                                   instrRules (engine s1) = rules ++ [(k0, rule')]) ->
              k0 < EVENTID_VIRTCB_MASK /\ memCBInfos s1 = memCBInfos s
              /\ (true = true ->
                  exists rules rule', instrRules (engine s1) = rules ++ [(k0, rule')])).
  { intros k0 s1 (H1 & H2 & H3). repeat split; auto. }
  destruct op as
    [cbk ty data|cbk ty data|st en cbk ty data|st en cbk ty data|range cbk ty data|mnemonic pos cbk data|pos cbk data|address pos cbk data|st en pos cbk data|ty cbk data|address ty cbk data|st en ty cbk data|mask cbk data];
    cbn [register is_mem_range_registration is_engine_rule_registration] in *.
  - right. split; [reflexivity | ]. apply R. eapply F; eassumption.
  - right. split; [reflexivity | ]. apply R. unfold addInstrRuleC, addInstrRule in E.
    destruct (engine_addInstrRule _ s) as [id s1] eqn:E1.
    injection E as <- <-. proj_simpl. eapply F; eassumption.
  - right. split; [reflexivity | ]. apply R. eapply F; eassumption.
  - right. split; [reflexivity | ]. apply R.
    unfold addInstrRuleRangeC, addInstrRuleRange in E.
    destruct (engine_addInstrRule _ s) as [id s1] eqn:E1.
    injection E as <- <-. proj_simpl. eapply F; eassumption.
  - right. split; [reflexivity | ]. apply R. eapply F; eassumption.
  - right. split; [reflexivity | ]. apply R. unfold addMnemonicCB in E.
    destruct mnemonic; [ | injection E as <- <-; contradiction].
    destruct cbk; [eapply F; eassumption | injection E as <- <-; contradiction].
  - right. split; [reflexivity | ]. apply R. unfold addCodeCB in E.
    destruct cbk; [eapply F; eassumption | injection E as <- <-; contradiction].
  - right. split; [reflexivity | ]. apply R. unfold addCodeAddrCB in E.
    destruct cbk; [eapply F; eassumption | injection E as <- <-; contradiction].
  - right. split; [reflexivity | ]. apply R. unfold addCodeRangeCB in E.
    destruct (st <? en); cbn [negb] in E; [ | injection E as <- <-; contradiction].
    destruct cbk; [eapply F; eassumption | injection E as <- <-; contradiction].
  - right. split; [reflexivity | ]. apply R.
    destruct cbk as [f|]; [ | injection E as <- <-; contradiction].
    destruct (addMemAccessCB_cases ty f data s) as [[rule E']|[E' _]];
      rewrite E' in E; [ | injection E as <- <-; contradiction].
    destruct (F _ _ _ _ E Hk) as (H1 & H2 & H3).
    split; [exact H1 | ]. split; [ | exact H3].
    rewrite H2. apply (recordMemoryAccess_frame ty s).
  - left. split; [reflexivity | ]. unfold addMemAddrCB in E.
    destruct cbk; [eapply M, E | injection E as <- <-; contradiction].
  - left. split; [reflexivity | eapply M, E].
  - right. split; [reflexivity | ]. unfold addVMEventCB, Engine_addVMEventCB in E.
    destruct (mask =? 0); [injection E as <- <-; contradiction | ].
    destruct cbk; [ | injection E as <- <-; contradiction].
    destruct (N.ltb_spec (eventIdCounter (engine s)) EVENTID_VIRTCB_MASK);
      injection E as <- <-; [ | contradiction].
    split; [assumption | ]. split; [reflexivity | discriminate].
Qed.

(** The engine's deletion, on its rule table. *)
Lemma Engine_delete_rule (e : Engine) id r1 rule r2 :
  instrRules e = r1 ++ (id, rule) :: r2 -> ~ In id (ids r1) ->
  Engine_deleteInstrumentation id e = (true, Engine_with_rules (r1 ++ r2) e).
Proof.
  intros E H. unfold Engine_deleteInstrumentation.
  now rewrite E, (erase_first_split id rule r1 r2 H).
Qed.

(** C4. An id returned by a successful memory-range registration has bit
    31 set and is, with the bit masked off, the id of an entry of
    [memCBInfos]; an id returned by a successful engine-rule registration
    has bit 31 clear and is the id of a rule of the engine.
    [deleteInstrumentation] dispatches on that bit.  With the bit set it
    removes from [memCBInfos] the first entry that carries the id (the
    entries before and after it stay) and returns true, or returns false
    and changes nothing when there is none; the engine is not touched.
    With the bit clear it leaves [memCBInfos] alone and passes the id to
    the engine, whose answer it returns: a rule with this id is removed
    from the engine's table. *)
Theorem msb_separates_event_ids :
  (forall op s k s',
      register op s = (k, s') -> k <> INVALID_EVENTID ->
      (is_mem_range_registration op = true ->
       N.testbit k 31 = true
       /\ In (N.ldiff k EVENTID_VIRTCB_MASK) (ids (memCBInfos s')))
      /\ (is_engine_rule_registration op = true ->
          N.testbit k 31 = false /\ In k (ids (instrRules (engine s')))))
  /\ (forall id s,
         N.testbit id 31 = true ->
         engine (snd (deleteInstrumentation id s)) = engine s
         /\ (forall l1 info l2,
                memCBInfos s = l1 ++ (N.ldiff id EVENTID_VIRTCB_MASK, info) :: l2 ->
                ~ In (N.ldiff id EVENTID_VIRTCB_MASK) (ids l1) ->
                deleteInstrumentation id s = (true, with_memCBInfos (l1 ++ l2) s))
         /\ (~ In (N.ldiff id EVENTID_VIRTCB_MASK) (ids (memCBInfos s)) ->
             deleteInstrumentation id s = (false, s)))
  /\ (forall id s,
         N.testbit id 31 = false ->
         memCBInfos (snd (deleteInstrumentation id s)) = memCBInfos s
         /\ fst (deleteInstrumentation id s)
            = fst (Engine_deleteInstrumentation id (engine s))
         /\ engine (snd (deleteInstrumentation id s))
            = snd (Engine_deleteInstrumentation id (engine s))
         /\ (forall r1 rule r2,
                instrRules (engine s) = r1 ++ (id, rule) :: r2 ->
                ~ In id (ids r1) ->
                fst (deleteInstrumentation id s) = true
                /\ instrRules (engine (snd (deleteInstrumentation id s)))
                   = r1 ++ r2)).
Proof.
  split; [ | split].
  - intros op s k s' E Hk.
    destruct (register_entry op s k s' E Hk)
      as [(Hm & Hid & -> & info & Hi)|(Hm & Hlt & _ & Hr)].
    + split.
      * intros _. split; [apply lor_mask_testbit | ].
        rewrite (ldiff_lor_mask _ Hid), Hi, ids_app. apply in_or_app.
        right. now left.
      * destruct op; cbn in Hm |- *; congruence.
    + split; [congruence | ]. intros He. split.
      * apply testbit_below. now rewrite <- mask_value.
      * destruct (Hr He) as (rules & rule & ->). rewrite ids_app.
        apply in_or_app. right. now left.
  - intros id s Hid. rewrite (deleteInstrumentation_mem id s Hid).
    unfold erased, found. cbn [fst snd]. split; [reflexivity | ]. split.
    + intros l1 info l2 E H. now rewrite E, erase_first_split.
    + intros H. apply erase_first_None in H. rewrite H.
      now rewrite with_memCBInfos_id.
  - intros id s Hid. unfold deleteInstrumentation.
    rewrite land_mask_testbit, Hid. cbn [negb].
    destruct (Engine_deleteInstrumentation id _) as [b e] eqn:E.
    proj_simpl.
    split; [reflexivity | ]. split; [reflexivity | ]. split; [reflexivity | ].
    intros r1 rule r2 Hr H. rewrite (Engine_delete_rule _ id r1 rule r2 Hr H) in E.
    injection E as <- <-. split; reflexivity.
Qed.

End DispatchFacts.

(** * The lifetime of an id *)

Section OccurrenceFacts.
Context {A : Type}.
Implicit Types (l : list (N * A)) (id : N).

Lemma occurrences_cons id x l :
  occurrences id (x :: l)
  = ((if (fst x =? id)%N then 1 else 0) + occurrences id l)%nat.
Proof. unfold occurrences. cbn [filter]. now destruct (fst x =? id). Qed.

Lemma occurrences_app id l t :
  occurrences id (l ++ t) = (occurrences id l + occurrences id t)%nat.
Proof. unfold occurrences. now rewrite filter_app, length_app. Qed.

Lemma occurrences_below id c l :
  Forall (fun i => i < c) (ids l) -> c <= id -> occurrences id l = 0%nat.
Proof.
  intros H Hc. induction l as [|x l IH]; [reflexivity | ].
  cbn [ids map] in H. inversion H as [|? ? Hx Hl]; subst.
  rewrite occurrences_cons, (IH Hl).
  destruct (N.eqb_spec (fst x) id); [lia | reflexivity].
Qed.

Lemma occurrences_erased id id' l :
  occurrences id (erased id' l)
  = if id =? id' then Nat.pred (occurrences id l) else occurrences id l.
Proof.
  destruct (N.eqb_spec id id') as [<-|Hne];
    induction l as [|x l IH]; try reflexivity;
    rewrite erased_cons, (occurrences_cons id x l).
  - destruct (N.eqb_spec (fst x) id) as [E|E]; [reflexivity | ].
    rewrite occurrences_cons, IH.
    destruct (N.eqb_spec (fst x) id); [contradiction | reflexivity].
  - destruct (N.eqb_spec (fst x) id') as [E|E].
    + destruct (N.eqb_spec (fst x) id); [congruence | reflexivity].
    + now rewrite occurrences_cons, IH.
Qed.

Lemma found_occurrences id l :
  found id l = negb (Nat.eqb (occurrences id l) 0).
Proof.
  induction l as [|x l IH]; [reflexivity | ].
  rewrite found_cons, occurrences_cons, IH.
  now destruct (fst x =? id).
Qed.

End OccurrenceFacts.

Section IdLifetime.

Context {P : Platform}.

Lemma ldiff_mask_inj (a b : N) :
  N.testbit a 31 = true -> N.testbit b 31 = true ->
  N.ldiff a EVENTID_VIRTCB_MASK = N.ldiff b EVENTID_VIRTCB_MASK -> a = b.
Proof.
  intros Ha Hb E. apply N.bits_inj. intros n.
  destruct (N.eq_dec n 31) as [->|Hn]; [congruence | ].
  assert (T : N.testbit (N.ldiff a EVENTID_VIRTCB_MASK) n
              = N.testbit (N.ldiff b EVENTID_VIRTCB_MASK) n) by now rewrite E.
  rewrite mask_value, !N.ldiff_spec, N.pow2_bits_false in T by congruence.
  now rewrite !andb_true_r in T.
Qed.

(** The engine's deletion, by what it finds. *)
Lemma Engine_deleteInstrumentation_found (id : N) (e : Engine) :
  fst (Engine_deleteInstrumentation id e)
  = found id (instrRules e) || found id (vmCallbacks e)
  /\ instrRules (snd (Engine_deleteInstrumentation id e)) = erased id (instrRules e)
  /\ vmCallbacks (snd (Engine_deleteInstrumentation id e))
     = (if found id (instrRules e) then vmCallbacks e
        else erased id (vmCallbacks e))
  /\ eventIdCounter (snd (Engine_deleteInstrumentation id e)) = eventIdCounter e.
Proof.
  unfold Engine_deleteInstrumentation, found, erased.
  destruct (erase_first id (instrRules e)); [now repeat split | ].
  destruct (erase_first id (vmCallbacks e)); now repeat split.
Qed.

Lemma steady_refl id s : steady id s s.
Proof. intros H. now split. Qed.

Lemma steady_trans id s1 s2 s3 : steady id s1 s2 -> steady id s2 s3 -> steady id s1 s3.
Proof.
  intros H12 H23 H1. destruct (H12 H1) as [H2 E2]. destruct (H23 H2) as [H3 E3].
  split; [exact H3 | congruence].
Qed.

(** Only the two registries and their counters matter. *)
Lemma steady_same id s s' s'' :
  memCBInfos s'' = memCBInfos s' -> memCBID s'' = memCBID s' ->
  engine s'' = engine s' -> steady id s s' -> steady id s s''.
Proof.
  intros E1 E2 E3 H Hs. destruct (H Hs) as [H1 H2].
  unfold handed_out, registrations in *. rewrite E1, E2, E3. now split.
Qed.

Lemma engine_addInstrRule_steady id rule s :
  steady id s (snd (engine_addInstrRule rule s)).
Proof.
  destruct (engine_addInstrRule_cases rule s) as [[Hlt ->]|[_ ->]];
    [ | apply steady_refl].
  unfold steady, handed_out, registrations. proj_simpl.
  destruct (N.testbit id 31); [now split | ].
  intros H. split; [lia | ].
  rewrite occurrences_app, occurrences_cons. cbn [fst].
  destruct (N.eqb_spec (eventIdCounter (engine s)) id); [lia | ].
  cbn. lia.
Qed.

Lemma addInstrRules_steady id rules s : steady id s (addInstrRules rules s).
Proof.
  unfold addInstrRules. revert s.
  induction rules as [|r rs IH]; intros s; cbn [fold_left]; [apply steady_refl | ].
  eapply steady_trans; [apply (engine_addInstrRule_steady id r) | apply IH].
Qed.

Lemma with_memoryLoggingLevel_steady id l s : steady id s (with_memoryLoggingLevel l s).
Proof. apply (steady_same id s s); [reflexivity .. | apply steady_refl]. Qed.

Lemma recordMemoryAccess_steady id type s :
  steady id s (snd (recordMemoryAccess type s)).
Proof.
  unfold recordMemoryAccess.
  destruct memAccessSupported; cbn [negb snd]; [ | apply steady_refl].
  name_read_logging s1.
  assert (H1 : steady id s s1).
  { subst s1. destruct (_ && _); [ | apply steady_refl].
    eapply steady_trans;
      [apply with_memoryLoggingLevel_steady | apply addInstrRules_steady]. }
  clearbody s1. destruct (_ && _); [ | exact H1].
  eapply steady_trans; [exact H1 | ].
  eapply steady_trans;
    [apply with_memoryLoggingLevel_steady | apply addInstrRules_steady].
Qed.

Lemma addMemAccessCB_steady id type cbk data s :
  steady id s (snd (addMemAccessCB type cbk data s)).
Proof.
  destruct cbk as [f|]; [ | apply steady_refl].
  destruct (addMemAccessCB_cases type f data s) as [[rule ->]|[-> _]].
  - eapply steady_trans;
      [apply recordMemoryAccess_steady | apply engine_addInstrRule_steady].
  - apply recordMemoryAccess_steady.
Qed.

Lemma createReadGate_steady id type s : steady id s (createReadGate type s).
Proof.
  unfold createReadGate. destruct (_ && _); [ | apply steady_refl].
  pose proof (addMemAccessCB_steady id MEMORY_READ (Some memReadGateFn)
                MemCBInfosPtr s) as H.
  destruct (addMemAccessCB _ _ _ s) as [g s'].
  apply (steady_same id s s'); [reflexivity .. | exact H].
Qed.

Lemma createWriteGate_steady id type s : steady id s (createWriteGate type s).
Proof.
  unfold createWriteGate. destruct (_ && _); [ | apply steady_refl].
  pose proof (addMemAccessCB_steady id MEMORY_READ_WRITE (Some memWriteGateFn)
                MemCBInfosPtr s) as H.
  destruct (addMemAccessCB _ _ _ s) as [g s'].
  apply (steady_same id s s'); [reflexivity .. | exact H].
Qed.

Lemma addMemRangeCB_steady id start end_ type cbk data s :
  memCBID s + 1 < 2 ^ 32 ->
  steady id s (snd (addMemRangeCB start end_ type cbk data s)).
Proof.
  intros Hc.
  destruct (N.ltb_spec start end_) as [Hlt|Hge];
    [ | unfold addMemRangeCB; rewrite (proj2 (N.ltb_ge _ _) Hge);
        apply steady_refl].
  destruct (N.eq_dec (N.land type MEMORY_READ_WRITE) 0) as [Hty|Hty];
    [unfold addMemRangeCB;
     rewrite (proj2 (N.ltb_lt _ _) Hlt), (proj2 (N.eqb_eq _ _) Hty);
     apply steady_refl | ].
  destruct cbk as [f|];
    [ | unfold addMemRangeCB;
        rewrite (proj2 (N.ltb_lt _ _) Hlt), (proj2 (N.eqb_neq _ _) Hty);
        apply steady_refl].
  rewrite (addMemRangeCB_valid start end_ type f data s Hlt Hty). cbv zeta.
  pose proof (steady_trans id _ _ _ (createReadGate_steady id type s)
                (createWriteGate_steady id type (createReadGate type s))) as G.
  destruct (gate_step_trans _ _ _ (createReadGate_step type s)
              (createWriteGate_step type (createReadGate type s)))
    as (M1 & M2 & _).
  set (s2 := createWriteGate type (createReadGate type s)) in *. clearbody s2.
  intros Hs. destruct (G Hs) as [G1 G2].
  unfold handed_out, registrations in *.
  rewrite wrap32_small by exact Hc.
  destruct (memCBID s <? EVENTID_VIRTCB_MASK); proj_simpl;
    destruct (N.testbit id 31).
  - rewrite M2 in G1. split; [lia | ].
    rewrite occurrences_app, occurrences_cons. cbn [fst].
    destruct (N.eqb_spec (memCBID s) (N.ldiff id EVENTID_VIRTCB_MASK)); [lia | ].
    rewrite <- G2, M1. cbn. lia.
  - now split.
  - rewrite M2 in G1. split; [lia | exact G2].
  - now split.
Qed.

Lemma addVMEventCB_steady id mask cbk data s :
  steady id s (snd (addVMEventCB mask cbk data s)).
Proof.
  unfold addVMEventCB, Engine_addVMEventCB.
  destruct (mask =? 0); [apply steady_refl | ].
  destruct cbk; [ | apply steady_refl].
  destruct (N.ltb_spec (eventIdCounter (engine s)) EVENTID_VIRTCB_MASK);
    [ | cbn [snd]; rewrite with_engine_id; apply steady_refl].
  unfold steady, handed_out, registrations. proj_simpl.
  destruct (N.testbit id 31); [now split | ].
  intros H0. split; [lia | ].
  rewrite occurrences_app, occurrences_cons. cbn [fst].
  destruct (N.eqb_spec (eventIdCounter (engine s)) id); [lia | ].
  cbn. lia.
Qed.

(** No registration touches an id that was handed out before. *)
Lemma register_steady id op s :
  memCBID s + 1 < 2 ^ 32 -> steady id s (snd (register op s)).
Proof.
  intros Hc.
  assert (F := engine_addInstrRule_steady id).
  destruct op as
    [cbk ty data|cbk ty data|st en cbk ty data|st en cbk ty data|range cbk ty data|mnemonic pos cbk data|pos cbk data|address pos cbk data|st en pos cbk data|ty cbk data|address ty cbk data|st en ty cbk data|mask cbk data];
    cbn [register].
  - apply F.
  - unfold addInstrRuleC, addInstrRule.
    match goal with |- context [engine_addInstrRule ?r s] =>
      specialize (F r s); destruct (engine_addInstrRule r s) as [k s1] end.
    apply (steady_same id s s1); [reflexivity .. | exact F].
  - apply F.
  - unfold addInstrRuleRangeC, addInstrRuleRange.
    match goal with |- context [engine_addInstrRule ?r s] =>
      specialize (F r s); destruct (engine_addInstrRule r s) as [k s1] end.
    apply (steady_same id s s1); [reflexivity .. | exact F].
  - apply F.
  - unfold addMnemonicCB. destruct mnemonic; [ | apply steady_refl].
    destruct cbk; [apply F | apply steady_refl].
  - unfold addCodeCB. destruct cbk; [apply F | apply steady_refl].
  - unfold addCodeAddrCB. destruct cbk; [apply F | apply steady_refl].
  - unfold addCodeRangeCB. destruct (st <? en); cbn [negb]; [ | apply steady_refl].
    destruct cbk; [apply F | apply steady_refl].
  - apply addMemAccessCB_steady.
  - unfold addMemAddrCB. destruct cbk; [now apply addMemRangeCB_steady | apply steady_refl].
  - now apply addMemRangeCB_steady.
  - apply addVMEventCB_steady.
Qed.

(** What [deleteInstrumentation] does to the ids: it returns whether it
    finds the id, which is then found once less; any other id is found as
    often as before. *)
Lemma deleteInstrumentation_count (id k : N) (s : VM) :
  fst (deleteInstrumentation id s) = negb (Nat.eqb (registrations id s) 0)
  /\ registrations k (snd (deleteInstrumentation id s))
     = (if k =? id then Nat.pred (registrations k s) else registrations k s)
  /\ (handed_out k s -> handed_out k (snd (deleteInstrumentation id s))).
Proof.
  unfold deleteInstrumentation, registrations, handed_out.
  rewrite land_mask_testbit, negb_involutive.
  destruct (N.testbit id 31) eqn:Hid.
  - pose proof (found_occurrences (N.ldiff id EVENTID_VIRTCB_MASK) (memCBInfos s)) as Fo.
    pose proof (occurrences_erased (N.ldiff k EVENTID_VIRTCB_MASK)
                  (N.ldiff id EVENTID_VIRTCB_MASK) (memCBInfos s)) as Er.
    unfold found, erased in Fo, Er.
    destruct (erase_first _ (memCBInfos s)) as [l|]; proj_simpl.
    + split; [exact Fo | ]. split; [ | now destruct (N.testbit k 31)].
      destruct (N.testbit k 31) eqn:Hk.
      * rewrite Er. destruct (N.eqb_spec k id) as [->|Hne]; [now rewrite N.eqb_refl | ].
        destruct (N.eqb_spec (N.ldiff k EVENTID_VIRTCB_MASK)
                    (N.ldiff id EVENTID_VIRTCB_MASK)) as [E|_]; [ | reflexivity].
        exfalso. apply Hne. now apply ldiff_mask_inj.
      * destruct (N.eqb_spec k id) as [->|_]; [congruence | reflexivity].
    + split; [exact Fo | ]. split; [ | now destruct (N.testbit k 31)].
      destruct (N.eqb_spec k id) as [->|_]; [ | reflexivity].
      rewrite Hid. destruct (occurrences _ _); [reflexivity | discriminate Fo].
  - proj_simpl.
    destruct (Engine_deleteInstrumentation_found id (engine s)) as (D1 & D2 & D3 & D4).
    destruct (Engine_deleteInstrumentation id (engine s)) as [b e]. proj_simpl.
    subst b. rewrite D2, D3, D4, !found_occurrences.
    split; [now destruct (occurrences id (instrRules (engine s))),
                         (occurrences id (vmCallbacks (engine s))) | ].
    split; [ | now destruct (N.testbit k 31)].
    destruct (N.testbit k 31) eqn:Hk.
    + destruct (N.eqb_spec k id) as [->|_]; [congruence | reflexivity].
    + rewrite occurrences_erased.
      destruct (N.eqb_spec k id) as [->|Hne].
      * destruct (occurrences id (instrRules (engine s))) as [|n]; cbn [Nat.eqb negb].
        -- rewrite occurrences_erased, N.eqb_refl. reflexivity.
        -- cbn. reflexivity.
      * destruct (Nat.eqb _ 0); cbn [negb]; [ | reflexivity].
        rewrite occurrences_erased.
        destruct (N.eqb_spec k id); [contradiction | reflexivity].
Qed.

Lemma deleteAllInstrumentations_count (k : N) (s : VM) :
  registrations k (deleteAllInstrumentations s) = 0%nat
  /\ (handed_out k s -> handed_out k (deleteAllInstrumentations s)).
Proof.
  unfold registrations, handed_out, deleteAllInstrumentations,
    Engine_deleteAllInstrumentations. proj_simpl.
  destruct (N.testbit k 31); now split.
Qed.

(** The id a registration returns is that of one new instrumentation. *)
Lemma register_fresh op s k s' :
  registry_wf s -> register op s = (k, s') -> k <> INVALID_EVENTID ->
  handed_out k s' /\ registrations k s' = 1%nat.
Proof.
  intros Hwf E Hk.
  assert (F : forall rule s0 k0 s1 l,
             registry_wf s0 -> engine_addInstrRule rule s0 = (k0, s1) ->
             k0 <> INVALID_EVENTID ->
             handed_out k0 (with_instrCBInfos l s1)
             /\ registrations k0 (with_instrCBInfos l s1) = 1%nat).
  { intros rule s0 k0 s1 l (_ & Hr & Hv) E' Hk0.
    destruct (engine_addInstrRule_cases rule s0) as [[Hlt E2]|[_ E2]];
      rewrite E2 in E'; injection E' as <- <-; [ | contradiction].
    unfold handed_out, registrations. proj_simpl.
    rewrite mask_value in Hlt. rewrite (testbit_below _ 31 Hlt).
    split; [lia | ].
    rewrite occurrences_app, occurrences_cons. cbn [fst].
    rewrite N.eqb_refl, (occurrences_below _ _ _ Hr), (occurrences_below _ _ _ Hv)
      by lia. reflexivity. }
  assert (F0 : forall rule s0 k0 s1,
             registry_wf s0 -> engine_addInstrRule rule s0 = (k0, s1) ->
             k0 <> INVALID_EVENTID ->
             handed_out k0 s1 /\ registrations k0 s1 = 1%nat).
  { intros rule s0 k0 s1 H0 E' Hk0. rewrite <- (with_instrCBInfos_id s1).
    eapply F; eassumption. }
  assert (M : forall st en ty cbk data,
             addMemRangeCB st en ty cbk data s = (k, s') ->
             handed_out k s' /\ registrations k s' = 1%nat).
  { intros st en ty cbk data E'. destruct Hwf as (Hm & _).
    destruct (N.ltb_spec st en) as [Hlt|Hge];
      [ | unfold addMemRangeCB in E'; rewrite (proj2 (N.ltb_ge _ _) Hge) in E';
          injection E' as <- <-; contradiction].
    destruct (N.eq_dec (N.land ty MEMORY_READ_WRITE) 0) as [Hty|Hty];
      [unfold addMemRangeCB in E';
       rewrite (proj2 (N.ltb_lt _ _) Hlt), (proj2 (N.eqb_eq _ _) Hty) in E';
       injection E' as <- <-; contradiction | ].
    destruct cbk as [f|];
      [ | unfold addMemRangeCB in E';
          rewrite (proj2 (N.ltb_lt _ _) Hlt), (proj2 (N.eqb_neq _ _) Hty) in E';
          injection E' as <- <-; contradiction].
    rewrite (addMemRangeCB_valid st en ty f data s Hlt Hty) in E'. cbv zeta in E'.
    destruct (N.ltb_spec (memCBID s) EVENTID_VIRTCB_MASK) as [Hid|Hid];
      injection E' as <- <-; [ | contradiction].
    unfold handed_out, registrations. proj_simpl.
    rewrite lor_mask_testbit, (ldiff_lor_mask _ Hid).
    rewrite wrap32_small by (rewrite mask_value in Hid; lia).
    split; [lia | ].
    rewrite occurrences_app, occurrences_cons. cbn [fst].
    rewrite N.eqb_refl, (occurrences_below _ _ _ Hm) by lia. reflexivity. }
  destruct op as
    [cbk ty data|cbk ty data|st en cbk ty data|st en cbk ty data|range cbk ty data|mnemonic pos cbk data|pos cbk data|address pos cbk data|st en pos cbk data|ty cbk data|address ty cbk data|st en ty cbk data|mask cbk data];
    cbn [register] in E.
  - eapply F0; eassumption.
  - unfold addInstrRuleC, addInstrRule in E.
    destruct (engine_addInstrRule _ s) as [id s1] eqn:E1.
    injection E as <- <-. eapply F; eassumption.
  - eapply F0; eassumption.
  - unfold addInstrRuleRangeC, addInstrRuleRange in E.
    destruct (engine_addInstrRule _ s) as [id s1] eqn:E1.
    injection E as <- <-. eapply F; eassumption.
  - eapply F0; eassumption.
  - unfold addMnemonicCB in E.
    destruct mnemonic; [ | injection E as <- <-; contradiction].
    destruct cbk; [eapply F0; eassumption | injection E as <- <-; contradiction].
  - unfold addCodeCB in E.
    destruct cbk; [eapply F0; eassumption | injection E as <- <-; contradiction].
  - unfold addCodeAddrCB in E.
    destruct cbk; [eapply F0; eassumption | injection E as <- <-; contradiction].
  - unfold addCodeRangeCB in E.
    destruct (st <? en); cbn [negb] in E; [ | injection E as <- <-; contradiction].
    destruct cbk; [eapply F0; eassumption | injection E as <- <-; contradiction].
  - destruct cbk as [f|]; [ | injection E as <- <-; contradiction].
    destruct (addMemAccessCB_cases ty f data s) as [[rule E']|[E' _]];
      rewrite E' in E; [ | injection E as <- <-; contradiction].
    eapply F0; [apply (recordMemoryAccess_wf ty s Hwf) | exact E | exact Hk].
  - unfold addMemAddrCB in E.
    destruct cbk; [eapply M, E | injection E as <- <-; contradiction].
  - eapply M, E.
  - destruct Hwf as (_ & Hr & Hv). unfold addVMEventCB, Engine_addVMEventCB in E.
    destruct (mask =? 0); [injection E as <- <-; contradiction | ].
    destruct cbk; [ | injection E as <- <-; contradiction].
    destruct (N.ltb_spec (eventIdCounter (engine s)) EVENTID_VIRTCB_MASK) as [Hlt|_];
      injection E as <- <-; [ | contradiction].
    unfold handed_out, registrations. proj_simpl.
    rewrite mask_value in Hlt. rewrite (testbit_below _ 31 Hlt).
    split; [lia | ].
    rewrite occurrences_app, occurrences_cons. cbn [fst].
    rewrite N.eqb_refl, (occurrences_below _ _ _ Hr), (occurrences_below _ _ _ Hv)
      by lia. reflexivity.
Qed.

Lemma vmOps_memCBID ops : forall s,
  memCBID (vmOps ops s) <= memCBID s + N.of_nat (List.length ops).
Proof.
  unfold vmOps. induction ops as [|op ops IH]; intros s; cbn [fold_left List.length].
  - lia.
  - specialize (IH (vmOp op s)). pose proof (vmOp_memCBID op s). lia.
Qed.

(** While an id is neither deleted nor swept away by
    [deleteAllInstrumentations], it is found as often as before. *)
Lemma vmOps_steady k ops : forall s,
  ~ In (DoDelete k) ops -> ~ In DoDeleteAll ops ->
  memCBID s + N.of_nat (List.length ops) < 2 ^ 32 ->
  steady k s (vmOps ops s).
Proof.
  unfold vmOps. induction ops as [|op ops IH]; intros s Hd Ha Hc;
    cbn [fold_left]; [apply steady_refl | ].
  cbn [List.length] in Hc.
  assert (S1 : steady k s (vmOp op s)).
  { destruct op as [r|id|]; cbn [vmOp].
    - apply register_steady. lia.
    - intros Hs.
      destruct (deleteInstrumentation_count id k s) as (_ & D2 & D3).
      split; [now apply D3 | ]. rewrite D2.
      destruct (N.eqb_spec k id) as [->|_]; [ | reflexivity].
      exfalso. apply Hd. now left.
    - exfalso. apply Ha. now left. }
  eapply steady_trans; [exact S1 | ].
  apply IH.
  - intros F. apply Hd. now right.
  - intros F. apply Ha. now right.
  - pose proof (vmOp_memCBID op s). lia.
Qed.

(** An id that is handed out and no longer found is never found again. *)
Lemma vmOps_gone k ops : forall s,
  memCBID s + N.of_nat (List.length ops) < 2 ^ 32 ->
  handed_out k s -> registrations k s = 0%nat ->
  registrations k (vmOps ops s) = 0%nat.
Proof.
  unfold vmOps. induction ops as [|op ops IH]; intros s Hc Hs H0;
    cbn [fold_left]; [exact H0 | ].
  cbn [List.length] in Hc.
  assert (S1 : handed_out k (vmOp op s) /\ registrations k (vmOp op s) = 0%nat).
  { destruct op as [r|id|]; cbn [vmOp].
    - destruct (register_steady k r s ltac:(lia) Hs) as [H1 H2].
      split; [exact H1 | congruence].
    - destruct (deleteInstrumentation_count id k s) as (_ & D2 & D3).
      split; [now apply D3 | ]. rewrite D2, H0. now destruct (k =? id).
    - destruct (deleteAllInstrumentations_count k s) as [D1 D2].
      split; [now apply D2 | exact D1]. }
  destruct S1 as [S1 S2]. apply IH; [ | exact S1 | exact S2].
  pose proof (vmOp_memCBID op s). lia.
Qed.

(** X22. The id round trip along a run.  On a VM that is built and then
    sees fewer than [2 ^ 32 - 1] registrations and deletions in all, let a
    registration return an id [k] other than the sentinel.  After any
    further operations that neither delete [k] nor call
    [deleteAllInstrumentations], [deleteInstrumentation(k)] returns true;
    and from then on, whatever is registered or deleted,
    [deleteInstrumentation(k)] returns false: the id is not handed out a
    second time. *)
Theorem id_deleted_once (before mid later : list VMOp) (op : Registration)
    (k : N) (s' : VM) :
  N.of_nat (List.length before + List.length mid + List.length later) + 1 < 2 ^ 32 ->
  register op (vmOps before VM_new) = (k, s') ->
  k <> INVALID_EVENTID ->
  ~ In (DoDelete k) mid -> ~ In DoDeleteAll mid ->
  fst (deleteInstrumentation k (vmOps mid s')) = true
  /\ fst (deleteInstrumentation k
            (vmOps later (snd (deleteInstrumentation k (vmOps mid s'))))) = false.
Proof.
  intros Hn E Hk Hd Ha.
  assert (Hwf : registry_wf (vmOps before VM_new)).
  { apply vmOps_wf; [apply registry_wf_new | cbn [memCBID VM_new]; lia]. }
  destruct (register_fresh op _ k s' Hwf E Hk) as [H1 I1].
  assert (B0 : memCBID (vmOps before VM_new) <= N.of_nat (List.length before)).
  { pose proof (vmOps_memCBID before VM_new) as B. cbn [memCBID VM_new] in B. lia. }
  assert (B1 : memCBID s' <= N.of_nat (List.length before) + 1).
  { pose proof (register_memCBID op (vmOps before VM_new)) as B.
    rewrite E in B. cbn [snd] in B. lia. }
  assert (B2 : memCBID (vmOps mid s')
               <= N.of_nat (List.length before) + 1 + N.of_nat (List.length mid)).
  { pose proof (vmOps_memCBID mid s'). lia. }
  destruct (vmOps_steady k mid s' Hd Ha ltac:(lia) H1) as [H2 I2].
  rewrite I1 in I2.
  destruct (deleteInstrumentation_count k k (vmOps mid s'))
    as (D1 & D2 & D3).
  rewrite N.eqb_refl, I2 in D2. cbn [Nat.pred] in D2.
  split; [now rewrite D1, I2 | ].
  destruct (deleteInstrumentation_count k k
              (vmOps later (snd (deleteInstrumentation k (vmOps mid s')))))
    as (D4 & _).
  rewrite D4, vmOps_gone; [reflexivity | | now apply D3 | exact D2].
  rewrite deleteInstrumentation_memCBID. lia.
Qed.

End IdLifetime.

(** ** More on the memory-access queries *)

(** With the bound of the loop at the last [uint16_t] value, the test
    [itInstID <= bound] holds of every value the iterator can take. *)
Lemma bbLoop_never_leaves b instID preInst endInstID :
  N.min endInstID instID = 2 ^ 16 - 1 ->
  forall fuel it acc,
    it < 2 ^ 16 -> bbLoop fuel b instID preInst endInstID it acc = None.
Proof.
  intros Hb. induction fuel as [|fuel IH]; intros it acc Hit; cbn [bbLoop];
    [reflexivity | ].
  rewrite (proj2 (N.leb_le _ _)) by lia. apply IH.
  unfold wrap16. apply N.mod_lt. discriminate.
Qed.

(** X14. [getBBMemoryAccess] iterates with a [uint16_t] and tests
    [itInstID <= min(endInstID, instID)]: when that bound is 65535 the
    test never fails (the iterator wraps to 0), so the loop does not end,
    whatever number of iterations it is given. *)
Theorem getBBMemoryAccess_diverges_at_last_id (s : VM) (b : ExecBlock) :
  getCurExecBlock (engine s) = Some b ->
  N.min (getSeqEnd b (getCurrentSeqID b)) (getCurrentInstID b) = 2 ^ 16 - 1 ->
  getSeqStart b (getCurrentSeqID b) < 2 ^ 16 ->
  (forall fuel,
      bbLoop fuel b (getCurrentInstID b) (isPreInst (engine s))
        (getSeqEnd b (getCurrentSeqID b)) (getSeqStart b (getCurrentSeqID b)) []
      = None)
  /\ getBBMemoryAccess s = None.
Proof.
  intros Hb Hlast Hstart. split.
  - intros fuel. now apply bbLoop_never_leaves.
  - unfold getBBMemoryAccess. rewrite Hb. cbv zeta.
    now apply bbLoop_never_leaves.
Qed.

(** X15. Inside its sequence and below the last [uint16_t] value, what
    [getBBMemoryAccess] returns ends with what [getInstMemoryAccess]
    returns, after the accesses of the earlier instructions of the
    sequence; at the first instruction of the sequence the two queries
    agree. *)
Theorem getBBMemoryAccess_ends_with_getInstMemoryAccess (s : VM) (b : ExecBlock) :
  getCurExecBlock (engine s) = Some b ->
  getSeqStart b (getCurrentSeqID b) <= getCurrentInstID b ->
  getCurrentInstID b <= getSeqEnd b (getCurrentSeqID b) ->
  getCurrentInstID b < 2 ^ 16 - 1 ->
  getBBMemoryAccess s
  = Some (flat_map (fun i => instMemoryAccess b i true)
            (instIDs (getSeqStart b (getCurrentSeqID b))
               (N.to_nat (getCurrentInstID b - getSeqStart b (getCurrentSeqID b))))
          ++ getInstMemoryAccess s)
  /\ (getSeqStart b (getCurrentSeqID b) = getCurrentInstID b ->
      getBBMemoryAccess s = Some (getInstMemoryAccess s)).
Proof.
  intros Hb H1 H2 Hlast.
  unfold getBBMemoryAccess, getInstMemoryAccess, analyseMemoryAccess.
  rewrite Hb. cbv zeta.
  set (first := getSeqStart b (getCurrentSeqID b)) in *.
  set (instID := getCurrentInstID b) in *.
  set (endInstID := getSeqEnd b (getCurrentSeqID b)) in *.
  set (preInst := isPreInst (engine s)).
  assert (R : bbLoop uint16_fuel b instID preInst endInstID first []
              = Some (flat_map (fun i => instMemoryAccess b i true)
                        (instIDs first (N.to_nat (instID - first)))
                      ++ instMemoryAccess b instID (negb preInst))).
  { rewrite (bbLoop_runs b instID preInst endInstID ltac:(lia)
               (S (N.to_nat (instID - first)))) by (unfold uint16_fuel; lia).
    rewrite instIDs_snoc, flat_map_app. cbn [flat_map app].
    replace (first + N.of_nat (N.to_nat (instID - first))) with instID by lia.
    rewrite N.eqb_refl, app_nil_r. cbn [negb orb]. do 2 f_equal.
    apply flat_map_ext_In. intros i Hi. apply instIDs_In in Hi.
    rewrite (proj2 (N.eqb_neq i instID)) by lia. reflexivity. }
  split; [exact R | ].
  intros E. rewrite R, E, N.sub_diag. reflexivity.
Qed.

(** ** Copying a VM *)

Section CopyFacts.

Context {P : Platform}.

Lemma addInstrRuleRangeC_frame start end_ cbk type data s :
  memoryLoggingLevel (snd (addInstrRuleRangeC start end_ cbk type data s))
    = memoryLoggingLevel s
  /\ memCBInfos (snd (addInstrRuleRangeC start end_ cbk type data s)) = memCBInfos s
  /\ memCBID (snd (addInstrRuleRangeC start end_ cbk type data s)) = memCBID s
  /\ memReadGateCBID (snd (addInstrRuleRangeC start end_ cbk type data s))
     = memReadGateCBID s
  /\ memWriteGateCBID (snd (addInstrRuleRangeC start end_ cbk type data s))
     = memWriteGateCBID s.
Proof.
  unfold addInstrRuleRangeC, addInstrRuleRange. cbv zeta.
  match goal with
  | |- context [engine_addInstrRule ?r s] =>
      pose proof (engine_addInstrRule_frame r s) as (H1 & H2 & H3 & H4 & _);
      pose proof (engine_addInstrRule_level r s) as H0;
      destruct (engine_addInstrRule r s) as [id s1]
  end.
  proj_simpl. now repeat split.
Qed.

Lemma erased_fresh {A} id (t : list (N * A)) :
  ~ In id (ids t) -> erased id t = t.
Proof.
  induction t as [|y t IHt]; intros H; [reflexivity | ].
  rewrite erased_cons.
  destruct (N.eqb_spec (fst y) id) as [E|E]; [exfalso; apply H; now left | ].
  f_equal. apply IHt. intros F. apply H. now right.
Qed.

Lemma erased_app_fresh {A} id (l t : list (N * A)) :
  ~ In id (ids t) -> erased id (l ++ t) = erased id l ++ t.
Proof.
  intros H. induction l as [|x l IH].
  - cbn [app]. now rewrite erased_fresh.
  - cbn [app]. rewrite !erased_cons, IH. now destruct (fst x =? id).
Qed.

Lemma erased_all_app_fresh {A} (old : list N) (l t : list (N * A)) :
  Forall (fun id => ~ In id (ids t)) old ->
  fold_left (fun rs id => erased id rs) old (l ++ t)
  = fold_left (fun rs id => erased id rs) old l ++ t.
Proof.
  revert l. induction old as [|id old IH]; intros l H; [reflexivity | ].
  inversion H; subst. cbn [fold_left]. rewrite erased_app_fresh by assumption.
  now apply IH.
Qed.

(** One turn of the loop of the copy: the old id is deleted from the
    engine and the record is registered again. *)
Lemma VM_copy_turn (p : N * InstrCBInfo) (s : VM) :
  eventIdCounter (engine s) < EVENTID_VIRTCB_MASK ->
  let s' :=
    let (_, e) := Engine_deleteInstrumentation (fst p) (engine s) in
    snd (addInstrRuleRangeC
           (Range.start (ic_range (snd p))) (Range.end_ (ic_range (snd p)))
           (ic_cbk (snd p)) (ic_type (snd p)) (ic_data (snd p))
           (with_engine e s)) in
  instrCBInfos s' = instrCBInfos s ++ [(eventIdCounter (engine s), snd p)]
  /\ instrRules (engine s')
     = erased (fst p) (instrRules (engine s))
       ++ [recordRule (eventIdCounter (engine s), snd p)]
  /\ eventIdCounter (engine s') = eventIdCounter (engine s) + 1.
Proof.
  intros Hlt. apply N.ltb_lt in Hlt. destruct p as [k [[a b] cb ty da]].
  cbn [fst snd ic_range ic_cbk ic_type ic_data Range.start Range.end_].
  unfold Engine_deleteInstrumentation, erased, recordRule.
  destruct (erase_first k (instrRules (engine s))) as [rs|];
    [ | destruct (erase_first k (vmCallbacks (engine s))) as [cs|] ];
    unfold addInstrRuleRangeC, addInstrRuleRange, engine_addInstrRule,
      Engine_addInstrRule; proj_simpl; rewrite Hlt; proj_simpl;
    repeat split.
Qed.

(** X16. The copy of a VM registers the C rule callbacks again.  When the
    ids of the records of the original are below the counter of the copied
    engine and the engine has an id left for each of them, the copy has
    the records of the original in the same order, under new ids: those
    the counter hands out, one after the other.  The copied engine has
    lost, for each old id in turn, the first rule carrying it, and has got
    at its end one [InstrCBGateC] rule per new record, under the id of the
    record, with the record as data and on the range of the record.  The
    memory-range registry, [memCBID], the gate ids and the logging level
    are those of the original.  An assignment from another VM does the
    same; an assignment of a VM to itself leaves it without any record,
    while the rules of its engine stay. *)
Theorem VM_copy_registers_again (engine' : Engine) (vm : VM) :
  eventIdCounter engine' + N.of_nat (List.length (instrCBInfos vm))
    <= EVENTID_VIRTCB_MASK ->
  Forall (fun id => id < eventIdCounter engine') (ids (instrCBInfos vm)) ->
  instrCBInfos (VM_copy engine' vm)
  = combine (instIDs (eventIdCounter engine') (List.length (instrCBInfos vm)))
            (map snd (instrCBInfos vm))
  /\ instrRules (engine (VM_copy engine' vm))
     = fold_left (fun rs id => erased id rs) (ids (instrCBInfos vm))
         (instrRules engine')
       ++ map recordRule (instrCBInfos (VM_copy engine' vm))
  /\ eventIdCounter (engine (VM_copy engine' vm))
     = eventIdCounter engine' + N.of_nat (List.length (instrCBInfos vm))
  /\ memCBInfos (VM_copy engine' vm) = memCBInfos vm
  /\ memCBID (VM_copy engine' vm) = memCBID vm
  /\ memReadGateCBID (VM_copy engine' vm) = memReadGateCBID vm
  /\ memWriteGateCBID (VM_copy engine' vm) = memWriteGateCBID vm
  /\ memoryLoggingLevel (VM_copy engine' vm) = memoryLoggingLevel vm
  /\ VM_assign false engine' vm = VM_copy engine' vm
  /\ VM_assign true (engine vm) vm = with_instrCBInfos [] vm.
Proof.
  intros Hroom Hold.
  unfold VM_copy.
  set (step := fun (s : VM) (p : N * InstrCBInfo) =>
                 let (_, e) := Engine_deleteInstrumentation (fst p) (engine s) in
                 snd (addInstrRuleRangeC
                        (Range.start (ic_range (snd p))) (Range.end_ (ic_range (snd p)))
                        (ic_cbk (snd p)) (ic_type (snd p)) (ic_data (snd p))
                        (with_engine e s))).
  assert (G : forall records s,
    eventIdCounter (engine s) + N.of_nat (List.length records)
      <= EVENTID_VIRTCB_MASK ->
    Forall (fun id => id < eventIdCounter (engine s)) (ids records) ->
    let s' := fold_left step records s in
    instrCBInfos s'
    = instrCBInfos s
      ++ combine (instIDs (eventIdCounter (engine s)) (List.length records))
           (map snd records)
    /\ instrRules (engine s')
       = fold_left (fun rs id => erased id rs) (ids records) (instrRules (engine s))
         ++ map recordRule
              (combine (instIDs (eventIdCounter (engine s)) (List.length records))
                 (map snd records))
    /\ eventIdCounter (engine s')
       = eventIdCounter (engine s) + N.of_nat (List.length records)
    /\ memCBInfos s' = memCBInfos s /\ memCBID s' = memCBID s
    /\ memReadGateCBID s' = memReadGateCBID s
    /\ memWriteGateCBID s' = memWriteGateCBID s
    /\ memoryLoggingLevel s' = memoryLoggingLevel s).
  { induction records as [|p records IH]; intros s Hr Ho.
    - cbn. rewrite !app_nil_r, N.add_0_r. now repeat split.
    - cbn [fold_left List.length map ids instIDs combine].
      change (map fst records) with (ids records).
      cbn [List.length] in Hr. rewrite Nat2N.inj_succ in Hr.
      cbn [ids map] in Ho. inversion Ho as [|? ? Hp Ho']; subst.
      assert (Hlt : eventIdCounter (engine s) < EVENTID_VIRTCB_MASK) by lia.
      pose proof (VM_copy_turn p s Hlt) as T. cbv zeta in T.
      fold (step s p) in T. destruct T as (T1 & T2 & T3).
      assert (F : memCBInfos (step s p) = memCBInfos s
                  /\ memCBID (step s p) = memCBID s
                  /\ memReadGateCBID (step s p) = memReadGateCBID s
                  /\ memWriteGateCBID (step s p) = memWriteGateCBID s
                  /\ memoryLoggingLevel (step s p) = memoryLoggingLevel s).
      { unfold step.
        destruct (Engine_deleteInstrumentation (fst p) (engine s)) as [b e].
        destruct (addInstrRuleRangeC_frame
                    (Range.start (ic_range (snd p))) (Range.end_ (ic_range (snd p)))
                    (ic_cbk (snd p)) (ic_type (snd p)) (ic_data (snd p))
                    (with_engine e s)) as (F0 & F1 & F2 & F3 & F4).
        rewrite F0, F1, F2, F3, F4. now repeat split. }
      destruct F as (F1 & F2 & F3 & F4 & F5).
      specialize (IH (step s p)). rewrite T3 in IH.
      destruct IH as (I1 & I2 & I3 & I4 & I5 & I6 & I7 & I8).
      { lia. }
      { eapply Forall_impl; [ | exact Ho']. cbn beta. intros; lia. }
      rewrite I1, I2, I3, I4, I5, I6, I7, I8, T1, T2, F1, F2, F3, F4, F5.
      clear I1 I2 I3 I4 I5 I6 I7 I8.
      split; [now rewrite <- app_assoc | ].
      split; [ | split; [lia | now repeat split]].
      rewrite erased_all_app_fresh.
      + rewrite <- app_assoc. reflexivity.
      + eapply Forall_impl; [ | exact Ho']. cbn. intros id Hid [F|[]]. lia. }
  specialize (G (instrCBInfos vm)
                (mkVM engine' (memoryLoggingLevel vm) (memCBInfos vm) (memCBID vm)
                   (memReadGateCBID vm) (memWriteGateCBID vm) []) Hroom Hold).
  cbv zeta in G. proj_simpl. destruct G as (G1 & G2 & G3 & G4 & G5 & G6 & G7 & G8).
  rewrite G1, G2, G3, G4, G5, G6, G7, G8. cbn [app].
  repeat split.
Qed.

End CopyFacts.

(** ** An instruction without recorded accesses *)

Section IdleGates.

Context {P : Platform} {U : UserCode}.

Lemma gateLoop_idle fires infos : forall i w action log,
  (forall x, In x infos -> fires (snd x) = false) ->
  gateLoop fires infos i w action log = (action, w, log).
Proof.
  induction infos as [|x rest IH]; intros i w action log H; cbn [gateLoop];
    [reflexivity | ].
  rewrite (H x (or_introl eq_refl)). apply IH. intros y Hy. apply H. now right.
Qed.

(** X17. When the current instruction has no recorded access (and so
    whenever no block is executing), both gates return [CONTINUE] without
    calling any callback, whatever is registered. *)
Theorem gates_idle_without_accesses (vm : VM) (w : World) :
  getInstMemoryAccess vm = [] ->
  memReadGate vm w = (CONTINUE, w, [])
  /\ memWriteGate vm w = (CONTINUE, w, []).
Proof.
  intros H. unfold memReadGate, memWriteGate. rewrite H. cbv zeta.
  split; apply gateLoop_idle; intros x _.
  - unfold readGateFires. cbn. apply andb_false_r.
  - unfold writeGateFires. cbn. now rewrite !andb_false_r.
Qed.

End IdleGates.

(** * The gates when callbacks reach the VM *)

Section LiveGateFacts.

Context {P : Platform} {U : Live.UserCode}.

(** While the callbacks it forwards to leave the vector as it is, the
    loop ends within one turn per entry and one more, and forwards to the
    entry at index [j] exactly when the test holds of it. *)
Lemma live_gateLoop_steady fires infos :
  Forall (fun x => Live.keeps_registry (mc_cbk (snd x)) (mc_data (snd x))) infos ->
  forall n fuel i h w act log,
    memCBInfos (Live.this_vm h) = infos ->
    (i + n = List.length infos)%nat -> (n < fuel)%nat ->
    exists r,
      Live.gateLoop fuel fires Live.OwnRegistry i h w act log = Some r
      /\ memCBInfos (Live.this_vm (Live.heap r)) = infos
      /\ (forall j, In j (map call_index (Live.calls r))
                    <-> In j (map call_index log)
                        \/ ((i <= j)%nat
                            /\ exists x, nth_error infos j = Some x
                                         /\ fires (snd x) = true)).
Proof.
  intros Hk. induction n as [|n IH]; intros fuel i h w act log Hh Hn Hf;
    (destruct fuel as [|fuel]; [lia | ]); cbn [Live.gateLoop Live.registry];
    rewrite Hh.
  - rewrite (proj2 (nth_error_None infos i)) by lia.
    eexists. split; [reflexivity | ]. cbn [Live.heap Live.calls].
    split; [exact Hh | ]. intros j. split; [now left | ].
    intros [H|(Hj & x & Hx & _)]; [exact H | ].
    rewrite (proj2 (nth_error_None infos j)) in Hx by lia. discriminate.
  - destruct (nth_error infos i) as [x|] eqn:Hx;
      [ | apply nth_error_None in Hx; lia].
    assert (T : forall (j : nat) (Q : Prop),
               (j = i \/ ((S i <= j)%nat /\ Q)) <-> ((i <= j)%nat /\ (j = i \/ Q))).
    { intros j Q. split.
      - intros [->|[H1 H2]]; [split; [lia | now left] | split; [lia | now right]].
      - intros [H1 [->|H2]]; [now left | ].
        destruct (Nat.eq_dec j i) as [->|Hne]; [now left | right; split; [lia | exact H2]]. }
    destruct (fires (snd x)) eqn:F.
    + destruct (Live.invoke (mc_cbk (snd x)) (mc_data (snd x)) h w)
        as [[ret h'] w'] eqn:Ei.
      assert (Hh' : memCBInfos (Live.this_vm h') = infos).
      { rewrite Forall_forall in Hk.
        pose proof (Hk x (nth_error_In _ _ Hx) h w) as K.
        rewrite Ei in K. cbn [fst snd] in K. now rewrite K. }
      destruct (IH fuel (S i) h' w' (if VMAction_gt ret act then ret else act)
                  (log ++ [mkGateCall i (fst x) ret]) Hh' ltac:(lia) ltac:(lia))
        as (r & -> & Hr & Hc).
      exists r. split; [reflexivity | ]. split; [exact Hr | ].
      intros j. rewrite Hc, map_app, in_app_iff. cbn [map call_index In].
      split.
      * intros [[H|[H|[]]]|(Hj & y & Hy & Fy)]; [now left | | ].
        -- right. subst j. split; [lia | ]. exists x. now split.
        -- right. split; [lia | ]. exists y. now split.
      * intros [H|(Hj & y & Hy & Fy)]; [now left; left | ].
        destruct (Nat.eq_dec j i) as [->|Hne]; [left; right; now left | ].
        right. split; [lia | ]. exists y. now split.
    + destruct (IH fuel (S i) h w act log Hh ltac:(lia) ltac:(lia))
        as (r & -> & Hr & Hc).
      exists r. split; [reflexivity | ]. split; [exact Hr | ].
      intros j. rewrite Hc. split.
      * intros [H|(Hj & y & Hy & Fy)]; [now left | ].
        right. split; [lia | ]. exists y. now split.
      * intros [H|(Hj & y & Hy & Fy)]; [now left | ].
        destruct (Nat.eq_dec j i) as [->|Hne]; [congruence | ].
        right. split; [lia | ]. exists y. now split.
Qed.

(** X7. The filter of the two gates, for any registered entry with a
    non-empty range, on the vector of the VM itself and as long as the
    callbacks registered in it leave that vector as it is: the gates end,
    [memReadGate] forwards to the entry exactly when its type is
    [MEMORY_READ] and a read access of the current instruction meets its
    range; [memWriteGate] exactly when its type has [MEMORY_WRITE] and a
    write access meets its range, or its type is [MEMORY_READ_WRITE] and a
    read access meets its range.  The range of an access is the one the
    gates compute, its end taken in [rword]. *)
Theorem gates_forward_by_type_and_range (h : Live.Heap) (w : Live.World)
    (fuel j : nat) (id : N) (info : MemCBInfo) :
  nth_error (memCBInfos (Live.this_vm h)) j = Some (id, info) ->
  Range.start (mc_range info) < Range.end_ (mc_range info) ->
  Forall (fun x => Live.keeps_registry (mc_cbk (snd x)) (mc_data (snd x)))
    (memCBInfos (Live.this_vm h)) ->
  (List.length (memCBInfos (Live.this_vm h)) < fuel)%nat ->
  (exists r,
      Live.memReadGate fuel Live.OwnRegistry h w = Some r
      /\ (In j (map call_index (Live.calls r))
          <-> mc_type info = MEMORY_READ
              /\ exists m, In m (getInstMemoryAccess (Live.this_vm h))
                           /\ N.land (type m) MEMORY_READ <> 0
                           /\ Range.meets (accessRange m) (mc_range info)))
  /\ (exists r,
         Live.memWriteGate fuel Live.OwnRegistry h w = Some r
         /\ (In j (map call_index (Live.calls r))
             <-> (N.land (mc_type info) MEMORY_WRITE <> 0
                  /\ exists m, In m (getInstMemoryAccess (Live.this_vm h))
                               /\ N.land (type m) MEMORY_WRITE <> 0
                               /\ Range.meets (accessRange m) (mc_range info))
                 \/ (mc_type info = MEMORY_READ_WRITE
                     /\ exists m, In m (getInstMemoryAccess (Live.this_vm h))
                                  /\ N.land (type m) MEMORY_READ <> 0
                                  /\ Range.meets (accessRange m) (mc_range info)))).
Proof.
  intros Hj Hr Hk Hf.
  assert (A : forall fires,
             exists r,
               Live.gateLoop fuel fires Live.OwnRegistry 0 h w CONTINUE [] = Some r
               /\ (In j (map call_index (Live.calls r)) <-> fires info = true)).
  { intros fires.
    destruct (live_gateLoop_steady fires _ Hk
                (List.length (memCBInfos (Live.this_vm h))) fuel 0 h w CONTINUE []
                eq_refl eq_refl Hf) as (r & Er & _ & Hc).
    exists r. split; [exact Er | ]. rewrite Hc. cbn [map In]. split.
    - intros [[]|(_ & x & Hx & Fx)]. rewrite Hj in Hx. now injection Hx as <-.
    - intros F. right. split; [lia | ]. exists (id, info). now split. }
  unfold Live.memReadGate, Live.memWriteGate. cbv zeta. split.
  - destruct (A (readGateFires
                   (accessRanges MEMORY_READ (getInstMemoryAccess (Live.this_vm h)))))
      as (r & Er & Hc).
    exists r. split; [exact Er | ]. rewrite Hc. unfold readGateFires.
    rewrite <- (accessRanges_overlaps _ (getInstMemoryAccess (Live.this_vm h)) _ Hr).
    now rewrite andb_true_iff, N.eqb_eq.
  - destruct (A (writeGateFires
                   (accessRanges MEMORY_READ (getInstMemoryAccess (Live.this_vm h)))
                   (accessRanges MEMORY_WRITE (getInstMemoryAccess (Live.this_vm h)))))
      as (r & Er & Hc).
    exists r. split; [exact Er | ]. rewrite Hc. unfold writeGateFires.
    rewrite <- !(accessRanges_overlaps _ (getInstMemoryAccess (Live.this_vm h)) _ Hr).
    now rewrite orb_true_iff, !andb_true_iff, negb_true_iff, N.eqb_eq, N.eqb_neq.
Qed.

End LiveGateFacts.

(** With user code that does not use the VM, the loop of a gate on the
    vector of the VM is the loop over the entries as they were when the
    gate was entered. *)
Lemma quiet_gateLoop {P : Platform} (U : UserCode) fires vm other : forall infos pre fuel w act log,
  memCBInfos vm = pre ++ infos -> (List.length infos < fuel)%nat ->
  Live.gateLoop (U := quietUser U) fuel fires Live.OwnRegistry (List.length pre)
    (Live.mkHeap vm other) w act log
  = Some (Live.mkOutcome (U := quietUser U)
            (gate_action (gateLoop (U := U) fires infos (List.length pre) w act log))
            (Live.mkHeap vm other)
            (snd (fst (gateLoop (U := U) fires infos (List.length pre) w act log)))
            (gate_calls (gateLoop (U := U) fires infos (List.length pre) w act log))).
Proof.
  induction infos as [|x rest IH]; intros pre fuel w act log Hm Hf;
    (destruct fuel as [|fuel]; [cbn in Hf; lia | ]);
    cbn [Live.gateLoop Live.registry Live.this_vm gateLoop]; rewrite Hm.
  - rewrite app_nil_r, (proj2 (nth_error_None pre _)) by lia. reflexivity.
  - rewrite nth_error_app2, Nat.sub_diag by lia. cbn [nth_error].
    assert (E : pre ++ x :: rest = (pre ++ [x]) ++ rest)
      by now rewrite <- app_assoc.
    assert (L : S (List.length pre) = List.length (pre ++ [x]))
      by (rewrite length_app; cbn; lia).
    rewrite E in Hm. cbn [List.length] in Hf.
    destruct (fires (snd x)).
    + cbn [Live.invoke quietUser].
      destruct (invoke (mc_cbk (snd x)) (mc_data (snd x)) w) as [ret w'].
      rewrite L. apply IH; [exact Hm | lia].
    + rewrite L. apply IH; [exact Hm | lia].
Qed.

(** X24. With user code that does not use the VM it is handed, the two
    gates that read the vector again on every turn of their loop return
    within one turn per entry and one more, and return what the recursion
    over the vector found at entry returns: the same action, the same
    world, the same calls in the same order, and the VM as it was. *)
Theorem quiet_gates {P : Platform} (U : UserCode) (vm : VM) other (w : World) fuel :
  (List.length (memCBInfos vm) < fuel)%nat ->
  Live.memReadGate (U := quietUser U) fuel Live.OwnRegistry (Live.mkHeap vm other) w
  = Some (Live.mkOutcome (U := quietUser U)
            (gate_action (memReadGate vm w)) (Live.mkHeap vm other)
            (snd (fst (memReadGate vm w))) (gate_calls (memReadGate vm w)))
  /\ Live.memWriteGate (U := quietUser U) fuel Live.OwnRegistry (Live.mkHeap vm other) w
     = Some (Live.mkOutcome (U := quietUser U)
               (gate_action (memWriteGate vm w)) (Live.mkHeap vm other)
               (snd (fst (memWriteGate vm w))) (gate_calls (memWriteGate vm w))).
Proof.
  intros Hf. unfold Live.memReadGate, Live.memWriteGate, memReadGate, memWriteGate.
  cbv zeta. cbn [Live.this_vm].
  split; apply (quiet_gateLoop U _ vm other (memCBInfos vm) [] fuel w CONTINUE []
                  eq_refl Hf).
Qed.

(** C6.  A callback registered with [addMemRangeCB] on reads of a range
    is not called at every instruction with a read access that overlaps
    the range.  Two callbacks are registered on reads of [[4096, 8192)],
    and the instruction reads 8 bytes at 4100.  The first callback calls
    [deleteInstrumentation] on its own id: the entry of the second moves
    to index 0, the loop of [memReadGate] goes on at index 1, which is now
    the size of the vector, and the gate returns.  The second callback is
    not called, although a read access of the instruction overlaps its
    range: the only call is that of the entry at index 0 with id 0. *)
Lemma read_gate_skips_after_erase :
  nth_error (memCBInfos twoReadersVM) 1
    = Some (1, mkMemCBInfo MEMORY_READ (Range.mk 4096 8192) (UserInstCB 1) (UserData 0))
  /\ (exists m, In m (getInstMemoryAccess twoReadersVM)
                /\ N.land (type m) MEMORY_READ <> 0
                /\ Range.meets
                     (Range.mk (accessAddress m) (accessAddress m + size m))
                     (Range.mk 4096 8192))
  /\ forall fuel,
       (2 <= fuel)%nat ->
       exists r,
         Live.memReadGate (P := X86_64) (U := erasingUser) fuel Live.OwnRegistry
           (Live.mkHeap twoReadersVM []) 0 = Some r
         /\ Live.calls r = [mkGateCall 0 0 CONTINUE].
Proof.
  split; [reflexivity | ]. split.
  - exists (mkMemoryAccess 4194304 4100 0 8 MEMORY_READ).
    split; [now left | ]. split; [discriminate | ].
    exists 4100. unfold Range.contains. cbn. lia.
  - intros fuel Hf. destruct fuel as [|[|fuel]]; [lia | lia | ].
    eexists. split; reflexivity.
Qed.

(** The same on a copy: the gate of [copiedVM] walks the vector of
    [originalVM], which does not hold the callback registered on the copy;
    that callback is not called, although a read access meets its range. *)
Lemma copied_gate_reads_the_original :
  nth_error (memCBInfos copiedVM) 1
    = Some (1, mkMemCBInfo MEMORY_READ (Range.mk 4096 8192) (UserInstCB 1) (UserData 0))
  /\ memReadGateCBID copiedVM = memReadGateCBID originalVM
  /\ forall fuel,
       (2 <= fuel)%nat ->
       exists r,
         Live.memReadGate (P := X86_64) (U := erasingUser) fuel Live.OtherRegistry
           (Live.mkHeap copiedVM (memCBInfos originalVM)) 0 = Some r
         /\ Live.calls r = [mkGateCall 0 0 CONTINUE].
Proof.
  split; [reflexivity | ]. split; [reflexivity | ].
  intros fuel Hf. destruct fuel as [|[|fuel]]; [lia | lia | ].
  eexists. split; reflexivity.
Qed.

(** ** What holds of the gates whatever the callbacks do *)

Section LiveGateOutcome.

Context {P : Platform} {U : Live.UserCode}.




End LiveGateOutcome.



(** * Properties of [Utility/Memory_linux.cpp] *)

(** ** Characters and numbers *)

(** The character of a digit reads back as the digit, and is none of the
    characters the parser gives a meaning to. *)
Lemma digit_char_facts (d : N) :
  d < 16 ->
  digit_in 16 (digit_char d) = Some d
  /\ isspace (digit_char d) = false
  /\ (digit_char d =? "-")%char = false
  /\ (digit_char d =? "+")%char = false
  /\ (digit_char d =? "x")%char = false
  /\ (digit_char d =? "X")%char = false
  /\ (digit_char d =? NUL)%char = false
  /\ (digit_char d =? "010")%char = false
  /\ (d < 10 -> digit_in 10 (digit_char d) = Some d).
Proof.
  intros H.
  assert (E : d = 0 \/ d = 1 \/ d = 2 \/ d = 3 \/ d = 4 \/ d = 5 \/ d = 6
              \/ d = 7 \/ d = 8 \/ d = 9 \/ d = 10 \/ d = 11 \/ d = 12
              \/ d = 13 \/ d = 14 \/ d = 15) by lia.
  repeat (destruct E as [-> | E]); try subst d;
    (do 8 (split; [reflexivity | ])); intros L; first [reflexivity | lia].
Qed.

Lemma digit_char_in (base d : N) :
  base = 16 \/ base = 10 -> d < base -> digit_in base (digit_char d) = Some d.
Proof.
  intros [-> | ->] H.
  - apply digit_char_facts. exact H.
  - apply digit_char_facts; lia.
Qed.

Lemma skip_spaces_pad (pad : list ascii) (c : ascii) (r : list ascii) :
  Forall (fun a => isspace a = true) pad -> isspace c = false ->
  skip_spaces (pad ++ c :: r) = Some (c :: r).
Proof.
  intros Hp Hc. induction Hp as [|a pad Ha _ IH]; cbn [app skip_spaces].
  - now rewrite Hc.
  - now rewrite Ha.
Qed.

Lemma read_digits_text (base : N) (ds : list N) (c : ascii) (r : list ascii) :
  base = 16 \/ base = 10 ->
  Forall (fun d => d < base) ds -> digit_in base c = None ->
  forall acc,
    read_digits base (digits_text ds ++ c :: r) acc
    = Some (fold_left (fun a d => a * base + d) ds acc, c :: r).
Proof.
  intros Hb Hd Hc. induction Hd as [|d ds Hlt _ IH]; intros acc;
    cbn [digits_text map app read_digits fold_left].
  - now rewrite Hc.
  - rewrite (digit_char_in base d Hb Hlt). apply IH.
Qed.

Lemma plain_spec (c : ascii) :
  plain c = true -> (c =? NUL)%char = false /\ (c =? "010")%char = false.
Proof.
  unfold plain. rewrite andb_true_iff, !negb_true_iff. tauto.
Qed.

Lemma number_spec (base : N) (ds : list N) :
  number base ds = true -> ds <> [] /\ Forall (fun d => d < base) ds.
Proof.
  unfold number. rewrite andb_true_iff, negb_true_iff, forallb_forall, Forall_forall.
  intros [H1 H2]. split.
  - intros ->. discriminate H1.
  - intros d Hd. apply N.ltb_lt. now apply H2.
Qed.

Lemma digits_text_plain (ds : list N) :
  Forall (fun d => d < 16) ds -> forallb plain (digits_text ds) = true.
Proof.
  induction 1 as [|d ds Hd _ IH]; [reflexivity | ].
  cbn [digits_text map forallb]. unfold plain at 1.
  destruct (digit_char_facts d Hd) as (_ & _ & _ & _ & _ & _ & -> & -> & _).
  exact IH.
Qed.

Lemma Forall_lt_weaken (ds : list N) :
  Forall (fun d => d < 10) ds -> Forall (fun d => d < 16) ds.
Proof. apply Forall_impl. intros d. lia. Qed.

(** The newline that ends a line is overwritten by a terminator; a line
    without newline is left as it is. *)
Lemma remove_newline_text (text : list ascii) (newline : bool) (stale : list ascii) :
  forallb plain text = true ->
  remove_newline (text ++ (if newline then ["010"%char] else []) ++ NUL :: stale)
  = Some (text ++ NUL :: (if newline then [NUL] else []) ++ stale).
Proof.
  induction text as [|c text IH]; cbn [forallb app remove_newline].
  - intros _. now destruct newline.
  - rewrite andb_true_iff. intros [Hc Ht].
    destruct (plain_spec c Hc) as [-> ->]. now rewrite (IH Ht).
Qed.

Lemma c_str_text (s r : list ascii) :
  forallb plain s = true -> c_str (s ++ NUL :: r) = Some s.
Proof.
  induction s as [|c s IH]; cbn [forallb app c_str]; [reflexivity | ].
  rewrite andb_true_iff. intros [Hc Hs].
  destruct (plain_spec c Hc) as [-> _]. now rewrite (IH Hs).
Qed.

(** [strrchr] for ['/'] and the name behind the pointer it returns. *)
Lemma strrchr_baseName (s r : list ascii) :
  forallb plain s = true ->
  exists last,
    strrchr (s ++ NUL :: r) "/" = Some last
    /\ (existsb (Ascii.eqb "/"%char) s = false -> last = None /\ baseName s = [])
    /\ (existsb (Ascii.eqb "/"%char) s = true ->
        exists q, last = Some q /\ (let* q1 := incr q in c_str q1) = Some (baseName s)).
Proof.
  induction s as [|c s IH]; cbn [forallb app strrchr existsb baseName].
  - intros _. exists None. repeat split; discriminate.
  - rewrite andb_true_iff. intros [Hc Hs].
    destruct (plain_spec c Hc) as [-> _].
    destruct (IH Hs) as (last & -> & H0 & H1).
    destruct (existsb (Ascii.eqb "/"%char) s) eqn:E.
    + destruct (H1 eq_refl) as (q & -> & Hq). exists (Some q).
      split; [reflexivity | ]. split.
      * rewrite orb_true_r. discriminate.
      * intros _. exists q. now split.
    + destruct (H0 eq_refl) as [-> Hb]. rewrite orb_false_r.
      rewrite (Ascii.eqb_sym "/"%char c).
      destruct (c =? "/")%char eqn:Ec.
      * eexists. split; [reflexivity | ]. split; [discriminate | ].
        intros _. eexists. split; [reflexivity | ].
        cbn [incr]. now apply c_str_text.
      * exists None. repeat split; discriminate.
Qed.

Lemma existsb_slash (s : list ascii) :
  existsb (Ascii.eqb "/"%char) s = true <-> In "/"%char s.
Proof.
  rewrite existsb_exists. split.
  - intros (c & Hc & E). apply Ascii.eqb_eq in E. now subst.
  - intros H. exists "/"%char. split; [exact H | apply Ascii.eqb_refl].
Qed.

(** [baseName] is the part behind the last ['/']. *)
Lemma baseName_split (dir file : list ascii) :
  ~ In "/"%char file -> baseName (dir ++ "/"%char :: file) = file.
Proof.
  intros Hf.
  assert (F : existsb (Ascii.eqb "/"%char) file = false).
  { destruct (existsb _ file) eqn:E; [ | reflexivity].
    apply existsb_slash in E. contradiction. }
  induction dir as [|c dir IH]; cbn [app baseName].
  - now rewrite F.
  - rewrite IH.
    assert (T : existsb (Ascii.eqb "/"%char) (dir ++ "/"%char :: file) = true).
    { apply existsb_slash, in_or_app. right. now left. }
    now rewrite T.
Qed.

Lemma baseName_none (path : list ascii) : ~ In "/"%char path -> baseName path = [].
Proof.
  induction path as [|c path IH]; cbn [baseName]; intros H; [reflexivity | ].
  destruct (existsb _ path) eqn:E.
  - apply existsb_slash in E. exfalso. apply H. now right.
  - destruct (c =? "/")%char eqn:Ec; [ | reflexivity].
    apply Ascii.eqb_eq in Ec. exfalso. apply H. now left.
Qed.

Section MapsFacts.

Context {P : Platform}.

(** [strtoul] on the text of a number that is followed by a character
    which is no digit: the number is read (up to [ULONG_MAX]) and the
    pointer is left on that character. *)
Lemma strtoul_text (base : N) (ds : list N) (c : ascii) (r : list ascii) :
  base = 16 \/ base = 10 ->
  ds <> [] -> Forall (fun d => d < base) ds ->
  digit_in base c = None ->
  (c =? "x")%char = false -> (c =? "X")%char = false ->
  exists v,
    strtoul (digits_text ds ++ c :: r) base = Some (v, c :: r)
    /\ (digits_value base ds < 2 ^ rword_bits -> v = digits_value base ds).
Proof.
  intros Hb Hne Hd Hc Hx HX.
  destruct ds as [|d ds]; [contradiction | ].
  assert (Hd16 : d < 16) by (inversion Hd; subst; destruct Hb; subst; lia).
  destruct (digit_char_facts d Hd16) as (_ & Dsp & Dm & Dp & Dx & DX & _).
  assert (Din : digit_in base (digit_char d) = Some d)
    by (apply digit_char_in; [exact Hb | now inversion Hd]).
  unfold strtoul.
  cbn [digits_text map app skip_spaces]. rewrite Dsp.
  cbn [read_sign]. rewrite Dm, Dp.
  assert (Hp : read_prefix base (digit_char d :: map digit_char ds ++ c :: r)
               = Some (digit_char d :: map digit_char ds ++ c :: r)).
  { unfold read_prefix. destruct (base =? 16); [ | reflexivity].
    destruct ds as [|d' ds]; cbn [map app].
    - now rewrite Hx, HX, andb_false_r.
    - assert (Hd' : d' < 16)
        by (inversion Hd as [|? ? _ Hd2]; inversion Hd2; subst;
            destruct Hb; subst; lia).
      destruct (digit_char_facts d' Hd') as (_ & _ & _ & _ & Dx' & DX' & _).
      now rewrite Dx', DX', andb_false_r. }
  rewrite Hp. cbn [deref hd_error]. rewrite Din.
  change (digit_char d :: map digit_char ds ++ c :: r)
    with (digits_text (d :: ds) ++ c :: r).
  rewrite (read_digits_text base (d :: ds) c r Hb Hd Hc 0).
  fold (digits_value base (d :: ds)).
  eexists. split; [reflexivity | ].
  intros Hv. now rewrite (proj2 (N.leb_gt _ _) Hv).
Qed.

Lemma skip_spaces_number (pad : list ascii) (ds : list N) (t : list ascii) :
  Forall (fun a => isspace a = true) pad ->
  ds <> [] -> Forall (fun d => d < 16) ds ->
  skip_spaces (pad ++ digits_text ds ++ t) = Some (digits_text ds ++ t).
Proof.
  intros Hp Hne Hd. destruct ds as [|d ds]; [contradiction | ].
  cbn [digits_text map app]. apply skip_spaces_pad; [exact Hp | ].
  apply digit_char_facts. now inversion Hd.
Qed.

(** One call of [strtoul] in [parseLine], on the text of a number. *)
Ltac strtoul_step v Hv :=
  match goal with
  | |- context [strtoul (digits_text ?ds ++ ?c :: ?t) ?b] =>
      let E := fresh "E" in
      destruct (strtoul_text b ds c t) as (v & E & Hv);
      [ (now left) || (now right) | assumption | assumption
      | reflexivity | reflexivity | reflexivity | rewrite E; clear E ]
  end.

Ltac skip_space_step :=
  match goal with
  | |- context [skip_spaces (" "%char :: digits_text ?ds ++ ?t)] =>
      change (skip_spaces (" "%char :: digits_text ds ++ t))
        with (skip_spaces ([" "%char] ++ digits_text ds ++ t));
      rewrite (skip_spaces_number [" "%char] ds t)
        by (assumption || (repeat constructor))
  end.

(** The parse of the text of a well-formed line, whatever follows it in
    the buffer. *)
Lemma parseLine_text (full_path : bool) (start end_ : list N)
    (r w x p : ascii) (offset major minor inode : list N)
    (pad path : list ascii) (newline : bool) (stale : list ascii) :
  mapsLine_ok start end_ r w x p offset major minor inode pad path = true ->
  parseLine full_path
    (mapsLine start end_ r w x p offset major minor inode pad path
     ++ (if newline then ["010"%char] else []) ++ NUL :: stale)
  = Some (mkMemoryMap
            (Range.mk (digits_value 16 start) (digits_value 16 end_))
            (mkPermission (r =? "r")%char (w =? "w")%char (x =? "x")%char)
            (if full_path then path else baseName path),
          mapsLine start end_ r w x p offset major minor inode pad path
          ++ NUL :: (if newline then [NUL] else []) ++ stale).
Proof.
  intros Hok.
  unfold mapsLine_ok in Hok. rewrite !andb_true_iff in Hok.
  destruct Hok as ((((((((((((N1 & N2) & N3) & N4) & N5) & N6) & V1) & V2)
                       & Sr) & Fl) & Pd) & Pp) & Hpath).
  apply number_spec in N1, N2, N3, N4, N5, N6.
  destruct N1 as [E1 D1], N2 as [E2 D2], N3 as [E3 D3], N4 as [E4 D4],
    N5 as [E5 D5], N6 as [E6 D6].
  apply N.ltb_lt in V1, V2. apply negb_true_iff in Sr.
  cbn [forallb] in Fl. rewrite !andb_true_iff in Fl.
  destruct Fl as (Fr & Fw & Fx & Fp & _).
  assert (Hpad : Forall (fun a => isspace a = true) pad).
  { apply Forall_forall. intros a Ha. rewrite forallb_forall in Pd.
    apply Pd, Ascii.eqb_eq in Ha. now subst a. }
  (* the text holds no terminator and no newline *)
  assert (Htext : forallb plain
                    (mapsLine start end_ r w x p offset major minor inode pad path)
                  = true).
  { assert (Ppad : forallb plain pad = true).
    { rewrite forallb_forall. intros a Ha. rewrite forallb_forall in Pd.
      apply Pd, Ascii.eqb_eq in Ha. now subst a. }
    unfold mapsLine. repeat (rewrite forallb_app || cbn [forallb]).
    rewrite !digits_text_plain by (assumption || now apply Forall_lt_weaken).
    rewrite Fr, Fw, Fx, Fp, Pp, Ppad. reflexivity. }
  unfold parseLine. rewrite (remove_newline_text _ newline stale Htext).
  set (rest := (if newline then [NUL] else []) ++ stale).
  unfold mapsLine.
  repeat (rewrite <- app_assoc; cbn [app]).
  (* what follows the inode *)
  assert (Htail : exists c t,
             pad ++ path ++ NUL :: rest = c :: t
             /\ digit_in 10 c = None
             /\ (c =? "x")%char = false /\ (c =? "X")%char = false).
  { destruct pad as [|a pad].
    - destruct path as [|c path]; [ | rewrite andb_true_iff in Hpath;
                                      destruct Hpath as [_ F]; discriminate F].
      exists NUL, rest. repeat split.
    - cbn [forallb] in Pd. rewrite andb_true_iff in Pd. destruct Pd as [Pa _].
      apply Ascii.eqb_eq in Pa. subst a. eexists _, _.
      split; [reflexivity | ]. repeat split. }
  assert (Hskip : skip_spaces (pad ++ path ++ NUL :: rest)
                  = Some (path ++ NUL :: rest)).
  { destruct path as [|c path].
    - now apply skip_spaces_pad.
    - apply skip_spaces_pad; [exact Hpad | ].
      rewrite andb_true_iff in Hpath. destruct Hpath as [F _].
      now apply negb_true_iff in F. }
  (* Read range *)
  strtoul_step v1 Hv1. rewrite (Hv1 V1). cbn [incr].
  strtoul_step v2 Hv2. rewrite (Hv2 V2).
  (* Read the permission *)
  match goal with
  | |- context [skip_spaces (" "%char :: r :: ?t)] =>
      change (skip_spaces (" "%char :: r :: t))
        with (skip_spaces ([" "%char] ++ r :: t));
      rewrite (skip_spaces_pad [" "%char] r t) by (assumption || (repeat constructor))
  end.
  cbn [deref hd_error incr].
  (* Discard the file offset, the device id and the inode *)
  skip_space_step. strtoul_step v3 Hv3.
  skip_space_step. strtoul_step v4 Hv4. cbn [incr].
  strtoul_step v5 Hv5.
  match goal with
  | |- context [skip_spaces (" "%char :: digits_text inode ++ ?t)] =>
      change (skip_spaces (" "%char :: digits_text inode ++ t))
        with (skip_spaces ([" "%char] ++ digits_text inode ++ t));
      rewrite (skip_spaces_number [" "%char] inode t)
        by (assumption || (repeat constructor) || now apply Forall_lt_weaken)
  end.
  destruct Htail as (c & t & Et & Hc & Hx & HX).
  rewrite Et.
  destruct (strtoul_text 10 inode c t) as (v6 & Ei & _);
    [now right | assumption | assumption | assumption | assumption | assumption | ].
  rewrite Ei, <- Et, Hskip.
  (* Get the file name *)
  assert (Hname : (if full_path then c_str (path ++ NUL :: rest)
                   else
                     match strrchr (path ++ NUL :: rest) "/" with
                     | Some last =>
                         match last with
                         | Some q => match incr q with
                                     | Some q1 => c_str q1
                                     | None => None
                                     end
                         | None => Some []
                         end
                     | None => None
                     end)
                  = Some (if full_path then path else baseName path)).
  { destruct full_path; [now apply c_str_text | ].
    destruct (strrchr_baseName path rest Pp) as (last & -> & H0 & H1).
    destruct (existsb (Ascii.eqb "/"%char) path).
    - destruct (H1 eq_refl) as (q & -> & Hq). exact Hq.
    - destruct (H0 eq_refl) as [-> ->]. reflexivity. }
  rewrite Hname.
  destruct (r =? "r")%char, (w =? "w")%char, (x =? "x")%char; reflexivity.
Qed.

(** X18. A well-formed line of [/proc/<pid>/maps], with or without its
    newline and whatever the buffer holds behind it, is parsed into the
    map it describes: the range is the two hexadecimal addresses, the
    permission has R, W, X exactly for the flags [r], [w], [x] in the first
    three positions (the fourth is skipped), and the name is the path, or
    with [full_path] false what follows its last ['/'] (nothing for a name
    without ['/'], such as [[heap]]).  The line is left in the buffer with
    its newline overwritten. *)
Theorem parseLine_well_formed (full_path : bool) (start end_ : list N)
    (r w x p : ascii) (offset major minor inode : list N)
    (pad path : list ascii) (newline : bool) (stale : list ascii) :
  mapsLine_ok start end_ r w x p offset major minor inode pad path = true ->
  parseLine full_path
    (mapsLine start end_ r w x p offset major minor inode pad path
     ++ (if newline then ["010"%char] else []) ++ NUL :: stale)
  = Some (mkMemoryMap
            (Range.mk (digits_value 16 start) (digits_value 16 end_))
            (mkPermission (r =? "r")%char (w =? "w")%char (x =? "x")%char)
            (if full_path then path else baseName path),
          mapsLine start end_ r w x p offset major minor inode pad path
          ++ NUL :: (if newline then [NUL] else []) ++ stale)
  /\ (forall dir file, path = dir ++ "/"%char :: file -> ~ In "/"%char file ->
      baseName path = file)
  /\ (~ In "/"%char path -> baseName path = []).
Proof.
  intros Hok.
  split; [now apply parseLine_text | ].
  split; [intros dir file ->; apply baseName_split | apply baseName_none].
Qed.

End MapsFacts.

(** ** The loop over the lines *)

Lemma read_line_text (l rest : list ascii) : forall n,
  ~ In "010"%char l -> (List.length l < n)%nat ->
  read_line n (l ++ "010"%char :: rest) = (l ++ ["010"%char], rest).
Proof.
  induction l as [|c l IH]; intros n Hl Hn; (destruct n as [|n]; [cbn in Hn; lia | ]);
    cbn [app read_line].
  - reflexivity.
  - destruct (Ascii.eqb_spec c "010"%char) as [->|_]; [exfalso; apply Hl; now left | ].
    rewrite IH; [reflexivity | intros F; apply Hl; now right | cbn in Hn; lia].
Qed.

Lemma fgets_text (line l rest : list ascii) :
  ~ In "010"%char l -> (List.length l < BUFFER_SIZE - 1)%nat ->
  fgets line BUFFER_SIZE (l ++ "010"%char :: rest)
  = Some (l ++ "010"%char :: NUL :: skipn (List.length l + 2) line, rest).
Proof.
  intros Hl Hn. unfold fgets.
  rewrite (read_line_text l rest (BUFFER_SIZE - 1) Hl Hn).
  rewrite <- app_assoc, length_app. cbn [app List.length].
  replace (List.length l + 1 + 1)%nat with (List.length l + 2)%nat by lia.
  now destruct l.
Qed.

Lemma uint_text_plain (d : Decimal.uint) :
  forallb plain (list_ascii_of_string (NilEmpty.string_of_uint d)) = true.
Proof. induction d; cbn [NilEmpty.string_of_uint list_ascii_of_string forallb]; auto. Qed.

Lemma procMapsPath_plain (pid : N) : forallb plain (procMapsPath pid) = true.
Proof.
  unfold procMapsPath. rewrite !forallb_app, uint_text_plain. reflexivity.
Qed.

Lemma pathBuffer_c_str (pid : N) :
  (List.length (procMapsPath pid) < BUFFER_SIZE)%nat ->
  c_str (pathBuffer pid) = Some (procMapsPath pid).
Proof.
  intros H. unfold pathBuffer.
  rewrite firstn_all2 by (unfold BUFFER_SIZE in *; lia).
  destruct (BUFFER_SIZE - List.length (procMapsPath pid))%nat as [|k] eqn:E; [lia | ].
  cbn [repeat]. apply c_str_text, procMapsPath_plain.
Qed.

Lemma read_line_full (a b : list ascii) :
  ~ In "010"%char a -> read_line (List.length a) (a ++ b) = (a, b).
Proof.
  induction a as [|c a IH]; intros Ha; cbn [List.length app read_line].
  - now destruct b.
  - destruct (Ascii.eqb_spec c "010"%char) as [->|_]; [exfalso; apply Ha; now left | ].
    rewrite IH; [reflexivity | intros F; apply Ha; now right].
Qed.

Lemma pad_plain (pad : list ascii) :
  forallb (Ascii.eqb " "%char) pad = true -> forallb plain pad = true.
Proof.
  induction pad as [|c pad IH]; [reflexivity | ]. cbn [forallb].
  rewrite !andb_true_iff. intros [Hc Hp]. apply Ascii.eqb_eq in Hc. subst c.
  split; [reflexivity | now apply IH].
Qed.

Lemma plain_no_newline (l : list ascii) :
  forallb plain l = true -> ~ In "010"%char l.
Proof.
  intros H F. rewrite forallb_forall in H. specialize (H _ F). discriminate H.
Qed.

Lemma pathBuffer_length (pid : N) :
  (List.length (procMapsPath pid) < BUFFER_SIZE)%nat ->
  List.length (pathBuffer pid) = BUFFER_SIZE.
Proof.
  intros H. unfold pathBuffer.
  rewrite firstn_all2 by (unfold BUFFER_SIZE in *; lia).
  rewrite length_app, repeat_length. lia.
Qed.

Section MapsLoopFacts.

Context {P : Platform}.

Lemma mapsLoop_lines (full_path : bool) (lines : list (list ascii))
    (maps : list MemoryMap) :
  Forall (fun l => (List.length l < BUFFER_SIZE - 1)%nat /\ ~ In "010"%char l) lines ->
  Forall2 (fun l m => forall stale, exists line',
               parseLine full_path (l ++ "010"%char :: NUL :: stale)
               = Some (m, line')) lines maps ->
  forall fuel line acc,
    (List.length (List.concat (map (fun l => l ++ ["010"%char]) lines)) <= fuel)%nat ->
    mapsLoop fuel full_path line (List.concat (map (fun l => l ++ ["010"%char]) lines)) acc
    = Some (acc ++ maps).
Proof.
  intros Hl H2. induction H2 as [|l m lines maps Hm _ IH]; intros fuel line acc Hf.
  - cbn [map List.concat]. rewrite app_nil_r. now destruct fuel.
  - inversion Hl as [|? ? [Hn Hnl] Hl']; subst.
    cbn [map List.concat] in *. rewrite <- app_assoc in *. cbn [app] in *.
    destruct fuel as [|fuel];
      [rewrite length_app in Hf; cbn in Hf; lia | ].
    cbn [mapsLoop]. rewrite (fgets_text line l _ Hnl Hn).
    destruct (Hm (skipn (List.length l + 2) line)) as [line' ->].
    rewrite (IH Hl') by (rewrite length_app in Hf; cbn in Hf; lia).
    now rewrite <- app_assoc.
Qed.

(** The text of a well-formed line holds no terminator and no newline. *)
Lemma entryLine_plain (e : MapsEntry) :
  entry_ok e = true -> forallb plain (entryLine e) = true.
Proof.
  unfold entry_ok, mapsLine_ok, entryLine, mapsLine. rewrite !andb_true_iff.
  intros ((((((((((((N1 & N2) & N3) & N4) & N5) & N6) & _) & _) & _) & Fl) & Pd)
            & Pp) & _).
  apply number_spec in N1, N2, N3, N4, N5, N6.
  destruct N1 as [_ D1], N2 as [_ D2], N3 as [_ D3], N4 as [_ D4],
    N5 as [_ D5], N6 as [_ D6].
  apply Forall_lt_weaken in D6. apply pad_plain in Pd.
  cbn [forallb] in Fl. rewrite !andb_true_iff in Fl.
  destruct Fl as (Fr & Fw & Fx & Fp & _).
  repeat (rewrite forallb_app || cbn [forallb]).
  rewrite !digits_text_plain by assumption.
  rewrite Fr, Fw, Fx, Fp, Pd, Pp. reflexivity.
Qed.

Lemma parseLine_entry (full_path : bool) (e : MapsEntry) (newline : bool)
    (stale : list ascii) :
  entry_ok e = true ->
  parseLine full_path
    (entryLine e ++ (if newline then ["010"%char] else []) ++ NUL :: stale)
  = Some (entryMap full_path e,
          entryLine e ++ NUL :: (if newline then [NUL] else []) ++ stale).
Proof.
  intros Hok.
  exact (parseLine_text full_path (me_start e) (me_end e)
           (me_r e) (me_w e) (me_x e) (me_p e) (me_offset e)
           (me_major e) (me_minor e) (me_inode e) (me_pad e) (me_path e)
           newline stale Hok).
Qed.

(** X19. [getRemoteProcessMaps] opens [/proc/<pid>/maps]; when the file
    cannot be opened it returns no map.  When the file is made of
    well-formed lines, each ended by a newline and shorter than the
    buffer, it returns one map for each line, in the order of the file:
    the map the line describes, whatever the line before has left in the
    buffer. *)
Theorem getRemoteProcessMaps_reads_each_line
    (fopen : list ascii -> option (list ascii)) (pid : N) (full_path : bool) :
  (List.length (procMapsPath pid) < BUFFER_SIZE)%nat ->
  (fopen (procMapsPath pid) = None ->
   getRemoteProcessMaps fopen pid full_path = Some [])
  /\ (forall entries,
         fopen (procMapsPath pid) = Some (mapsFile entries) ->
         forallb entry_ok entries = true ->
         forallb (fun e => (List.length (entryLine e) <? BUFFER_SIZE - 1)%nat)
           entries = true ->
         getRemoteProcessMaps fopen pid full_path
         = Some (map (entryMap full_path) entries)).
Proof.
  intros Hp. unfold getRemoteProcessMaps. cbv zeta.
  rewrite (pathBuffer_c_str pid Hp). split.
  - now intros ->.
  - intros entries -> Hok Hlen. unfold mapsFile.
    rewrite forallb_forall in Hok, Hlen.
    pose proof (mapsLoop_lines full_path (map entryLine entries)
                  (map (entryMap full_path) entries)) as L.
    rewrite map_map in L. rewrite L; [reflexivity | | | lia].
    + apply Forall_forall. intros l Hl. apply in_map_iff in Hl.
      destruct Hl as (e & <- & He). split.
      * apply Nat.ltb_lt. now apply Hlen.
      * apply plain_no_newline, entryLine_plain. now apply Hok.
    + clear L Hlen. induction entries as [|e entries IH]; cbn [map]; constructor.
      * intros stale. eexists.
        apply (parseLine_entry full_path e true stale). apply Hok. now left.
      * apply IH. intros x Hx. apply Hok. now right.
Qed.

(** Two reads of a line that does not fit the buffer: [fgets] hands over
    its first 255 characters, and what is left comes back from the next
    [fgets]. *)
Lemma getRemoteProcessMaps_two_reads
    (fopen : list ascii -> option (list ascii)) (pid : N) (full_path : bool)
    (a b : list ascii) :
  (List.length (procMapsPath pid) < BUFFER_SIZE)%nat ->
  fopen (procMapsPath pid) = Some (a ++ b ++ ["010"%char]) ->
  List.length a = (BUFFER_SIZE - 1)%nat -> ~ In "010"%char a ->
  (List.length b < BUFFER_SIZE - 1)%nat -> ~ In "010"%char b ->
  getRemoteProcessMaps fopen pid full_path
  = let* (m1, line1) :=
      parseLine full_path (a ++ NUL :: skipn BUFFER_SIZE (pathBuffer pid)) in
    let* (m2, line2) :=
      parseLine full_path
        (b ++ "010"%char :: NUL :: skipn (List.length b + 2) line1) in
    Some [m1; m2].
Proof.
  intros Hp Hf La Ha Lb Hb. unfold getRemoteProcessMaps. cbv zeta.
  rewrite (pathBuffer_c_str pid Hp), Hf.
  destruct a as [|c a]; [discriminate La | ].
  cbn [app List.length mapsLoop]. unfold fgets at 1.
  change (c :: a ++ b ++ ["010"%char]) with ((c :: a) ++ b ++ ["010"%char]).
  rewrite <- La, (read_line_full (c :: a) _ Ha), La.
  change (BUFFER_SIZE - 1 + 1)%nat with BUFFER_SIZE.
  cbn [app].
  destruct (parseLine full_path (c :: a ++ NUL :: skipn BUFFER_SIZE (pathBuffer pid)))
    as [[m1 line1]|]; [ | reflexivity].
  rewrite !length_app. cbn [List.length].
  replace (List.length a + (List.length b + 1))%nat
    with (S (List.length a + List.length b)) by lia.
  cbn [mapsLoop].
  rewrite (fgets_text line1 b [] Hb Lb).
  destruct (parseLine full_path _) as [[m2 line2]|]; [ | reflexivity].
  now destruct (List.length a + List.length b)%nat.
Qed.

(** X20. A line that does not fit the buffer gives two maps.  Let a
    well-formed line be longer than 254 characters, its 255th character
    the last of the part [cut] of its path.  [fgets] hands over these 255
    characters: the first map is the map of the line with the path cut
    short.  The rest of the path comes back from the next [fgets] and is
    parsed as a line of its own, on top of the first part still in the
    buffer: when that parse stays inside the buffer its map is the second
    map of the result. *)
Theorem long_line_is_read_in_two
    (fopen : list ascii -> option (list ascii)) (pid : N) (full_path : bool)
    (e : MapsEntry) (cut rest : list ascii) (m2 : MemoryMap) (line2 : list ascii) :
  (List.length (procMapsPath pid) < BUFFER_SIZE)%nat ->
  fopen (procMapsPath pid) = Some (mapsFile [e]) ->
  me_path e = cut ++ rest ->
  entry_ok (with_path cut e) = true ->
  List.length (entryLine (with_path cut e)) = (BUFFER_SIZE - 1)%nat ->
  forallb plain rest = true ->
  (List.length rest < BUFFER_SIZE - 1)%nat ->
  parseLine full_path
    (rest ++ "010"%char :: NUL
     :: skipn (List.length rest + 2) (entryLine (with_path cut e) ++ [NUL]))
  = Some (m2, line2) ->
  getRemoteProcessMaps fopen pid full_path
  = Some [entryMap full_path (with_path cut e); m2].
Proof.
  intros Hp Hf Hpath Hok Hlen Hrest Lrest H2.
  assert (Hline : mapsFile [e]
                  = entryLine (with_path cut e) ++ rest ++ ["010"%char]).
  { unfold mapsFile, entryLine, mapsLine, with_path. cbn [map List.concat me_start
      me_end me_r me_w me_x me_p me_offset me_major me_minor me_inode me_pad me_path].
    rewrite Hpath, app_nil_r.
    repeat (rewrite <- app_assoc; cbn [app]). reflexivity. }
  rewrite Hline in Hf.
  rewrite (getRemoteProcessMaps_two_reads fopen pid full_path
             (entryLine (with_path cut e)) rest Hp Hf Hlen
             (plain_no_newline _ (entryLine_plain _ Hok)) Lrest
             (plain_no_newline _ Hrest)).
  rewrite skipn_all2 by (rewrite (pathBuffer_length pid Hp); lia).
  pose proof (parseLine_entry full_path (with_path cut e) false [] Hok) as E.
  cbn [app] in E. rewrite E. cbn [app]. rewrite H2. reflexivity.
Qed.

End MapsLoopFacts.

(** * Properties of [Utility/Memory_windows.cpp] *)

(** X21. The permission given to a region depends on the low byte of
    [info.Protect] only (the modifiers [PAGE_GUARD], [PAGE_NOCACHE],
    [PAGE_WRITECOMBINE] lie above it), is empty for [PAGE_NOACCESS] (1),
    and never has W without R: the mask of [PROT_ISWRITE] lies inside that
    of [PROT_ISREAD]. *)
Theorem protectPermission_low_byte (Protect : N) :
  protectPermission Protect = protectPermission (N.land Protect 0xFF)
  /\ protectPermission 1 = PF_NONE
  /\ (PF_WRITE (protectPermission Protect) = true ->
      PF_READ (protectPermission Protect) = true).
Proof.
  assert (M : forall m, N.land m 0xFF = m ->
                        N.land (N.land Protect 0xFF) m = N.land Protect m).
  { intros m Hm. now rewrite <- N.land_assoc, (N.land_comm 0xFF m), Hm. }
  split; [ | split; [reflexivity | ]].
  - unfold protectPermission, PROT_ISREAD, PROT_ISWRITE, PROT_ISEXEC.
    now rewrite !M by reflexivity.
  - unfold protectPermission, PROT_ISREAD, PROT_ISWRITE, PROT_ISEXEC.
    destruct (N.eqb_spec (N.land Protect 0xEE) 0) as [E|E]; cbn [negb].
    + rewrite (land_submask Protect 0xEE 0xCC E eq_refl). cbn [N.eqb negb].
      destruct (negb (N.land Protect 0xF0 =? 0)); intros F; discriminate F.
    + intros _. destruct (negb (N.land Protect 0xCC =? 0)),
        (negb (N.land Protect 0xF0 =? 0)); reflexivity.
Qed.

(** * Worked instances of the further properties *)

(** [recordMemoryAccess_once] on a new VM: reads are recorded once. *)
Lemma recordMemoryAccess_once_witness :
  memoryLoggingLevel
    (snd (recordMemoryAccess (P := X86_64) MEMORY_READ (VM_new (P := X86_64))))
  = N.lor 0 (N.land MEMORY_READ MEMORY_READ_WRITE)
  /\ recordMemoryAccess (P := X86_64) MEMORY_READ
       (snd (recordMemoryAccess (P := X86_64) MEMORY_READ (VM_new (P := X86_64))))
     = (true,
        snd (recordMemoryAccess (P := X86_64) MEMORY_READ (VM_new (P := X86_64)))).
Proof.
  apply (proj2 (recordMemoryAccess_once (P := X86_64) MEMORY_READ
                  (VM_new (P := X86_64)) eq_refl)).
Defined.

(** [addMemAccessCB_refused_after_recording] for the type 5. *)
Lemma addMemAccessCB_refused_after_recording_witness :
  memoryLoggingLevel
    (snd (addMemAccessCB (P := X86_64) 5 (Some (UserInstCB 1)) (UserData 0)
            (VM_new (P := X86_64))))
  = N.lor 0 (N.land 5 MEMORY_READ_WRITE).
Proof.
  apply (proj2 (addMemAccessCB_refused_after_recording (P := X86_64) 5
                  (UserInstCB 1) (UserData 0) (VM_new (P := X86_64))
                  eq_refl ltac:(discriminate) ltac:(discriminate)
                  ltac:(discriminate))).
Defined.

(** [addMemRangeCB_ids_exhausted] with [memCBID] at [2 ^ 31]. *)
Lemma addMemRangeCB_ids_exhausted_witness :
  fst (addMemRangeCB (P := X86_64) 4096 8192 MEMORY_READ (Some (UserInstCB 1))
         (UserData 0) (with_memCBID (2 ^ 31) (VM_new (P := X86_64))))
  = INVALID_EVENTID (Platform := X86_64).
Proof.
  apply (proj1 (addMemRangeCB_ids_exhausted (P := X86_64) 4096 8192 MEMORY_READ
                  (UserInstCB 1) (UserData 0)
                  (with_memCBID (2 ^ 31) (VM_new (P := X86_64)))
                  eq_refl ltac:(discriminate) ltac:(discriminate))).
Defined.

(** [last_memory_id_is_the_sentinel] with [memCBID] at [2 ^ 31 - 1]. *)
Lemma last_memory_id_is_the_sentinel_witness :
  fst (deleteInstrumentation (INVALID_EVENTID (Platform := X86_64))
         (snd (addMemRangeCB (P := X86_64) 4096 8192 MEMORY_READ
                 (Some (UserInstCB 1)) (UserData 0)
                 (with_memCBID (2 ^ 31 - 1) (VM_new (P := X86_64))))))
  = true.
Proof.
  apply (proj2 (proj2 (last_memory_id_is_the_sentinel (P := X86_64) 4096 8192
                         MEMORY_READ (UserInstCB 1) (UserData 0)
                         (with_memCBID (2 ^ 31 - 1) (VM_new (P := X86_64)))
                         eq_refl eq_refl ltac:(discriminate) eq_refl))).
Defined.

(** [gates_never_share_an_entry] on [demoVM] with a read callback. *)
Lemma gates_never_share_an_entry_witness :
  ~ In 0%nat
       (called (memWriteGate (P := X86_64) (U := countingUser)
                  (snd (addMemRangeCB (P := X86_64) 4096 8192 MEMORY_READ
                          (Some (UserInstCB 1)) (UserData 0) demoVM)) 0)).
Proof.
  apply (gates_never_share_an_entry (P := X86_64) (U := countingUser)
           (snd (addMemRangeCB (P := X86_64) 4096 8192 MEMORY_READ
                   (Some (UserInstCB 1)) (UserData 0) demoVM)) 0 0 0%nat).
  vm_compute. now left.
Defined.

(** [unmatched_type_is_never_called] for the type 5 on [demoVM]. *)
Lemma unmatched_type_is_never_called_witness :
  fst (addMemRangeCB (P := X86_64) 4096 8192 5 (Some (UserInstCB 1))
         (UserData 0) demoVM)
  = N.lor (memCBID demoVM) EVENTID_VIRTCB_MASK
  /\ ~ In (List.length (memCBInfos demoVM))
          (called (memReadGate (P := X86_64) (U := countingUser)
                     (snd (addMemRangeCB (P := X86_64) 4096 8192 5
                             (Some (UserInstCB 1)) (UserData 0) demoVM)) 0)).
Proof.
  destruct (unmatched_type_is_never_called (P := X86_64) (U := countingUser)
              4096 8192 5 (UserInstCB 1) (UserData 0) demoVM 0
              eq_refl ltac:(discriminate) ltac:(discriminate) eq_refl eq_refl)
    as (H1 & _ & H3 & _).
  split; [exact H1 | exact H3].
Defined.

(** [deleteInstrumentation_erases_one_entry] on [oneCallbackVM]: an id
    that was never handed out. *)
Lemma deleteInstrumentation_erases_one_entry_witness :
  deleteInstrumentation (2 ^ 31 + 5) oneCallbackVM
  = (false, oneCallbackVM).
Proof.
  apply (proj2 (deleteInstrumentation_erases_one_entry
                  (2 ^ 31 + 5) oneCallbackVM eq_refl)).
  vm_compute. intros [F|[]]. discriminate F.
Defined.

(** [memory_deletions_commute] on [oneCallbackVM] with a second callback. *)
Lemma memory_deletions_commute_witness :
  snd (deleteInstrumentation (2 ^ 31 + 1)
         (snd (deleteInstrumentation (2 ^ 31)
                 (snd (addMemRangeCB (P := X86_64) 0 16 MEMORY_WRITE
                         (Some (UserInstCB 3)) (UserData 0) oneCallbackVM)))))
  = snd (deleteInstrumentation (2 ^ 31)
           (snd (deleteInstrumentation (2 ^ 31 + 1)
                   (snd (addMemRangeCB (P := X86_64) 0 16 MEMORY_WRITE
                           (Some (UserInstCB 3)) (UserData 0) oneCallbackVM))))).
Proof.
  apply (proj2 (proj2 (memory_deletions_commute (2 ^ 31) (2 ^ 31 + 1)
                         (snd (addMemRangeCB (P := X86_64) 0 16 MEMORY_WRITE
                                 (Some (UserInstCB 3)) (UserData 0) oneCallbackVM))
                         eq_refl eq_refl ltac:(discriminate)))).
Defined.

(** [getBBMemoryAccess_diverges_at_last_id]: a sequence that ends at
    instruction 65535, the current one. *)
Lemma getBBMemoryAccess_diverges_at_last_id_witness :
  getBBMemoryAccess
    (mkVM (mkEngine [] [] 0
             (Some (mkExecBlock 0 65535 (fun _ => 65530) (fun _ => 65535)
                      (fun _ _ => []) (fun _ _ => None))) true)
       0 [] 0 (INVALID_EVENTID (Platform := X86_64))
       (INVALID_EVENTID (Platform := X86_64)) [])
  = None.
Proof.
  apply (proj2 (getBBMemoryAccess_diverges_at_last_id
                  (mkVM (mkEngine [] [] 0
                           (Some (mkExecBlock 0 65535 (fun _ => 65530)
                                    (fun _ => 65535) (fun _ _ => [])
                                    (fun _ _ => None))) true)
                     0 [] 0 (INVALID_EVENTID (Platform := X86_64))
                     (INVALID_EVENTID (Platform := X86_64)) [])
                  _ eq_refl eq_refl eq_refl)).
Defined.

(** [getBBMemoryAccess_ends_with_getInstMemoryAccess] on [demoVM]. *)
Lemma getBBMemoryAccess_ends_with_getInstMemoryAccess_witness :
  getBBMemoryAccess demoVM
  = Some (flat_map (fun i => instMemoryAccess demoBlock i true)
            (instIDs (getSeqStart demoBlock (getCurrentSeqID demoBlock))
               (N.to_nat (getCurrentInstID demoBlock
                          - getSeqStart demoBlock (getCurrentSeqID demoBlock))))
          ++ getInstMemoryAccess demoVM).
Proof.
  apply (proj1 (getBBMemoryAccess_ends_with_getInstMemoryAccess demoVM demoBlock
                  eq_refl ltac:(discriminate) ltac:(discriminate) eq_refl)).
Defined.

(** [gates_idle_without_accesses] on a new VM. *)
Lemma gates_idle_without_accesses_witness :
  memReadGate (P := X86_64) (U := countingUser) (VM_new (P := X86_64)) 0
  = (CONTINUE, 0, []).
Proof.
  apply (proj1 (gates_idle_without_accesses (P := X86_64) (U := countingUser)
                  (VM_new (P := X86_64)) 0 eq_refl)).
Defined.

(** [parseLine_well_formed] on the line of the comment in
    [getRemoteProcessMaps],
    [00400000-0063c000 r-xp 00000000 fe:01 675628    /usr/bin/vim]. *)
Lemma parseLine_well_formed_witness :
  parseLine (P := X86_64) false
    (list_ascii_of_string
       "00400000-0063c000 r-xp 00000000 fe:01 675628    /usr/bin/vim"
     ++ ["010"%char; NUL])
  = Some (mkMemoryMap (Range.mk 4194304 6537216) (mkPermission true false true)
            (list_ascii_of_string "vim"),
          list_ascii_of_string
            "00400000-0063c000 r-xp 00000000 fe:01 675628    /usr/bin/vim"
          ++ [NUL; NUL]).
Proof.
  exact (proj1 (parseLine_well_formed (P := X86_64) false
                  [0; 0; 4; 0; 0; 0; 0; 0] [0; 0; 6; 3; 12; 0; 0; 0]
                  "r" "-" "x" "p" [0; 0; 0; 0; 0; 0; 0; 0] [15; 14] [0; 1]
                  [6; 7; 5; 6; 2; 8] (list_ascii_of_string "    ")
                  (list_ascii_of_string "/usr/bin/vim") true [] eq_refl)).
Defined.

(** [getRemoteProcessMaps_reads_each_line] on a file of two lines,
    [00400000-0063c000 r-xp 00000000 fe:01 675628    /usr/bin/vim] and
    [0063c000-00654000 rw-p 00000000 00:00 0    [heap]]. *)
Lemma getRemoteProcessMaps_reads_each_line_witness :
  getRemoteProcessMaps (P := X86_64)
    (fun _ => Some (mapsFile [vimEntry; heapEntry])) 1234 false
  = Some [mkMemoryMap (Range.mk 4194304 6537216) (mkPermission true false true)
            (list_ascii_of_string "vim");
          mkMemoryMap (Range.mk 6537216 6635520) (mkPermission true true false)
            []].
Proof.
  exact (proj2 (getRemoteProcessMaps_reads_each_line (P := X86_64)
                  (fun _ => Some (mapsFile [vimEntry; heapEntry])) 1234 false
                  ltac:(apply Nat.ltb_lt; reflexivity))
           [vimEntry; heapEntry] eq_refl eq_refl eq_refl).
Defined.

(** [long_line_is_read_in_two] on a line of 266 characters: the library
    [libdemo.so] in a directory whose name fills the buffer.  The first
    map has the range of the line and the directory as its name, the
    second an empty range and the end [o.so] of the file name. *)
Lemma long_line_is_read_in_two_witness :
  List.length (entryLine longEntry) = 266%nat
  /\ getRemoteProcessMaps (P := X86_64)
       (fun _ => Some (mapsFile [longEntry])) 1 true
     = Some [mkMemoryMap (Range.mk 4194304 6537216) (mkPermission true false true)
               longDir;
             mkMemoryMap (Range.mk 0 0) (mkPermission false false false)
               (list_ascii_of_string "o.so")].
Proof.
  split; [reflexivity | ].
  exact (long_line_is_read_in_two (P := X86_64)
           (fun _ => Some (mapsFile [longEntry])) 1 true longEntry longDir
           (list_ascii_of_string "/libdemo.so")
           (mkMemoryMap (Range.mk 0 0) (mkPermission false false false)
              (list_ascii_of_string "o.so"))
           _
           ltac:(apply Nat.ltb_lt; reflexivity) eq_refl eq_refl eq_refl eq_refl
           eq_refl ltac:(apply Nat.ltb_lt; reflexivity) eq_refl).
Defined.

(** [msb_separates_event_ids] on a memory-range callback and on a code
    callback, each registered on a new VM and then deleted. *)
Lemma msb_separates_event_ids_witness :
  (N.testbit (2 ^ 31) 31 = true /\ In 0 (ids (memCBInfos oneCallbackVM)))
  /\ (N.testbit 0 31 = false /\ In 0 (ids (instrRules (engine codeVM))))
  /\ deleteInstrumentation (2 ^ 31) oneCallbackVM
     = (true, with_memCBInfos [] oneCallbackVM)
  /\ engine (snd (deleteInstrumentation (2 ^ 31) oneCallbackVM))
     = engine oneCallbackVM
  /\ deleteInstrumentation (2 ^ 31 + 7) oneCallbackVM = (false, oneCallbackVM)
  /\ fst (deleteInstrumentation 0 codeVM) = true
  /\ instrRules (engine (snd (deleteInstrumentation 0 codeVM))) = []
  /\ memCBInfos (snd (deleteInstrumentation 0 oneCallbackVM))
     = memCBInfos oneCallbackVM.
Proof.
  destruct (msb_separates_event_ids (P := X86_64)) as (R & M & E).
  split.
  { exact (proj1 (R (RegMemRangeCB 4096 8192 MEMORY_READ (Some (UserInstCB 2))
                       (UserData 0))
                    (VM_new (P := X86_64)) (2 ^ 31) oneCallbackVM eq_refl
                    ltac:(discriminate)) eq_refl). }
  split.
  { exact (proj2 (R (RegCodeCB PREINST (Some (UserInstCB 1)) (UserData 0))
                    (VM_new (P := X86_64)) 0 codeVM eq_refl
                    ltac:(discriminate)) eq_refl). }
  destruct (M (2 ^ 31) oneCallbackVM eq_refl) as (M1 & M2 & _).
  destruct (M (2 ^ 31 + 7) oneCallbackVM eq_refl) as (_ & _ & M3).
  destruct (E 0 codeVM eq_refl) as (_ & _ & _ & E4).
  destruct (E 0 oneCallbackVM eq_refl) as (E1 & _).
  split.
  { exact (M2 [] (mkMemCBInfo MEMORY_READ (Range.mk 4096 8192) (UserInstCB 2)
                    (UserData 0)) [] eq_refl ltac:(intros [])). }
  split; [exact M1 | ].
  split.
  { apply M3. vm_compute. intros [F|[]]. discriminate F. }
  destruct (E4 [] (InstrRuleBasic True_ (mkGen (UserInstCB 1) (UserData 0))
                     PREINST true) [] eq_refl ltac:(intros [])) as [E5 E6].
  split; [exact E5 | ]. split; [exact E6 | exact E1].
Defined.

(** [gates_forward_by_type_and_range] on the callback of scenario S4,
    registered for reads and writes on [[4096, 4160)] with a user whose
    callbacks leave the registry alone: the read gate passes it by. *)
Lemma gates_forward_by_type_and_range_witness :
  exists r,
    Live.memReadGate (P := X86_64) (U := quietUser countingUser) 2 Live.OwnRegistry
      (Live.mkHeap
         (snd (addMemRangeCB (P := X86_64) 4096 4160 MEMORY_READ_WRITE
                 (Some (UserInstCB 1)) (UserData 0) s4VM)) []) 0
    = Some r
    /\ ~ In 0%nat (map call_index (Live.calls r)).
Proof.
  destruct (gates_forward_by_type_and_range (P := X86_64)
              (U := quietUser countingUser)
              (Live.mkHeap
                 (snd (addMemRangeCB (P := X86_64) 4096 4160 MEMORY_READ_WRITE
                         (Some (UserInstCB 1)) (UserData 0) s4VM)) []) 0
              2 0 0
              (mkMemCBInfo MEMORY_READ_WRITE (Range.mk 4096 4160) (UserInstCB 1)
                 (UserData 0)))
    as [(r & Hr & Hiff) _].
  - reflexivity.
  - reflexivity.
  - repeat constructor.
  - apply Nat.ltb_lt. reflexivity.
  - exists r. split; [exact Hr | ].
    intros F. apply Hiff in F. destruct F as [F _]. discriminate F.
Defined.

(** [VM_copy_registers_again] on [recordsVM], whose two records carry the
    ids 0 and 1: the copy carries them under the ids 2 and 3, and the
    copied engine holds the two new rules only. *)
Lemma VM_copy_registers_again_witness :
  ids (instrCBInfos recordsVM) = [0; 1]
  /\ instrCBInfos (VM_copy (P := X86_64) (engine recordsVM) recordsVM)
     = [(2, mkInstrCBInfo (Range.mk 0 (2 ^ 64 - 1)) 9 0 0);
        (3, mkInstrCBInfo (Range.mk 4096 8192) 5 0 0)]
  /\ instrRules (engine (VM_copy (P := X86_64) (engine recordsVM) recordsVM))
     = map recordRule
         (instrCBInfos (VM_copy (P := X86_64) (engine recordsVM) recordsVM)).
Proof.
  destruct (VM_copy_registers_again (P := X86_64) (engine recordsVM) recordsVM)
    as (C1 & C2 & _).
  - vm_compute. discriminate.
  - repeat constructor.
  - split; [reflexivity | ]. split; [exact C1 | exact C2].
Defined.

(** [id_deleted_once] for the id [2 ^ 31 + 1] that [keptOp] returns after
    [demoOps]. *)
Lemma id_deleted_once_witness :
  fst (register (P := X86_64) keptOp
         (vmOps (P := X86_64) demoOps (VM_new (P := X86_64))))
  = 2147483649
  /\ fst (deleteInstrumentation 2147483649
            (vmOps (P := X86_64) midOps
               (snd (register (P := X86_64) keptOp
                       (vmOps (P := X86_64) demoOps (VM_new (P := X86_64)))))))
     = true
  /\ fst (deleteInstrumentation 2147483649
            (vmOps (P := X86_64) laterOps
               (snd (deleteInstrumentation 2147483649
                       (vmOps (P := X86_64) midOps
                          (snd (register (P := X86_64) keptOp
                                  (vmOps (P := X86_64) demoOps
                                     (VM_new (P := X86_64))))))))))
     = false.
Proof.
  split; [vm_compute; reflexivity | ].
  apply (id_deleted_once (P := X86_64) demoOps midOps laterOps keptOp
           2147483649).
  - vm_compute. reflexivity.
  - vm_compute. reflexivity.
  - discriminate.
  - vm_compute. intros [F|[F|[F|[]]]]; discriminate F.
  - vm_compute. intros [F|[F|[F|[]]]]; discriminate F.
Defined.


(** [quiet_gates] on the callback of scenario S4: the read gate makes no
    call. *)
Lemma quiet_gates_witness :
  Live.memReadGate (P := X86_64) (U := quietUser countingUser) 2 Live.OwnRegistry
    (Live.mkHeap
       (snd (addMemRangeCB (P := X86_64) 4096 4160 MEMORY_READ_WRITE
               (Some (UserInstCB 1)) (UserData 0) s4VM)) []) 0
  = Some (Live.mkOutcome (U := quietUser countingUser) CONTINUE
            (Live.mkHeap
               (snd (addMemRangeCB (P := X86_64) 4096 4160 MEMORY_READ_WRITE
                       (Some (UserInstCB 1)) (UserData 0) s4VM)) [])
            0 []).
Proof.
  exact (proj1 (quiet_gates (P := X86_64) countingUser
                  (snd (addMemRangeCB (P := X86_64) 4096 4160 MEMORY_READ_WRITE
                          (Some (UserInstCB 1)) (UserData 0) s4VM))
                  [] 0 2 ltac:(apply Nat.ltb_lt; reflexivity))).
Defined.
